(** * EventActions: declarative DOM actions, embedded in Rocq

    Shallow embedding of the action-sequence interpreter of the
    eventactions library ([executeAction], [getElementOptions],
    [addEventActions], [removeEventActions], the listener built by
    [actionHandler]), of the name conversions, of the [data-class-*]
    script and of the [data-scroll-target] and [data-clear-target]
    scripts, together with the properties of the specification that
    concern them and further properties read off the code.

    The browser and the scripts found in attributes are not part of the
    library.  They are collected in a record [Env] of functions that may
    inspect the whole history of the run and return a new page, so that
    every theorem quantified over [Env] holds whatever the page, the user
    and the scripts do. *)

From Stdlib Require Import ZArith QArith Ascii.
From stdpp Require Import gmap strings list pretty.

Local Open Scope Z_scope.

(* ===================================================================== *)
(** * JavaScript strings (ASCII fragment) *)
(* ===================================================================== *)

Module Js.

Definition chars (s : string) : list ascii := String.list_ascii_of_string s.
Definition str (l : list ascii) : string := String.string_of_list_ascii l.

Definition isDigit (c : ascii) : bool :=
  bool_decide (48 ≤ nat_of_ascii c ≤ 57)%nat.
Definition isUpper (c : ascii) : bool :=
  bool_decide (65 ≤ nat_of_ascii c ≤ 90)%nat.
Definition isDash (c : ascii) : bool := bool_decide (c = "-"%char).
Definition lowerChar (c : ascii) : ascii :=
  if isUpper c then ascii_of_nat (nat_of_ascii c + 32) else c.

(** [String.prototype.toLowerCase]. *)
Definition toLowerCase (s : string) : string := str (lowerChar <$> chars s).

Fixpoint dropSpaces (l : list ascii) : list ascii :=
  match l with
  | c :: l' => if Ascii.is_space c then dropSpaces l' else l
  | [] => []
  end.

(** [String.prototype.trim]. *)
Definition trim (s : string) : string :=
  str (reverse (dropSpaces (reverse (dropSpaces (chars s))))).

(** [s.endsWith(suffix)]. *)
Definition endsWith (s suffix : string) : bool :=
  bool_decide (reverse (chars suffix) `prefix_of` reverse (chars s)).

(** [s.slice(0, -n)]: the string without its last [n] characters. *)
Definition dropLast (n : nat) (s : string) : string :=
  str (reverse (drop n (reverse (chars s)))).

(** [s.split(/\s+/).filter(cls => cls.trim() !== '')]. *)
Definition tokens (s : string) : list string := String.words s.

(** [list.includes(x)] on strings. *)
Definition includes (l : list string) (x : string) : bool :=
  bool_decide (x ∈ l).

(** First pass of [camelToSnakeCase]:
    [str.replace(/([0-9]+)/g, g => `-${g}`)]. *)
Fixpoint dashDigits (inRun : bool) (l : list ascii) : list ascii :=
  match l with
  | [] => []
  | c :: l' =>
      if isDigit c
      then (if inRun then [c] else ["-"%char; c]) ++ dashDigits true l'
      else c :: dashDigits false l'
  end.

(** Second pass: [str.replace(/[A-Z]/g, g => `-${g[0].toLowerCase()}`)]. *)
Definition dashUpper (l : list ascii) : list ascii :=
  l ≫= λ c, if isUpper c then ["-"%char; lowerChar c] else [c].

(** Third pass: [str.replace(/--+/g, '-')]. *)
Fixpoint collapseDashes (inRun : bool) (l : list ascii) : list ascii :=
  match l with
  | [] => []
  | c :: l' =>
      if isDash c
      then (if inRun then [] else [c]) ++ collapseDashes true l'
      else c :: collapseDashes false l'
  end.

Fixpoint dropDashes (l : list ascii) : list ascii :=
  match l with
  | c :: l' => if isDash c then dropDashes l' else l
  | [] => []
  end.

(** Fourth pass: [str.replace(/^-+/, '').replace(/-+$/, '')]. *)
Definition stripDashes (l : list ascii) : list ascii :=
  reverse (dropDashes (reverse (dropDashes l))).

Definition camelToSnakeCase (s : string) : string :=
  str (stripDashes (collapseDashes false (dashUpper (dashDigits false (chars s))))).

Definition isLower (c : ascii) : bool :=
  bool_decide (97 ≤ nat_of_ascii c ≤ 122)%nat.
Definition upperChar (c : ascii) : ascii :=
  if isLower c then ascii_of_nat (nat_of_ascii c - 32) else c.

(** [str.replace(/-([a-z])/g, g => g[1].toUpperCase())]: the matches are
    found from left to right and do not overlap. *)
Fixpoint dashLower (l : list ascii) : list ascii :=
  match l with
  | [] => []
  | c :: l' =>
      if isDash c then
        match l' with
        | d :: l'' => if isLower d then upperChar d :: dashLower l'' else c :: dashLower l'
        | [] => [c]
        end
      else c :: dashLower l'
  end.

Definition snakeToCamelCase (s : string) : string := str (dashLower (chars s)).

(** [chained R prev l]: every character of [l] stands in [R] with the one
    before it, the first with [prev]. *)
Fixpoint chained (R : option ascii → ascii → bool) (prev : option ascii)
    (l : list ascii) : bool :=
  match l with
  | [] => true
  | c :: l' => R prev c && chained R (Some c) l'
  end.

(** There is a character before, and it satisfies [P]. *)
Definition after (P : ascii → bool) (prev : option ascii) : bool :=
  match prev with Some p => P p | None => false end.

(** A digit follows a digit or a dash. *)
Definition ledDigit (prev : option ascii) (c : ascii) : bool :=
  if isDigit c then after (λ p, isDigit p || isDash p) prev else true.
Definition lowerLed (prev : option ascii) (c : ascii) : bool :=
  negb (isUpper c) && ledDigit prev c.
(** Moreover a dash does not follow a dash. *)
Definition strictPair (prev : option ascii) (c : ascii) : bool :=
  lowerLed prev c && (if isDash c then negb (after isDash prev) else true).

(** The names in dashed form: no capital letter, no dash at either end,
    no two dashes in a row, and a dash in front of every run of digits
    that does not start the name. *)
Definition tidyPair (prev : option ascii) (c : ascii) : bool :=
  negb (isUpper c)
  && (if isDigit c
      then match prev with Some p => isDigit p || isDash p | None => true end
      else true)
  && (if isDash c then after (λ p, negb (isDash p)) prev else true).
Definition dashed (s : string) : bool :=
  chained tidyPair None (chars s)
  && negb (bool_decide (last (chars s) = Some "-"%char)).

End Js.

(* ===================================================================== *)
(** * JavaScript values *)
(* ===================================================================== *)

(** Numbers as [parseFloat] can produce them.  Finite numbers are kept as
    exact rationals: the rounding of IEEE doubles is not modelled, and no
    property below depends on it. *)
Inductive jsnum :=
| JNaN
| JInf (negative : bool)
| JFin (q : Q).

Definition isNaN (n : jsnum) : bool :=
  match n with JNaN => true | _ => false end.

(** [n > 0] and [n < 0]; every comparison with NaN is false. *)
Definition gtZero (n : jsnum) : bool :=
  match n with
  | JNaN => false
  | JInf negative => negb negative
  | JFin q => bool_decide (0 < Qnum q)
  end.
Definition ltZero (n : jsnum) : bool :=
  match n with
  | JNaN => false
  | JInf negative => negative
  | JFin q => bool_decide (Qnum q < 0)
  end.

(** [n * multiplier] for the positive integer multipliers the code uses. *)
Definition times (multiplier : positive) (n : jsnum) : jsnum :=
  match n with
  | JFin q => JFin (q * inject_Z (Z.pos multiplier))
  | _ => n
  end.

(** Values found in option records.  Functions are opaque and named by a
    number; the environment knows how to call them. *)
Inductive value :=
| VNull
| VBool (b : bool)
| VNum (n : jsnum)
| VStr (s : string)
| VFun (f : nat).

(** [typeof v], as far as [getElementOptions] looks at it. *)
Inductive jstype := TBoolean | TNumber | TOther.
Definition typeOf (v : value) : jstype :=
  match v with
  | VBool _ => TBoolean
  | VNum _ => TNumber
  | _ => TOther
  end.

(** JavaScript truthiness. *)
Definition truthy (v : value) : bool :=
  match v with
  | VNull => false
  | VBool b => b
  | VNum JNaN => false
  | VNum (JInf _) => true
  | VNum (JFin q) => negb (bool_decide (Qnum q = 0))
  | VStr s => negb (bool_decide (s = ""))
  | VFun _ => true
  end.

(** [v || null]. *)
Definition orNull (v : value) : value := if truthy v then v else VNull.
(** [v || 'text']. *)
Definition orStr (v : value) (dflt : string) : value :=
  if truthy v then v else VStr dflt.

(** [sanitizeValue]: strings are trimmed and the empty string becomes
    null; any other value is returned as it is. *)
Definition sanitizeValue (v : value) : value :=
  match v with
  | VStr s => let s' := Js.trim s in
              if bool_decide (s' = "") then VNull else VStr s'
  | _ => v
  end.

(* ===================================================================== *)
(** * The page *)
(* ===================================================================== *)

Definition elem := nat.

(** The listener that [addEventActions] installs: the closure returned by
    [actionHandler(el, prefix)], which also captures [eventType].  Every
    call builds a new function object; [l_id] is its identity. *)
Record listener := Listener {
  l_id : nat;
  l_el : elem;
  l_eventType : string;
  l_prefix : string
}.

Global Instance listener_eq_dec : EqDecision listener.
Proof. solve_decision. Defined.

(** What a property of [el._eventActions], or [el.on<type>], can hold:
    null, a function (an inline handler), or the [handlers] table. *)
Inductive slot :=
| SNull
| SFun (h : nat)
| STable (t : gmap string listener).

Definition truthySlot (s : slot) : bool :=
  match s with SNull => false | _ => true end.

(** A JavaScript object whose keys are enumerated in insertion order. *)
Definition jsobject := list (string * slot).

Fixpoint objGet (k : string) (o : jsobject) : option slot :=
  match o with
  | [] => None
  | (k', v) :: o' => if bool_decide (k' = k) then Some v else objGet k o'
  end.
(** Reading a missing property gives [undefined], which is as falsy as
    null. *)
Definition objRead (k : string) (o : jsobject) : slot :=
  default SNull (objGet k o).
Fixpoint objSet (k : string) (v : slot) (o : jsobject) : jsobject :=
  match o with
  | [] => [(k, v)]
  | (k', v') :: o' =>
      if bool_decide (k' = k) then (k, v) :: o' else (k', v') :: objSet k v o'
  end.
Definition objDelete (k : string) (o : jsobject) : jsobject :=
  filter (λ kv, kv.1 ≠ k) o.
Definition objKeys (o : jsobject) : list string := o.*1.

Record element := Element {
  attributes : gmap string string;
  classList : list string;
  (** String properties written as [el[name] = text]: [innerHTML] and
      [textContent].  How the browser keeps these two views of the content
      in step is outside the model. *)
  props : gmap string string;
  scrollTop : Z;
  scrollLeft : Z;
  scrollHeight : Z;
  scrollWidth : Z;
  clientHeight : Z;
  clientWidth : Z;
  (** [el.onclick], [el.onscroll], ... keyed by the property name. *)
  onprop : gmap string slot;
  (** Listeners registered with [addEventListener], oldest first. *)
  listeners : list (string * listener);
  _eventActions : option jsobject
}.

Definition emptyElement : element :=
  Element ∅ [] ∅ 0 0 0 0 0 0 ∅ [] None.

Definition withClassList (c : list string) (e : element) : element :=
  Element (attributes e) c (props e) (scrollTop e) (scrollLeft e)
    (scrollHeight e) (scrollWidth e) (clientHeight e) (clientWidth e)
    (onprop e) (listeners e) (_eventActions e).
Definition withProps (p : gmap string string) (e : element) : element :=
  Element (attributes e) (classList e) p (scrollTop e) (scrollLeft e)
    (scrollHeight e) (scrollWidth e) (clientHeight e) (clientWidth e)
    (onprop e) (listeners e) (_eventActions e).
Definition withScrollTop (v : Z) (e : element) : element :=
  Element (attributes e) (classList e) (props e) v (scrollLeft e)
    (scrollHeight e) (scrollWidth e) (clientHeight e) (clientWidth e)
    (onprop e) (listeners e) (_eventActions e).
Definition withScrollLeft (v : Z) (e : element) : element :=
  Element (attributes e) (classList e) (props e) (scrollTop e) v
    (scrollHeight e) (scrollWidth e) (clientHeight e) (clientWidth e)
    (onprop e) (listeners e) (_eventActions e).
Definition withAttachment (on : gmap string slot) (ls : list (string * listener))
    (ea : option jsobject) (e : element) : element :=
  Element (attributes e) (classList e) (props e) (scrollTop e) (scrollLeft e)
    (scrollHeight e) (scrollWidth e) (clientHeight e) (clientWidth e)
    on ls ea.

(** ** DOMTokenList *)
Definition classAdd (l : list string) (cls : string) : list string :=
  if bool_decide (cls ∈ l) then l else l ++ [cls].
Definition classRemove (l : list string) (cls : string) : list string :=
  filter (λ c, c ≠ cls) l.
Definition classToggle (l : list string) (cls : string) : list string :=
  if bool_decide (cls ∈ l) then classRemove l cls else l ++ [cls].

(** ** Scroll offsets

    The browser clamps an assigned offset to the scrollable range. *)
Definition clamp (hi v : Z) : Z := Z.max 0 (Z.min v hi).
Definition maxScrollTop (e : element) : Z := Z.max 0 (scrollHeight e - clientHeight e).
Definition maxScrollLeft (e : element) : Z := Z.max 0 (scrollWidth e - clientWidth e).
Definition setScrollTop (v : Z) (e : element) : element :=
  withScrollTop (clamp (scrollHeight e - clientHeight e) v) e.
Definition setScrollLeft (v : Z) (e : element) : element :=
  withScrollLeft (clamp (scrollWidth e - clientWidth e) v) e.

(** Everything about an element that scrolling reads or writes. *)
Definition geometry (e : element) : Z * Z * Z * Z * Z * Z :=
  (scrollTop e, scrollLeft e, scrollHeight e, scrollWidth e, clientHeight e,
   clientWidth e).

(** ** EventTarget *)
Definition addEventListener (eventType : string) (h : listener)
    (ls : list (string * listener)) : list (string * listener) :=
  if bool_decide ((eventType, h) ∈ ls) then ls else ls ++ [(eventType, h)].
Definition removeEventListener (eventType : string) (h : listener)
    (ls : list (string * listener)) : list (string * listener) :=
  filter (λ x, x ≠ (eventType, h)) ls.

(** ** The world: the page and what has been observed so far *)

Inductive stepName := First | Numbered (i : nat) | Last | Finally.

Inductive purpose := ForCondition | ForConditionAction | ForExecute.

Inductive event :=
| EWarn (message : string) (about : value)      (* console.warn *)
| EError (message : string) (about : value)     (* console.error *)
| EPreventDefault
| EStopPropagation
| EStep (name : stepName)     (* the listener calls executeAction for a step *)
| EEval (why : purpose) (code : string)         (* eval of attribute text *)
| ECall (why : purpose) (f : nat)               (* call of a function option *)
| EConfirm (message accept cancel : value)      (* confirmDialog *)
| EDelay (ms : jsnum)                           (* setTimeout *)
| EAcknowledge (message button : value)         (* messageDialog *)
| ESplashShow (content : value)                 (* splashDialog *)
| ESplashHide                                   (* splashDlg.modal.hide() *)
| ENative (h : nat).                            (* the inline handler is called *)

Record world := World {
  dom : gmap elem element;
  trace : list event;
  nextId : nat
}.

Definition log (e : event) (w : world) : world :=
  World (dom w) (trace w ++ [e]) (nextId w).
Definition setDom (d : gmap elem element) (w : world) : world :=
  World d (trace w) (nextId w).
Definition elementAt (w : world) (el : elem) : element :=
  default emptyElement (dom w !! el).
Definition onTargets (f : element → element) (targets : list elem) (w : world) : world :=
  setDom (foldl (λ d t, alter f t d) (dom w) targets) w.

(** ** The environment

    Everything the library calls but does not define.  Each function sees
    the world at the time of the call, trace included, and returns the
    page as it is when control comes back; results are:
    - [querySelectorAll]: the matches, or [None] for a selector that does
      not parse;
    - [evalScript]: the truthiness of what the attribute text evaluates to
      (after the call of that value when it is a function), or [None] when
      an exception is thrown;
    - [callFunction]: the same for a function given as an option;
    - [confirmDialog], [messageDialog]: whether the promise is fulfilled;
    - [splashDialog]: whether a dialog handle (not null) is returned;
    - [callNative]: whether the inline handler returns normally.
    Dialogs are assumed to be dismissed and delays to elapse. *)
Record Env := {
  parseFloat : string → jsnum;
  toStr : value → string;
  querySelectorAll : string → world → option (list elem);
  querySelectorAllIn : elem → string → world → option (list elem);
  evalScript : purpose → string → elem → list elem → world → gmap elem element * option bool;
  callFunction : purpose → nat → elem → list elem → world → gmap elem element * option bool;
  confirmDialog : value → value → value → world → gmap elem element * bool;
  messageDialog : value → value → world → gmap elem element * bool;
  sleep : jsnum → world → gmap elem element;
  splashDialog : value → world → bool;
  callNative : nat → elem → world → gmap elem element * bool
}.

(** [String(v)], the identity on strings. *)
Definition text (env : Env) (v : value) : string :=
  match v with VStr s => s | _ => toStr env v end.

(** [parseFloat(v)]; a number survives the round trip through its text. *)
Definition number (env : Env) (v : value) : jsnum :=
  match v with
  | VNum n => n
  | _ => parseFloat env (text env v)
  end.

(* ===================================================================== *)
(** * The option reader: [getElementOptions] *)
(* ===================================================================== *)

(** A schema is what [Object.keys(defaultOptions)] walks through: the
    option names in order, each with its default. *)
Definition schema := list (string * value).

(** The conversion of the text of a present attribute, chosen by the type
    of the default. *)
Definition coerce (env : Env) (dflt : value) (attributeValue : string) : value :=
  match typeOf dflt with
  | TBoolean => VBool (bool_decide (Js.toLowerCase attributeValue = "true"))
  | TNumber => VNum (parseFloat env attributeValue)
  | TOther => VStr attributeValue
  end.

Definition attributeName (prefix option : string) : string :=
  let prefixStr :=
    if bool_decide (prefix = "") then "" else Js.camelToSnakeCase prefix +:+ "-" in
  prefixStr +:+ Js.camelToSnakeCase option.

(** [el.dataset[attributeName] || el.getAttribute(`data-${attributeName}`)].
    [attributeName] has no capital letter, so whenever the [dataset] lookup
    finds something it is the attribute [data-<attributeName>] itself. *)
Definition attributeValue (el : element) (name : string) : option string :=
  attributes el !! ("data-" +:+ name).

Definition readOption (env : Env) (el : element) (prefix : string)
    (onlyExisting : bool) (options : gmap string value) (entry : string * value)
    : gmap string value :=
  match attributeValue el (attributeName prefix entry.1) with
  | Some v => <[entry.1 := coerce env entry.2 v]> options
  | None => if onlyExisting then options else <[entry.1 := entry.2]> options
  end.

Definition getElementOptions (env : Env) (el : element) (defaultOptions : schema)
    (prefix : string) (onlyExisting : bool) : gmap string value :=
  foldl (readOption env el prefix onlyExisting) ∅ defaultOptions.

(** [DEFAULT_OPTIONS_ACTION]. *)
Definition defaultActionOptions : schema :=
  [ ("condition", VNull); ("conditionAction", VNull);
    ("confirm", VNull); ("confirmAcceptText", VStr "OK");
    ("confirmCancelText", VStr "Cancel"); ("execute", VNull);
    ("target", VNull); ("targetChildren", VNull);
    ("classAdd", VNull); ("classRemove", VNull); ("classToggle", VNull);
    ("classSet", VNull); ("scrollTo", VNull);
    ("contentMethod", VStr "innerHTML"); ("contentSet", VNull);
    ("contentAppend", VNull); ("contentPrepend", VNull); ("contentClear", VNull);
    ("delay", VNum (JFin 0)); ("acknowledge", VNull);
    ("acknowledgeButton", VStr "OK"); ("splash", VNull) ].

(** [Object.assign({}, EventActions.defaultActionOptions, options || {})]. *)
Definition withDefaults (options : gmap string value) : gmap string value :=
  options ∪ list_to_map defaultActionOptions.

(** [options.name]; a missing property reads as [undefined], which every
    use below treats like null. *)
Definition opt (options : gmap string value) (name : string) : value :=
  default VNull (options !! name).

(* ===================================================================== *)
(** * One step: [executeAction] *)
(* ===================================================================== *)

(** What the promise returned by [executeAction] settles to. *)
Inductive retval := RTrue | RFalse | RUndefined.
Inductive outcome := Returns (r : retval) | Throws.

(** [if (r)] *)
Definition truthyRet (r : retval) : bool :=
  match r with RTrue => true | _ => false end.

(** Statements run on the world and either fall through to the next
    statement or leave the function. *)
Inductive flow (A : Type) := Next (a : A) | Stop (o : outcome).
Global Arguments Next {A} a.
Global Arguments Stop {A} o.

Definition action (A : Type) : Type := world → world * flow A.

Global Instance action_ret : MRet action := λ A a w, (w, Next a).
Global Instance action_bind : MBind action := λ A B k m w,
  match m w with
  | (w', Next a) => k a w'
  | (w', Stop o) => (w', Stop o)
  end.

Definition stop {A} (o : outcome) : action A := λ w, (w, Stop o).
Definition emit (e : event) : action unit := λ w, (log e w, Next tt).
(** A call into the environment. *)
Definition ask {A} (f : world → gmap elem element * A) : action A :=
  λ w, (setDom (f w).1 w, Next (f w).2).
Definition wait (f : world → gmap elem element) : action unit :=
  λ w, (setDom (f w) w, Next tt).
Definition update (f : world → world) : action unit := λ w, (f w, Next tt).

(** ** Target resolution (lines 50-76) *)

Definition selectInto (env : Env) (selector : value)
    (query : string → world → option (list elem)) (message : string)
    (targetElements : list elem) : action (list elem) :=
  if truthy selector then
    λ w, match query (text env selector) w with
         | Some found => (w, Next (targetElements ++ found))
         | None => (log (EWarn message selector) w, Next targetElements)
         end
  else mret targetElements.

Definition resolveTargets (env : Env) (el : elem) (options : gmap string value)
    : action (list elem) :=
  let targetSelector := sanitizeValue (orNull (opt options "target")) in
  let targetChildrenSelector := sanitizeValue (orNull (opt options "targetChildren")) in
  match targetSelector, targetChildrenSelector with
  | VNull, VNull => mret [el]
  | _, _ =>
      targetElements ← selectInto env targetSelector (querySelectorAll env)
                         "Error selecting elements with selector" [];
      selectInto env targetChildrenSelector (querySelectorAllIn env el)
        "Error selecting children with selector" targetElements
  end.

(** ** Conditions (lines 78-137) *)

(** [function () { return eval(v) }.bind(el)(targetElements)], followed by
    the call of the result when it is a function: the truthiness of the
    final result, [None] for an exception.  [eval] of a value that is not
    a string returns that value. *)
Definition evaluate (env : Env) (why : purpose) (v : value) (el : elem)
    (targetElements : list elem) : action (option bool) :=
  match v with
  | VStr code =>
      emit (EEval why code);; ask (evalScript env why code el targetElements)
  | VFun f =>
      emit (ECall why f);; ask (callFunction env why f el targetElements)
  | _ => mret (Some (truthy v))
  end.

Definition call (env : Env) (why : purpose) (f : nat) (el : elem)
    (targetElements : list elem) : action (option bool) :=
  emit (ECall why f);; ask (callFunction env why f el targetElements).

Definition checkCondition (env : Env) (el : elem) (options : gmap string value)
    (targetElements : list elem) : action unit :=
  let condition := sanitizeValue (orNull (opt options "condition")) in
  if truthy condition then
    match condition with
    | VFun f =>
        result ← call env ForCondition f el targetElements;
        match result with
        | None => stop Throws
        | Some false => stop (Returns RFalse)
        | Some true => stop (Returns RTrue)
        end
    | _ =>
        result ← evaluate env ForCondition condition el targetElements;
        match result with
        | Some true => mret tt
        | Some false => stop (Returns RFalse)
        | None =>
            emit (EError "Error evaluating condition" condition);;
            stop (Returns RFalse)
        end
    end
  else mret tt.

Definition checkConditionAction (env : Env) (el : elem)
    (options : gmap string value) (targetElements : list elem) : action unit :=
  let conditionAction := sanitizeValue (orNull (opt options "conditionAction")) in
  if truthy conditionAction then
    match conditionAction with
    | VFun f =>
        result ← call env ForConditionAction f el targetElements;
        match result with
        | None => stop Throws
        | Some false => stop (Returns RTrue)
        | Some true => mret tt
        end
    | _ => mret tt
    end;;
    result ← evaluate env ForConditionAction conditionAction el targetElements;
    match result with
    | Some true => mret tt
    | Some false => stop (Returns RTrue)
    | None =>
        emit (EError "Error evaluating action condition" conditionAction);;
        stop (Returns RTrue)
    end
  else mret tt.

(** ** Confirmation (lines 139-149) *)

Definition askConfirmation (env : Env) (options : gmap string value) : action unit :=
  let confirmMessage := sanitizeValue (orNull (opt options "confirm")) in
  if truthy confirmMessage then
    let confirmAcceptText := sanitizeValue (orStr (opt options "confirmAcceptText") "OK") in
    let confirmCancelText := sanitizeValue (orStr (opt options "confirmCancelText") "Cancel") in
    emit (EConfirm confirmMessage confirmAcceptText confirmCancelText);;
    accepted ← ask (confirmDialog env confirmMessage confirmAcceptText confirmCancelText);
    if accepted : bool then mret tt else stop (Returns RFalse)
  else mret tt.

(** ** Custom action (lines 151-169) *)

Definition runExecute (env : Env) (el : elem) (options : gmap string value)
    (targetElements : list elem) : action unit :=
  let execute := sanitizeValue (orNull (opt options "execute")) in
  if truthy execute then
    match execute with
    | VFun f =>
        result ← call env ForExecute f el targetElements;
        match result with
        | None => stop Throws
        | Some _ => mret tt
        end
    | _ =>
        result ← evaluate env ForExecute execute el targetElements;
        match result with
        | None => emit (EError "Error executing action" execute)
        | Some _ => mret tt
        end
    end
  else mret tt.

(** Everything [executeAction] does before it looks at the class lists. *)
Definition preamble (env : Env) (el : elem) (options : gmap string value)
    : action (list elem) :=
  targetElements ← resolveTargets env el options;
  checkCondition env el options targetElements;;
  checkConditionAction env el options targetElements;;
  askConfirmation env options;;
  runExecute env el options targetElements;;
  mret targetElements.

(** ** Class mutation (lines 171-225) *)

(** [classes ? classes.split(/\s+/).filter(cls => cls.trim() !== '') : []];
    [None] stands for the TypeError raised when a truthy value that is not
    a string has no [split]. *)
Definition classTokens (classes : value) : option (list string) :=
  if truthy classes then
    match classes with
    | VStr s => Some (Js.tokens s)
    | _ => None
    end
  else Some [].

Record classRequest := ClassRequest {
  classListAdd : list string;
  classListRemove : list string;
  classListToggle : list string;
  classListSet : list string
}.

Definition readClassRequest (options : gmap string value) : option classRequest :=
  add ← classTokens (sanitizeValue (orNull (opt options "classAdd")));
  remove ← classTokens (sanitizeValue (orNull (opt options "classRemove")));
  toggle ← classTokens (sanitizeValue (orNull (opt options "classToggle")));
  set ← classTokens (sanitizeValue (orNull (opt options "classSet")));
  Some (ClassRequest add remove toggle set).

(** [a.filter(cls => b.includes(cls))] *)
Definition intersection (a b : list string) : list string :=
  filter (λ cls, cls ∈ b) a.

Definition classesIntersect (r : classRequest) : bool :=
  bool_decide (0 < length (intersection (classListAdd r) (classListRemove r)))%nat
  || bool_decide (0 < length (intersection (classListAdd r) (classListToggle r)))%nat
  || bool_decide (0 < length (intersection (classListRemove r) (classListToggle r)))%nat.

(** The body of the loop of [applyClasses], for one target. *)
Definition applyClassesTo (r : classRequest) (targetElement : element) : element :=
  if bool_decide (0 < length (classListSet r))%nat then
    withClassList (foldl classAdd [] (classListSet r)) targetElement
  else
    withClassList
      (foldl classRemove
         (foldl classAdd
            (foldl classToggle (classList targetElement) (classListToggle r))
            (classListAdd r))
         (classListRemove r))
      targetElement.

(** ** Content mutation (lines 227-252) *)

Definition validContentMethod (contentMethod : value) : option string :=
  match contentMethod with
  | VStr m => if Js.includes ["innerHTML"; "textContent"] m then Some m else None
  | _ => None
  end.

Record contentRequest := ContentRequest {
  contentMethod : string;
  contentClear : bool;
  contentSet : value;
  contentAppend : value;
  contentPrepend : value
}.

Definition readContentClear (v : option value) : bool :=
  match v with
  | Some (VBool true) => true
  | Some (VStr s) => bool_decide (s = "true") || bool_decide (s = "")
  | _ => false
  end.

Definition readContentRequest (options : gmap string value) (method : string)
    : contentRequest :=
  ContentRequest method
    (readContentClear (options !! "contentClear"))
    (sanitizeValue (orNull (opt options "contentSet")))
    (sanitizeValue (orNull (opt options "contentAppend")))
    (sanitizeValue (orNull (opt options "contentPrepend"))).

Definition getProp (name : string) (e : element) : string :=
  default "" (props e !! name).
Definition setProp (name v : string) (e : element) : element :=
  withProps (<[name := v]> (props e)) e.

(** The body of the loop of [applyContentChanges], for one target. *)
Definition applyContentTo (env : Env) (r : contentRequest) (targetElement : element)
    : element :=
  let m := contentMethod r in
  let e1 := if contentClear r then setProp m "" targetElement else targetElement in
  let e2 := if truthy (contentSet r) then setProp m (text env (contentSet r)) e1 else e1 in
  let e3 := if truthy (contentAppend r)
            then setProp m (getProp m e2 +:+ text env (contentAppend r)) e2 else e2 in
  if truthy (contentPrepend r)
  then setProp m (text env (contentPrepend r) +:+ getProp m e3) e3 else e3.

(** ** Scrolling (lines 254-282) *)

Inductive edge := Top | Bottom | Left | Right.

Definition scrollKeyword (scrollTo : value) : option edge :=
  match scrollTo with
  | VStr s =>
      if bool_decide (s = "top") then Some Top
      else if bool_decide (s = "bottom") then Some Bottom
      else if bool_decide (s = "left") then Some Left
      else if bool_decide (s = "right") then Some Right
      else None
  | _ => None
  end.

(** The [switch] of [applyScroll]. *)
Definition scrollElement (scrollTo : edge) (targetElement : element) : element :=
  match scrollTo with
  | Top => setScrollTop 0 targetElement
  | Bottom => setScrollTop (scrollHeight targetElement) targetElement
  | Left => setScrollLeft 0 targetElement
  | Right => setScrollLeft (scrollWidth targetElement) targetElement
  end.

(** The loop of [applyScroll] leaves at the end of its first iteration. *)
Definition applyScroll (scrollTo : option edge) (targetElements : list elem)
    (w : world) : world :=
  match scrollTo, targetElements with
  | Some k, targetElement :: _ => onTargets (scrollElement k) [targetElement] w
  | _, _ => w
  end.

(** ** The built-in effects (lines 171-299) *)

(** The three mutations, in the order of lines 289-291. *)
Definition mutate (env : Env) (classes : classRequest) (content : contentRequest)
    (scrollTo : option edge) (targetElements : list elem) (w : world) : world :=
  applyScroll scrollTo targetElements
    (onTargets (applyContentTo env content) targetElements
       (onTargets (applyClassesTo classes) targetElements w)).

Definition readClasses (options : gmap string value) : action classRequest :=
  match readClassRequest options with
  | None => stop Throws
  | Some classes =>
      if classesIntersect classes then
        emit (EWarn "Cannot set, unset or toggle the same class at the same time" VNull);;
        stop (Returns RFalse)
      else mret classes
  end.

Definition readContent (options : gmap string value) : action contentRequest :=
  let contentMethod := sanitizeValue (orStr (opt options "contentMethod") "innerHTML") in
  match validContentMethod contentMethod with
  | None =>
      emit (EWarn "Invalid content method" contentMethod);;
      stop (Returns RUndefined)
  | Some method => mret (readContentRequest options method)
  end.

(** An unknown keyword is reported, and the assignment [scrollTo = null]
    that follows raises a TypeError, [scrollTo] being a [const]. *)
Definition readScroll (options : gmap string value) : action (option edge) :=
  let scrollTo := sanitizeValue (orNull (opt options "scrollTo")) in
  if truthy scrollTo then
    match scrollKeyword scrollTo with
    | Some k => mret (Some k)
    | None => emit (EWarn "Invalid scroll-to value" scrollTo);; stop Throws
    end
  else mret None.

Definition pause (env : Env) (options : gmap string value) : action unit :=
  let parsed := number env (opt options "delay") in
  let delay := if truthy (VNum parsed) then parsed else JFin 0 in
  if gtZero delay && negb (isNaN delay)
  then emit (EDelay delay);; wait (sleep env delay)
  else mret tt.

Definition acknowledge (env : Env) (options : gmap string value) : action unit :=
  let acknowledgeMessage := sanitizeValue (orNull (opt options "acknowledge")) in
  let acknowledgeButton := sanitizeValue (orStr (opt options "acknowledgeButton") "OK") in
  if truthy acknowledgeMessage then
    emit (EAcknowledge acknowledgeMessage acknowledgeButton);;
    fulfilled ← ask (messageDialog env acknowledgeMessage acknowledgeButton);
    if fulfilled : bool then mret tt else stop Throws
  else mret tt.

Definition effects (env : Env) (options : gmap string value)
    (targetElements : list elem) : action retval :=
  classes ← readClasses options;
  content ← readContent options;
  scrollTo ← readScroll options;
  pause env options;;
  update (mutate env classes content scrollTo targetElements);;
  acknowledge env options;;
  mret RTrue.

Definition settle (r : world * flow retval) : world * outcome :=
  match r with
  | (w, Next v) => (w, Returns v)
  | (w, Stop o) => (w, o)
  end.

Definition executeAction (env : Env) (el : elem) (actionOptions : gmap string value)
    (w : world) : world * outcome :=
  let actionOptions := withDefaults actionOptions in
  settle ((targetElements ← preamble env el actionOptions;
           effects env actionOptions targetElements) w).

(** The world in which the mutations of a step run: the one its wait
    (if any) ends in. *)
Definition afterPause (env : Env) (options : gmap string value) (w : world) : world :=
  (pause env options w).1.

(** The content request of a step whose method has been validated. *)
Definition contentOf (options : gmap string value) (method : string) : contentRequest :=
  readContentRequest options method.

(* ===================================================================== *)
(** * Attaching and detaching: [addEventActions], [removeEventActions] *)
(* ===================================================================== *)

(** [`on${eventType}`] *)
Definition onName (eventType : string) : string := "on" +:+ eventType.

(** [el._eventActions && el._eventActions[eventType]] *)
Definition alreadyAvailable (e : element) (eventType : string) : bool :=
  match _eventActions e with
  | Some ea => truthySlot (objRead eventType ea)
  | None => false
  end.

(** [el[`on${eventType}`] || null] *)
Definition inlineHandler (e : element) (eventType : string) : slot :=
  let inline := default SNull (onprop e !! onName eventType) in
  if truthySlot inline then inline else SNull.

(** [addEventActions(el, eventType, prefix)], with [addHandler] unfolded.
    An element that is not on the page stands for a null [el]. *)
Definition addEventActions (el : elem) (eventType prefix : string) (w : world) : world :=
  match dom w !! el with
  | None => w
  | Some e =>
      if alreadyAvailable e eventType then w
      else
        let ea := default [] (_eventActions e) in
        let ea := objSet eventType (inlineHandler e eventType) ea in
        let on := <[onName eventType := SNull]> (onprop e) in
        let handler := Listener (nextId w) el eventType prefix in
        let ls := addEventListener eventType handler (listeners e) in
        let handlers :=
          if truthySlot (objRead "handlers" ea) then objRead "handlers" ea
          else STable ∅ in
        let handlers :=
          match handlers with
          | STable t => STable (<[eventType := handler]> t)
          | other => other
          end in
        let ea := objSet "handlers" handlers ea in
        World (<[el := withAttachment on ls (Some ea) e]> (dom w)) (trace w)
          (S (nextId w))
  end.

(** The body of [removeEventActions] for a given event type
    (lines 321-340). *)
Definition removeTyped (el : elem) (eventType : string) (w : world) : world :=
  match dom w !! el with
  | None => w
  | Some e =>
      match _eventActions e with
      | None => w
      | Some ea =>
          if negb (truthySlot (objRead eventType ea)) then w
          else
            let '(ls, ea) :=
              match objRead "handlers" ea with
              | STable t =>
                  match t !! eventType with
                  | Some handler =>
                      (removeEventListener eventType handler (listeners e),
                       objSet "handlers" (STable (delete eventType t)) ea)
                  | None => (listeners e, ea)
                  end
              | _ => (listeners e, ea)
              end in
            let '(on, ea) :=
              if truthySlot (objRead eventType ea)
              then (<[onName eventType := objRead eventType ea]> (onprop e),
                    objDelete eventType ea)
              else (<[onName eventType := SNull]> (onprop e), ea) in
            let bookkeeping :=
              match objRead "handlers" ea with
              | SNull => Some ea
              | STable t => if bool_decide (size t = 0%nat) then None else Some ea
              | SFun _ => None
              end in
            setDom (<[el := withAttachment on ls bookkeeping e]> (dom w)) w
      end
  end.

Definition hasBookkeeping (w : world) (el : elem) : bool :=
  match dom w !! el with
  | Some e => bool_decide (is_Some (_eventActions e))
  | None => false
  end.

(** The loop [for (const type in el._eventActions)] of lines 314-319.  A
    key that is the empty string sends [removeEventActions] back into this
    loop without end while the bookkeeping exists: [None] stands for the
    call that does not return. *)
Fixpoint removeEach (el : elem) (types : list string) (w : world) : option world :=
  match types with
  | [] => Some w
  | type :: types' =>
      if bool_decide (type = "") then
        if hasBookkeeping w el then None else removeEach el types' w
      else removeEach el types' (removeTyped el type w)
  end.

(** [removeEventActions(el, eventType)]; an [eventType] that is null or
    left out is as falsy as the empty string, which stands for it. *)
Definition removeEventActions (el : elem) (eventType : string) (w : world)
    : option world :=
  match dom w !! el with
  | None => Some w
  | Some e =>
      match _eventActions e with
      | None => Some w
      | Some ea =>
          if bool_decide (eventType = "") then removeEach el (objKeys ea) w
          else Some (removeTyped el eventType w)
      end
  end.

(** The shortcuts of the [EventActions] object (lines 484-488). *)
Definition addClickActions (el : elem) (w : world) : world :=
  addEventActions el "click" "ca" w.
Definition addScrollActions (el : elem) (w : world) : world :=
  addEventActions el "scroll" "sa" w.
Definition removeClickActions (el : elem) (w : world) : option world :=
  removeEventActions el "click" w.
Definition removeScrollActions (el : elem) (w : world) : option world :=
  removeEventActions el "scroll" w.

(* ===================================================================== *)
(** * The sequence: the listener built by [actionHandler] *)
(* ===================================================================== *)

(** The local variables of the listener. *)
Record hstate := HState {
  hworld : world;
  splashDlg : bool;          (* is [splashDlg] a dialog handle? *)
  conditionMet : retval
}.

Inductive progress :=
| Continue (st : hstate)
| Crash (w : world)          (* an exception leaves the listener *)
| OutOfFuel (w : world).       (* the model ran out of fuel *)

Definition andThen (p : progress) (k : hstate → progress) : progress :=
  match p with
  | Continue st => k st
  | other => other
  end.

Definition hideSplash (st : hstate) : hstate :=
  if splashDlg st
  then HState (log ESplashHide (hworld st)) false (conditionMet st)
  else st.

Definition showSplash (env : Env) (content : value) (st : hstate) : hstate :=
  let st := hideSplash st in
  let w := log (ESplashShow content) (hworld st) in
  HState w (splashDialog env content w) (conditionMet st).

Definition showSplashIf (env : Env) (options : gmap string value) (st : hstate)
    : hstate :=
  if truthyRet (conditionMet st) && truthy (opt options "splash")
  then showSplash env (opt options "splash") st
  else st.

(** [getElementOptions(el, EventActions.defaultActionOptions, name, true)] *)
Definition stepOptions (env : Env) (el : elem) (name : string) (w : world)
    : gmap string value :=
  getElementOptions env (elementAt w el) defaultActionOptions name true.

(** [options && Object.keys(options).length > 0] *)
Definition present (options : gmap string value) : bool :=
  bool_decide (0 < size options)%nat.

(** [options.splash === null || options.splash === "" ||
     options.splash === 'false' || options.splash === '0' ||
     options.splash === false], read before the defaults are merged in. *)
Definition clearsSplash (splash : option value) : bool :=
  match splash with
  | Some VNull => true
  | Some (VBool b) => negb b
  | Some (VStr s) =>
      bool_decide (s = "") || bool_decide (s = "false") || bool_decide (s = "0")
  | _ => false
  end.

(** [options.splash === null] *)
Definition splashIsNull (options : gmap string value) : bool :=
  match options !! "splash" with
  | Some VNull => true
  | _ => false
  end.

(** Lines 369-382. *)
Definition firstStep (env : Env) (el : elem) (prefix : string) (st : hstate)
    : progress :=
  let options := stepOptions env el prefix (hworld st) in
  if present options then
    let options := withDefaults options in
    match executeAction env el options (log (EStep First) (hworld st)) with
    | (w, Throws) => Crash w
    | (w, Returns r) => Continue (showSplashIf env options (HState w (splashDlg st) r))
    end
  else Continue st.

(** Lines 384-409: [while (conditionMet)], from index [i]. *)
Fixpoint numberedSteps (env : Env) (el : elem) (prefix : string) (fuel : nat)
    (i : nat) (st : hstate) : progress :=
  if truthyRet (conditionMet st) then
    let options := stepOptions env el (prefix +:+ "-" +:+ pretty i) (hworld st) in
    if present options then
      match fuel with
      | O => OutOfFuel (hworld st)
      | S fuel' =>
          let clearSplash := clearsSplash (options !! "splash") in
          let options := withDefaults options in
          match executeAction env el options (log (EStep (Numbered i)) (hworld st)) with
          | (w, Throws) => Crash w
          | (w, Returns r) =>
              let st := HState w (splashDlg st) r in
              let st := if clearSplash then hideSplash st else st in
              numberedSteps env el prefix fuel' (S i) (showSplashIf env options st)
          end
      end
    else Continue st
  else Continue st.

(** Lines 413-431 and 435-453: the [last] and [finally] steps, whose
    result is not assigned to [conditionMet]. *)
Definition closingStep (env : Env) (el : elem) (prefix : string) (name : stepName)
    (suffix : string) (st : hstate) : progress :=
  let options := stepOptions env el (prefix +:+ suffix) (hworld st) in
  if present options then
    let options := withDefaults options in
    match executeAction env el options (log (EStep name) (hworld st)) with
    | (w, Throws) => Crash w
    | (w, Returns _) =>
        let st := HState w (splashDlg st) (conditionMet st) in
        let st := if splashIsNull options then hideSplash st else st in
        Continue (showSplashIf env options st)
    end
  else Continue st.

(** Lines 457-462. *)
Definition replayNative (env : Env) (el : elem) (eventType : string) (st : hstate)
    : progress :=
  match _eventActions (elementAt (hworld st) el) with
  | None => Continue st
  | Some ea =>
      match objRead eventType ea with
      | SNull => Continue st
      | SFun h =>
          let w := log (ENative h) (hworld st) in
          match callNative env h el w with
          | (d, true) => Continue (HState (setDom d w) (splashDlg st) (conditionMet st))
          | (d, false) => Crash (setDom d w)
          end
      | STable _ => Crash (hworld st)
      end
  end.

(** Lines 455-467: the inline handler is called if no gate has closed,
    and the splash dialog is hidden. *)
Definition fromReplay (env : Env) (el : elem) (eventType prefix : string)
    (st : hstate) : progress :=
  andThen (if truthyRet (conditionMet st)
           then replayNative env el eventType st
           else Continue st) (λ st,
  Continue (hideSplash st)).

(** Lines 434-467: the [finally] step and what follows. *)
Definition fromFinally (env : Env) (el : elem) (eventType prefix : string)
    (st : hstate) : progress :=
  andThen (closingStep env el prefix Finally "-finally" st)
    (fromReplay env el eventType prefix).

(** Lines 412-467, inside [if (conditionMet)]: the [last] step and what
    follows. *)
Definition fromLast (env : Env) (el : elem) (eventType prefix : string)
    (st : hstate) : progress :=
  andThen (closingStep env el prefix Last "-last" st)
    (fromFinally env el eventType prefix).

(** Lines 411-467: what follows the loop. *)
Definition epilogue (env : Env) (el : elem) (eventType prefix : string)
    (st : hstate) : progress :=
  if truthyRet (conditionMet st)
  then fromLast env el eventType prefix st
  else fromFinally env el eventType prefix st.

(** The run of the listener from the point where it looks for step [i]. *)
Definition fromNumbered (env : Env) (el : elem) (eventType prefix : string)
    (fuel i : nat) (st : hstate) : progress :=
  andThen (numberedSteps env el prefix fuel i st) (epilogue env el eventType prefix).

(** The run of the listener from the point where it looks for the first
    step. *)
Definition fromFirst (env : Env) (el : elem) (eventType prefix : string)
    (fuel : nat) (st : hstate) : progress :=
  andThen (firstStep env el prefix st) (fromNumbered env el eventType prefix fuel 1).

(** The listener, called with an event. *)
Definition actionHandler (env : Env) (fuel : nat) (handler : listener) (w : world)
    : progress :=
  let w := log EStopPropagation (log EPreventDefault w) in
  fromFirst env (l_el handler) (l_eventType handler) (l_prefix handler) fuel
    (HState w false RTrue).

Global Arguments stepOptions : simpl never.
Global Arguments withDefaults : simpl never.
Global Arguments getElementOptions : simpl never.
Global Arguments executeAction : simpl never.
Global Arguments closingStep : simpl never.
Global Arguments firstStep : simpl never.

(** ** Runs of the listener, for the statements below *)

Definition finalWorld (p : progress) : world :=
  match p with
  | Continue st => hworld st
  | Crash w => w
  | OutOfFuel w => w
  end.

Definition timedOut (p : progress) : bool :=
  match p with OutOfFuel _ => true | _ => false end.

(** The places of a step in a sequence. *)
Inductive position := AtFirst | AtNumbered (i : nat) | AtLast | AtFinally.

Definition stepOf (pos : position) : stepName :=
  match pos with
  | AtFirst => First
  | AtNumbered i => Numbered i
  | AtLast => Last
  | AtFinally => Finally
  end.

(** The name under which the attributes of the step are looked up. *)
Definition nameAt (prefix : string) (pos : position) : string :=
  match pos with
  | AtFirst => prefix
  | AtNumbered i => prefix +:+ "-" +:+ pretty i
  | AtLast => prefix +:+ "-last"
  | AtFinally => prefix +:+ "-finally"
  end.

(** The steps whose result the listener assigns to [conditionMet]: the
    first step and the numbered steps. *)
Definition keepsResult (pos : position) : bool :=
  match pos with
  | AtFirst | AtNumbered _ => true
  | AtLast | AtFinally => false
  end.

(** The listener is about to look for the step at [pos]: always true of
    the first step and of the [finally] step; for a numbered step and for
    the [last] step, no gate has closed. *)
Definition reached (pos : position) (st : hstate) : Prop :=
  match pos with
  | AtFirst | AtFinally => True
  | AtNumbered _ | AtLast => truthyRet (conditionMet st) = true
  end.

(** The run of the listener from the point where it looks for the step at
    [pos]. *)
Definition resume (env : Env) (el : elem) (eventType prefix : string) (fuel : nat)
    (pos : position) (st : hstate) : progress :=
  match pos with
  | AtFirst => fromFirst env el eventType prefix fuel st
  | AtNumbered i => fromNumbered env el eventType prefix fuel i st
  | AtLast => fromLast env el eventType prefix st
  | AtFinally => fromFinally env el eventType prefix st
  end.


Definition presentAt (env : Env) (el : elem) (prefix : string) (pos : position)
    (st : hstate) : bool :=
  present (stepOptions env el (nameAt prefix pos) (hworld st)).

(** The option record the step at [pos] is run with, and the world in
    which [executeAction] is called for it. *)
Definition optionsAt (env : Env) (el : elem) (prefix : string) (pos : position)
    (st : hstate) : gmap string value :=
  withDefaults (stepOptions env el (nameAt prefix pos) (hworld st)).
Definition startOf (pos : position) (st : hstate) : world :=
  log (EStep (stepOf pos)) (hworld st).

(** The local variables of the listener after the step at [pos] has
    returned [r] in the world [w]. *)
Definition afterStep (env : Env) (el : elem) (prefix : string) (pos : position)
    (st : hstate) (w : world) (r : retval) : hstate :=
  let options := stepOptions env el (nameAt prefix pos) (hworld st) in
  let st' := HState w (splashDlg st) (if keepsResult pos then r else conditionMet st) in
  let clearSplash :=
    match pos with
    | AtFirst => false
    | AtNumbered _ => clearsSplash (options !! "splash")
    | AtLast | AtFinally => splashIsNull (withDefaults options)
    end in
  showSplashIf env (withDefaults options) (if clearSplash then hideSplash st' else st').


(** Events a step logs itself. *)
Definition quiet (e : event) : Prop :=
  match e with
  | EWarn _ _ | EError _ _ | EEval _ _ | ECall _ _ | EConfirm _ _ _ | EDelay _
  | EAcknowledge _ _ => True
  | _ => False
  end.


Definition splashEvent (e : event) : Prop :=
  match e with
  | ESplashShow _ | ESplashHide => True
  | _ => False
  end.





(** An action only appends to the trace, and only events a step logs
    itself. *)
Definition appends {A} (m : action A) : Prop :=
  ∀ w, ∃ tr, trace (m w).1 = trace w ++ tr ∧ Forall quiet tr.



(** Events that mean a numbered step is run. *)
Definition numberedStep (e : event) : Prop :=
  match e with
  | EStep (Numbered _) => True
  | _ => False
  end.

(** The element carries an attribute of the step read under [name]. *)
Definition hasStepAttribute (e : element) (name : string) : Prop :=
  ∃ key, key ∈ defaultActionOptions.*1
         ∧ is_Some (attributes e !! ("data-" +:+ attributeName name key)).


(** An element without its class list: everything a class mutation
    leaves alone. *)
Definition exceptClasses (e : element) : element := withClassList [] e.

(** An attribute text that is neither null nor empty: what [if (text)]
    and [text || dflt] let through. *)
Definition given (attribute : option string) : option string :=
  match attribute with
  | Some s => if bool_decide (s = "") then None else Some s
  | None => None
  end.

(** What the library reads of an element to find its steps and its inline
    handler: the [data-] attributes, the [on...] properties, the
    registered listeners and the bookkeeping. *)
Definition sameWiring (e e' : element) : Prop :=
  (∀ name, attributeValue e' name = attributeValue e name)
  ∧ onprop e' = onprop e
  ∧ listeners e' = listeners e
  ∧ _eventActions e' = _eventActions e.

Global Instance sameWiring_refl : Reflexive sameWiring.
Proof. by intros e. Qed.

Global Instance sameWiring_trans : Transitive sameWiring.
Proof.
  intros a b c (Ha & Ho & Hl & He) (Ha' & Ho' & Hl' & He').
  split; [intros name; by rewrite Ha', Ha|]. repeat split; congruence.
Qed.

(** A call into the environment leaves the element [x] as it is, up to
    [R]. *)
Definition keeps (R : relation element) (x : elem)
    (f : world → gmap elem element) : Prop :=
  ∀ w, R (elementAt w x) (elementAt (setDom (f w) w) x).

(** The scripts, the dialogs, the timers and the inline handlers do so. *)
Record tame (R : relation element) (env : Env) (x : elem) : Prop := Tame {
  tame_evalScript why code el targetElements :
    keeps R x (λ w, (evalScript env why code el targetElements w).1);
  tame_callFunction why f el targetElements :
    keeps R x (λ w, (callFunction env why f el targetElements w).1);
  tame_confirmDialog message accept cancel :
    keeps R x (λ w, (confirmDialog env message accept cancel w).1);
  tame_messageDialog message button :
    keeps R x (λ w, (messageDialog env message button w).1);
  tame_sleep ms : keeps R x (sleep env ms);
  tame_callNative h el : keeps R x (λ w, (callNative env h el w).1)
}.

(** An action leaves the element [x] as it is, up to [R]. *)
Definition steady {A} (R : relation element) (x : elem) (m : action A) : Prop :=
  ∀ w, R (elementAt w x) (elementAt (m w).1 x).

(** How many times [x] occurs in a target list. *)
Definition occurrences (x : elem) (targetElements : list elem) : nat :=
  length (filter (λ t, t = x) targetElements).

(* ===================================================================== *)
(** * The [data-class-*] script: delay parsing (lines 103-126, 200-204) *)
(* ===================================================================== *)

Module DataClass.

(** The delay in milliseconds and the warning logged, if any, for the
    value of [data-class-delay<suffix>]. *)
Definition parseDelay (env : Env) (attribute : option string)
    : jsnum * option event :=
  match attribute with
  | None => (JFin 0, None)
  | Some raw =>
      let delay := Js.trim raw in
      let '(multiplier, delay) :=
        if Js.endsWith delay "s" then (1000%positive, Js.trim (Js.dropLast 1 delay))
        else if Js.endsWith delay "ms" then (1%positive, Js.trim (Js.dropLast 2 delay))
        else (1%positive, Js.trim delay) in
      let delay := times multiplier (parseFloat env delay) in
      if isNaN delay || ltZero delay
      then (JFin 0, Some (EWarn "Invalid delay value" (VStr raw)))
      else (delay, None)
  end.

(** [if (delay > 0) setTimeout(applyClasses, delay) else applyClasses()] *)
Inductive schedule := After (ms : jsnum) | AtOnce.

Definition scheduleFor (delay : jsnum) : schedule :=
  if gtZero delay then After delay else AtOnce.

Definition waits (env : Env) (attribute : option string) : schedule :=
  scheduleFor (parseDelay env attribute).1.

(** ** The listener of the script (lines 50-206) *)

(** A call [setTimeout(applyClasses, delay)] that has not fired yet: the
    closure keeps the targets and the class lists of its step. *)
Record timer := Timer {
  t_delay : jsnum;
  t_targets : list elem;
  t_classes : classRequest
}.

(** The page and the timers set so far, oldest first. *)
Record state := State {
  now : world;
  timers : list timer
}.

(** The loop either goes to the next index ([continue], or the end of the
    body) or is left ([hasPendingWork = false], or [return]). *)
Inductive next := Again (s : state) | Finished (s : state).

Definition stateOf (n : next) : state :=
  match n with
  | Again s => s
  | Finished s => s
  end.

(** [`-${index}`] from the second step on. *)
Definition suffixOf (index : nat) : string :=
  if bool_decide (index = 0%nat) then "" else "-" +:+ pretty index.

(** [this.getAttribute(name + suffix)] *)
Definition getAttribute (w : world) (el : elem) (name suffix : string)
    : option string :=
  attributes (elementAt w el) !! (name +:+ suffix).

(** [classNames ? classNames.split(/\s+/).filter(cls => cls.trim() !== '') : []] *)
Definition classesOf (attribute : option string) : list string :=
  match given attribute with
  | Some s => Js.tokens s
  | None => []
  end.

(** [value === null] *)
Definition isNull (attribute : option string) : bool :=
  match attribute with None => true | Some _ => false end.

(** The closure [applyClasses] (lines 179-199): its loop has the body of
    the one of [executeAction]. *)
Definition applyClasses (classes : classRequest) (targetElements : list elem)
    (w : world) : world :=
  onTargets (applyClassesTo classes) targetElements w.

(** A timer fires. *)
Definition fire (t : timer) (w : world) : world :=
  applyClasses (t_classes t) (t_targets t) w.

Section Listener.

(** [evalCondition code el w]: the truthiness of what the text of a
    [data-class-condition] attribute evaluates to with [this] bound to the
    element (after the call of that value on the element when it is a
    function), or [None] when an exception is thrown, and the page as the
    script leaves it. *)
Context (env : Env)
        (evalCondition : string → elem → world → gmap elem element * option bool).

(** Lines 61-79. *)
Definition conditionHolds (el : elem) (suffix : string) (w : world) : world * bool :=
  match given (getAttribute w el "data-class-condition" suffix) with
  | Some condition =>
      let w := log (EEval ForCondition condition) w in
      match evalCondition condition el w with
      | (d, Some result) => (setDom d w, result)
      | (d, None) =>
          (log (EError "Error evaluating condition" (VStr condition)) (setDom d w),
           false)
      end
  | None => (w, true)
  end.

(** Lines 133-149, for one of the two selectors. *)
Definition selectWith (selector : option string)
    (query : string → world → option (list elem)) (message : string) (w : world)
    : world * list elem :=
  match given selector with
  | Some s =>
      match query s w with
      | Some found => (w, found)
      | None => (log (EWarn message (VStr s)) w, [])
      end
  | None => (w, [])
  end.

(** Lines 128-150. *)
Definition targetsOf (el : elem) (targetSelector targetSelectorChildren : option string)
    (w : world) : world * list elem :=
  match targetSelector, targetSelectorChildren with
  | None, None => (w, [el])
  | _, _ =>
      let '(w, found) :=
        selectWith targetSelector (querySelectorAll env)
          "Error selecting elements with selector" w in
      let '(w, children) :=
        selectWith targetSelectorChildren (querySelectorAllIn env el)
          "Error selecting children with selector" w in
      (w, found ++ children)
  end.

(** One turn of the loop [while (hasPendingWork)], for the step [index]. *)
Definition turn (el : elem) (index : nat) (s : state) : next :=
  let suffix := suffixOf index in
  let '(w, holds) := conditionHolds el suffix (now s) in
  if negb holds then Again (State w (timers s))
  else
    let targetSelector := getAttribute w el "data-class-target" suffix in
    let targetSelectorChildren := getAttribute w el "data-class-target-children" suffix in
    let classNamesAdd := getAttribute w el "data-class-add" suffix in
    let classNamesSet := getAttribute w el "data-class-set" suffix in
    let classNamesRemove := getAttribute w el "data-class-remove" suffix in
    let classNamesToggle := getAttribute w el "data-class-toggle" suffix in
    if isNull classNamesAdd && isNull classNamesRemove && isNull classNamesToggle
       && isNull classNamesSet
    then Finished (State w (timers s))
    else if negb (isNull classNamesSet)
            && (negb (isNull classNamesAdd) || negb (isNull classNamesRemove)
                || negb (isNull classNamesToggle))
    then
      Again
        (State (log (EWarn "Cannot set classes and add/remove/toggle classes at the same time"
                       VNull) w)
           (timers s))
    else
      let '(delay, warning) :=
        parseDelay env (getAttribute w el "data-class-delay" suffix) in
      let w := match warning with Some e => log e w | None => w end in
      let '(w, targetElements) :=
        targetsOf el targetSelector targetSelectorChildren w in
      if bool_decide (length targetElements = 0%nat) then Finished (State w (timers s))
      else
        let classes :=
          ClassRequest (classesOf classNamesAdd) (classesOf classNamesRemove)
            (classesOf classNamesToggle) (classesOf classNamesSet) in
        if bool_decide (length (classListAdd classes) = 0%nat)
           && bool_decide (length (classListRemove classes) = 0%nat)
           && bool_decide (length (classListToggle classes) = 0%nat)
           && bool_decide (length (classListSet classes) = 0%nat)
        then Finished (State w (timers s))
        else if classesIntersect classes then
          Finished
            (State (log (EWarn "Cannot set, unset or toggle the same class at the same time"
                           VNull) w)
               (timers s))
        else
          match scheduleFor delay with
          | After ms => Again (State w (timers s ++ [Timer ms targetElements classes]))
          | AtOnce => Again (State (applyClasses classes targetElements w) (timers s))
          end.

(** The loop from the step [index]; [None] when the fuel runs out. *)
Fixpoint turns (el : elem) (fuel index : nat) (s : state) : option state :=
  match fuel with
  | O => None
  | S fuel' =>
      match turn el index s with
      | Again s' => turns el fuel' (S index) s'
      | Finished s' => Some s'
      end
  end.

(** The listener registered on [el], called with an event. *)
Definition onEvent (el : elem) (fuel : nat) (s : state) : option state :=
  turns el fuel 0 s.

End Listener.

End DataClass.

(* ===================================================================== *)
(** * The [data-scroll-target] and [data-clear-target] scripts *)
(* ===================================================================== *)

Module ButtonFunctions.

(** The targets of a click: the element itself without a selector, the
    matches of the selector otherwise; [None] for the exception of a
    selector that does not parse, which nothing catches. *)
Definition clickTargets (env : Env) (el : elem) (targetSelector : option string)
    (w : world) : option (list elem) :=
  match given targetSelector with
  | None => Some [el]
  | Some s => querySelectorAll env s w
  end.

(** [scrollTarget_handler], the listener [makeScrollTarget(el)] builds.
    Reading [data-scroll-to] on an element that has no such attribute
    gives null, and [null.toLowerCase()] raises a TypeError. *)
Definition scrollTarget_handler (env : Env) (el : elem) (w : world) : world * outcome :=
  let this := elementAt w el in
  let targetSelector := attributes this !! "data-scroll-target" in
  match clickTargets env el targetSelector w with
  | None => (w, Throws)
  | Some [] =>
      (log (EWarn "No elements found for selector" (VStr (default "" targetSelector))) w,
       Returns RUndefined)
  | Some targetElements =>
      match attributes this !! "data-scroll-to" with
      | None => (w, Throws)
      | Some raw =>
          let scrollTo := default "top" (given (Some (Js.toLowerCase raw))) in
          match scrollKeyword (VStr scrollTo) with
          | None =>
              (log (EWarn "Invalid scroll-to value" (VStr scrollTo)) w, Returns RUndefined)
          | Some k => (onTargets (scrollElement k) targetElements w, Returns RUndefined)
          end
      end
  end.

(** [clearTarget_handler], the listener [makeClearTarget(el)] builds.  The
    option record [makeClearTarget] reads before is not used by it. *)
Definition clearTarget_handler (env : Env) (el : elem) (w : world) : world * outcome :=
  let this := elementAt w el in
  let targetSelector := attributes this !! "data-clear-target" in
  match clickTargets env el targetSelector w with
  | None => (w, Throws)
  | Some [] =>
      (log (EWarn "No elements found for selector" (VStr (default "" targetSelector))) w,
       Returns RUndefined)
  | Some targetElements =>
      let clearContentMethod :=
        default "innerHTML" (given (attributes this !! "data-clear-content-method")) in
      if Js.includes ["innerHTML"; "textContent"] clearContentMethod then
        let clearContentValue :=
          default "" (given (attributes this !! "data-clear-content-value")) in
        (onTargets (setProp clearContentMethod clearContentValue) targetElements w,
         Returns RUndefined)
      else
        (log (EWarn "Invalid clear method" (VStr clearContentMethod)) w,
         Returns RUndefined)
  end.

(** ** Registration (lines 63-74 of [makeScrollTarget], 98-109 of
    [makeClearTarget]) *)

Inductive builder := ScrollTarget | ClearTarget.

(** A function object built by one of the two scripts: every call of
    [makeScrollTarget] or [makeClearTarget] builds a new one. *)
Record closure := Closure {
  c_id : nat;
  c_builder : builder;
  c_el : elem
}.

Global Instance builder_eq_dec : EqDecision builder.
Proof. solve_decision. Defined.
Global Instance closure_eq_dec : EqDecision closure.
Proof. solve_decision. Defined.

(** The property of [el._bf] under which a script keeps its listener. *)
Definition handlerName (s : builder) : string :=
  match s with
  | ScrollTarget => "scrollTarget_handler"
  | ClearTarget => "clearTarget_handler"
  end.

(** What the scripts keep of an element: the object [el._bf] ([None]
    while the property is undefined) and the click listeners they have
    registered, oldest first. *)
Record functions := Functions {
  _bf : option (gmap string closure);
  clickListeners : list closure
}.

Record registry := Registry {
  content : world;
  buttons : gmap elem functions;
  nextClosure : nat
}.

Definition buttonAt (p : registry) (el : elem) : functions :=
  default (Functions None []) (buttons p !! el).

(** The registration both scripts end with.  An element that is not on
    the page stands for a value that is null or has no [getAttribute]. *)
Definition register (s : builder) (el : elem) (p : registry) : registry :=
  match dom (content p) !! el with
  | None =>
      Registry
        (log (EError "Invalid element provided to makeClearTarget" VNull) (content p))
        (buttons p) (nextClosure p)
  | Some _ =>
      let b := buttonAt p el in
      let handler := Closure (nextClosure p) s el in
      let bf := default ∅ (_bf b) in
      let clicks :=
        match bf !! handlerName s with
        | Some previous => filter (λ h, h ≠ previous) (clickListeners b)
        | None => clickListeners b
        end in
      let clicks :=
        if bool_decide (handler ∈ clicks) then clicks else clicks ++ [handler] in
      Registry (content p)
        (<[el := Functions (Some (<[handlerName s := handler]> bf)) clicks]> (buttons p))
        (S (nextClosure p))
  end.

Definition makeScrollTarget (el : elem) (p : registry) : registry :=
  register ScrollTarget el p.
Definition makeClearTarget (el : elem) (p : registry) : registry :=
  register ClearTarget el p.

(** The call of a registered function object. *)
Definition run (env : Env) (c : closure) (w : world) : world * outcome :=
  match c_builder c with
  | ScrollTarget => scrollTarget_handler env (c_el c) w
  | ClearTarget => clearTarget_handler env (c_el c) w
  end.

End ButtonFunctions.

(* ===================================================================== *)
(** * A concrete environment and page, for closed examples *)
(* ===================================================================== *)

Module Fixture.

Fixpoint readDigits (acc : Z) (count : nat) (l : list ascii) : Z * nat * list ascii :=
  match l with
  | c :: l' =>
      match Ascii.is_nat c with
      | Some d => readDigits (acc * 10 + Z.of_nat d) (S count) l'
      | None => (acc, count, l)
      end
  | [] => (acc, count, [])
  end.

Definition readSign (l : list ascii) : bool * list ascii :=
  match l with
  | "-"%char :: l' => (true, l')
  | "+"%char :: l' => (false, l')
  | _ => (false, l)
  end.

Definition readExponent (l : list ascii) : Z :=
  match l with
  | c :: l' =>
      if bool_decide (c = "e"%char ∨ c = "E"%char) then
        let '(negative, l'') := readSign l' in
        let '(e, count, _) := readDigits 0 0 l'' in
        if bool_decide (count = 0%nat) then 0 else if negative then - e else e
      else 0
  | [] => 0
  end.

(** [parseFloat] on decimal literals: the longest prefix that reads as
    a number after leading white space, NaN when there is none. *)
Definition parseDecimal (s : string) : jsnum :=
  let '(negative, l) := readSign (Js.dropSpaces (Js.chars s)) in
  if bool_decide (Js.chars "Infinity" `prefix_of` l) then JInf negative
  else
    let '(whole, n1, l) := readDigits 0 0 l in
    let '(mantissa, n2, l) :=
      match l with
      | "."%char :: l' => readDigits whole 0 l'
      | _ => (whole, 0%nat, l)
      end in
    if bool_decide (n1 + n2 = 0)%nat then JNaN
    else
      let e := readExponent l - Z.of_nat n2 in
      let magnitude :=
        if bool_decide (0 ≤ e) then inject_Z (mantissa * 10 ^ e)
        else Qmake mantissa (Z.to_pos (10 ^ (- e))) in
      JFin (Qred (if negative then - magnitude else magnitude)).

(** Scripts: the text [true] and [false] evaluate to themselves, any
    other text throws; nothing touches the page. *)
Definition script (code : string) (w : world) : gmap elem element * option bool :=
  (dom w,
   if bool_decide (code = "true") then Some true
   else if bool_decide (code = "false") then Some false
   else None).

(** The user accepts every confirmation but the one that asks [Sure?]. *)
Definition answer (message : value) (w : world) : gmap elem element * bool :=
  (dom w, match message with
          | VStr s => negb (bool_decide (s = "Sure?"))
          | _ => true
          end).

Definition select (selector : string) (w : world) : option (list elem) :=
  if bool_decide (selector = ".panel") then Some [1%nat; 2%nat]
  else if bool_decide (selector = "#one") then Some [1%nat]
  else if bool_decide (selector = "[") then None
  else Some [].

Definition env : Env := {|
  parseFloat := parseDecimal;
  toStr := λ _, "";
  querySelectorAll := select;
  querySelectorAllIn := λ _ _ _, Some [];
  evalScript := λ _ code _ _, script code;
  callFunction := λ _ _ _ _ w, (dom w, Some true);
  confirmDialog := λ message _ _, answer message;
  messageDialog := λ _ _ w, (dom w, true);
  sleep := λ _ w, dom w;
  splashDialog := λ _ _, true;
  callNative := λ _ _ w, (dom w, true)
|}.

(** A button (element 0) and two scrollable panels (elements 1 and 2). *)
Definition button (attrs : list (string * string)) (inline : slot) : element :=
  Element (list_to_map attrs) [] ∅ 0 0 0 0 0 0 {[ "onclick" := inline ]} [] None.

Definition panel (classes : list string) (html : string) : element :=
  Element ∅ classes {[ "innerHTML" := html ]} 0 0 500 800 100 300 ∅ [] None.

Definition page (attrs : list (string * string)) (inline : slot) : world :=
  World (list_to_map [ (0%nat, button attrs inline);
                       (1%nat, panel ["a"; "b"] "A");
                       (2%nat, panel ["b"] "B") ])
    [] 0%nat.

(** The page after [addEventActions(button, 'click', 'ca')]. *)
Definition attached (attrs : list (string * string)) (inline : slot) : world :=
  addEventActions 0%nat "click" "ca" (page attrs inline).

Definition click (fuel : nat) (w : world) : progress :=
  actionHandler env fuel (Listener 0%nat 0%nat "click" "ca") w.

(** A step on the first panel whose class lists share the class [y],
    and the same step without the toggle. *)
Definition conflicting : list (string * string) :=
  [ ("data-ca-target", "#one"); ("data-ca-class-add", "x y");
    ("data-ca-class-toggle", "y"); ("data-ca-content-set", "new") ].
Definition notConflicting : list (string * string) :=
  [ ("data-ca-target", "#one"); ("data-ca-class-add", "x y");
    ("data-ca-content-set", "new") ].

(** A step on the first panel with an unknown content method, and the
    same step with a known one. *)
Definition badMethod : list (string * string) :=
  [ ("data-ca-target", "#one"); ("data-ca-class-add", "x");
    ("data-ca-content-method", "outerHTML") ].
Definition goodMethod : list (string * string) :=
  [ ("data-ca-target", "#one"); ("data-ca-class-add", "x");
    ("data-ca-content-method", "textContent") ].

(** A step that scrolls both panels to the bottom and marks them. *)
Definition scrolling : list (string * string) :=
  [ ("data-ca-target", ".panel"); ("data-ca-scroll-to", "bottom");
    ("data-ca-class-add", "seen"); ("data-ca-content-append", "!") ].

(** The option record of the first step of a button. *)
Definition firstOptions (attrs : list (string * string)) : gmap string value :=
  stepOptions env 0%nat "ca" (page attrs SNull).

(** A sequence whose step 1 has a false condition. *)
Definition gatedAtOne : list (string * string) :=
  [ ("data-ca-class-add", "x"); ("data-ca-1-condition", "false");
    ("data-ca-1-class-add", "never"); ("data-ca-2-class-add", "never");
    ("data-ca-last-class-add", "never"); ("data-ca-finally-class-add", "fin") ].

(** A sequence whose step 1 asks a confirmation the user cancels. *)
Definition cancelledAtOne : list (string * string) :=
  [ ("data-ca-class-add", "x"); ("data-ca-1-confirm", "Sure?");
    ("data-ca-1-class-add", "never");
    ("data-ca-last-class-add", "never"); ("data-ca-finally-class-add", "fin") ].

(** A sequence whose first step has an unknown content method. *)
Definition badMethodFirst : list (string * string) :=
  [ ("data-ca-content-method", "outerHTML"); ("data-ca-class-add", "never");
    ("data-ca-1-class-add", "never"); ("data-ca-last-class-add", "never");
    ("data-ca-finally-class-add", "fin") ].

(** A sequence whose step 1 has a false step-level condition. *)
Definition skippedAtOne : list (string * string) :=
  [ ("data-ca-1-condition-action", "false"); ("data-ca-1-confirm", "Sure?");
    ("data-ca-1-class-add", "never"); ("data-ca-2-class-add", "x");
    ("data-ca-last-class-add", "y"); ("data-ca-finally-class-add", "fin") ].


(** The same for the [last] step. *)
Definition gatedAtLast : list (string * string) :=
  [ ("data-ca-last-condition", "false"); ("data-ca-last-class-add", "never") ].

(** The local variables of the listener of a button with the inline
    handler 7, once attached, when the listener starts. *)
Definition starting (attrs : list (string * string)) : hstate :=
  HState (attached attrs (SFun 7)) false RTrue.

(** The trace of a click on that button. *)
Definition clickTrace (attrs : list (string * string)) : list event :=
  trace (finalWorld (click 10 (attached attrs (SFun 7)))).

(** The page after the mutations of the [scrolling] step. *)
Definition scrolled : world :=
  mutate env (ClassRequest ["seen"] [] [] [])
    (contentOf (withDefaults (firstOptions scrolling)) "innerHTML")
    (Some Bottom) [1%nat; 2%nat] (page scrolling SNull).

(** The page of a button without inline handler, before and after a
    click on the attached button. *)
Definition before (attrs : list (string * string)) : world := page attrs SNull.
Definition afterClick (attrs : list (string * string)) : gmap elem element :=
  match actionHandler env 10 (Listener 0%nat 0%nat "click" "ca") (attached attrs SNull) with
  | Continue st => dom (hworld st)
  | Crash w => dom w
  | OutOfFuel w => dom w
  end.

Definition traceOf (p : progress) : list event :=
  match p with
  | Continue st => trace (hworld st)
  | Crash w => trace w
  | OutOfFuel w => trace w
  end.

Definition domOf (p : progress) : gmap elem element :=
  match p with
  | Continue st => dom (hworld st)
  | Crash w => dom w
  | OutOfFuel w => dom w
  end.

End Fixture.

(* ===================================================================== *)
(** * Further pages and option records, for closed examples *)
(* ===================================================================== *)

Module Sample.

(** A first step with an unknown scroll keyword, followed by a [finally]
    step. *)
Definition unknownScroll : list (string * string) :=
  [ ("data-ca-class-add", "x"); ("data-ca-scroll-to", "middle");
    ("data-ca-finally-class-add", "fin") ].

(** An option record for [EventActions.execute] whose condition is a
    function. *)
Definition functionCondition : gmap string value :=
  {[ "condition" := VFun 3%nat; "classAdd" := VStr "x" ]}.

(** A sequence with the steps 1 and 3 and no step 2, and the local
    variables of its listener when the loop starts. *)
Definition gap : list (string * string) :=
  [ ("data-ca-class-add", "x"); ("data-ca-1-class-add", "y");
    ("data-ca-3-class-add", "never"); ("data-ca-last-class-add", "z") ].
Definition atGap : hstate := HState (Fixture.attached gap (SFun 7)) false RTrue.

(** A sequence whose first step opens a splash dialog, and the local
    variables of its listener at the end of a click. *)
Definition splashing : list (string * string) :=
  [ ("data-ca-splash", "wait"); ("data-ca-1-class-add", "x") ].
Definition afterSplash : hstate :=
  match Fixture.click 10 (Fixture.attached splashing (SFun 7)) with
  | Continue st => st
  | _ => Fixture.starting splashing
  end.

(** A page whose button has inline handlers for clicks and for scrolls. *)
Definition twoHandlers : element :=
  Element ∅ [] ∅ 0 0 0 0 0 0 {[ "onclick" := SFun 7%nat; "onscroll" := SFun 8%nat ]} [] None.
Definition twoHandlersPage : world := World {[ 0%nat := twoHandlers ]} [] 0%nat.

(** Buttons of the [data-scroll-target] and [data-clear-target] scripts. *)
Definition scrollWithoutKeyword : list (string * string) :=
  [ ("data-scroll-target", ".panel") ].
Definition scrollToBottom : list (string * string) :=
  [ ("data-scroll-target", ".panel"); ("data-scroll-to", "Bottom") ].
Definition clearPanels : list (string * string) :=
  [ ("data-clear-target", ".panel"); ("data-clear-content-value", "-") ].
Definition clearOuter : list (string * string) :=
  [ ("data-clear-target", ".panel"); ("data-clear-content-method", "outerHTML") ].
Definition unregistered : ButtonFunctions.registry :=
  ButtonFunctions.Registry (Fixture.page scrollToBottom SNull) ∅ 0%nat.

(** A button of the [data-class-*] script with three steps: the first
    toggles [b] on both panels, the second asks to set and to add, the
    third adds [late] to the first panel after two seconds. *)
Definition classButton : list (string * string) :=
  [ ("data-class-target", ".panel"); ("data-class-toggle", "b");
    ("data-class-set-1", "on"); ("data-class-add-1", "x");
    ("data-class-target-2", "#one"); ("data-class-add-2", "late");
    ("data-class-delay-2", "2s") ].
Definition evalCondition (code : string) (el : elem) (w : world)
    : gmap elem element * option bool :=
  Fixture.script code w.
Definition classStart : DataClass.state :=
  DataClass.State (Fixture.page classButton SNull) [].
Definition classEnd : DataClass.state :=
  default classStart (DataClass.onEvent Fixture.env evalCondition 0%nat 5 classStart).

(** An environment in which the children of the button are the panels,
    and a step whose two selectors both match the first panel. *)
Definition withChildren : Env := {|
  parseFloat := parseFloat Fixture.env;
  toStr := toStr Fixture.env;
  querySelectorAll := querySelectorAll Fixture.env;
  querySelectorAllIn := λ _, Fixture.select;
  evalScript := evalScript Fixture.env;
  callFunction := callFunction Fixture.env;
  confirmDialog := confirmDialog Fixture.env;
  messageDialog := messageDialog Fixture.env;
  sleep := sleep Fixture.env;
  splashDialog := splashDialog Fixture.env;
  callNative := callNative Fixture.env
|}.
Definition overlapping : list (string * string) :=
  [ ("data-ca-target", "#one"); ("data-ca-target-children", ".panel");
    ("data-ca-class-toggle", "b"); ("data-ca-content-append", "!") ].
Definition afterOverlapping : gmap elem element :=
  Fixture.domOf
    (actionHandler withChildren 10 (Listener 0%nat 0%nat "click" "ca")
       (Fixture.attached overlapping SNull)).

End Sample.

(* ===================================================================== *)
(** * Properties of the option reader *)
(* ===================================================================== *)

Section OptionReader.
Context (env : Env) (el : element) (prefix : string) (onlyExisting : bool).

Lemma readOption_other (options : gmap string value) entry key :
  entry.1 ≠ key →
  readOption env el prefix onlyExisting options entry !! key = options !! key.
Proof.
  intros Hne. unfold readOption.
  destruct (attributeValue el _); [|destruct onlyExisting];
    by rewrite ?lookup_insert_ne.
Qed.

Lemma readOption_same (options : gmap string value) entry :
  readOption env el prefix onlyExisting options entry !! entry.1 =
    match attributeValue el (attributeName prefix entry.1) with
    | Some v => Some (coerce env entry.2 v)
    | None => if onlyExisting then options !! entry.1 else Some entry.2
    end.
Proof.
  unfold readOption.
  destruct (attributeValue el _); [|destruct onlyExisting];
    by rewrite ?lookup_insert_eq.
Qed.

Lemma read_schema_other (defaultOptions : schema) (options : gmap string value) key :
  key ∉ defaultOptions.*1 →
  foldl (readOption env el prefix onlyExisting) options defaultOptions !! key
    = options !! key.
Proof.
  revert options.
  induction defaultOptions as [|entry rest IH]; intros options Hfresh; [done|].
  cbn [foldl]. rewrite fmap_cons in Hfresh.
  apply not_elem_of_cons in Hfresh as [Hne Hrest].
  rewrite IH by done. by apply readOption_other.
Qed.

Lemma read_schema_entry (defaultOptions : schema) (options : gmap string value)
    key dflt :
  NoDup defaultOptions.*1 →
  (key, dflt) ∈ defaultOptions →
  foldl (readOption env el prefix onlyExisting) options defaultOptions !! key =
    match attributeValue el (attributeName prefix key) with
    | Some v => Some (coerce env dflt v)
    | None => if onlyExisting then options !! key else Some dflt
    end.
Proof.
  revert options.
  induction defaultOptions as [|entry rest IH]; intros options Hnodup Hin.
  { by apply elem_of_nil in Hin. }
  rewrite fmap_cons in Hnodup. apply NoDup_cons in Hnodup as [Hfresh Hnodup].
  cbn [foldl]. apply elem_of_cons in Hin as [<-|Hin].
  - rewrite read_schema_other by done. apply readOption_same.
  - rewrite IH by done.
    assert (entry.1 ≠ key) as Hne.
    { intros <-. apply Hfresh. apply list_elem_of_fmap. by exists (entry.1, dflt). }
    pose proof (readOption_other options entry key Hne) as Hother.
    destruct (attributeValue el _); [done|].
    by destruct onlyExisting.
Qed.

End OptionReader.


Lemma defaultActionOptions_NoDup : NoDup defaultActionOptions.*1.
Proof. apply (bool_decide_unpack _). by vm_compute. Qed.





(** ** C7 *)




(* ===================================================================== *)
(** * Properties of the [data-class-delay] parser *)
(* ===================================================================== *)

Lemma endsWith_ms_s s : Js.endsWith s "ms" = true → Js.endsWith s "s" = true.
Proof.
  unfold Js.endsWith. intros H%bool_decide_eq_true. apply bool_decide_eq_true.
  destruct H as [k Hk]. exists ("m"%char :: k). by rewrite Hk.
Qed.

(** A text that ends in [ms] ends in [s]: the first test of the parser
    takes it, the multiplier is 1000 and only the [s] is removed. *)
Lemma parseDelay_ms_suffix env raw :
  Js.endsWith (Js.trim raw) "ms" = true →
  DataClass.parseDelay env (Some raw) =
    let delay :=
      times 1000 (parseFloat env (Js.trim (Js.dropLast 1 (Js.trim raw)))) in
    if isNaN delay || ltZero delay
    then (JFin 0, Some (EWarn "Invalid delay value" (VStr raw)))
    else (delay, None).
Proof.
  intros H%endsWith_ms_s. unfold DataClass.parseDelay. by rewrite H.
Qed.

(** ** C8 *)

(** C8 at the failing input.  With [data-class-delay="500ms"], where
    parseFloat reads 500 from "500m", the class changes are scheduled
    after 500000 milliseconds and no warning is logged. *)
Theorem data_class_delay_500ms env :
  parseFloat env "500m" = JFin (inject_Z 500) →
  DataClass.parseDelay env (Some "500ms") = (JFin (inject_Z 500000), None)
  ∧ DataClass.waits env (Some "500ms") = DataClass.After (JFin (inject_Z 500000)).
Proof.
  intros Hparse.
  assert (DataClass.parseDelay env (Some "500ms")
          = (JFin (inject_Z 500000), None)) as Hdelay.
  { rewrite parseDelay_ms_suffix by (by vm_compute).
    replace (Js.trim (Js.dropLast 1 (Js.trim "500ms"))) with "500m" by (by vm_compute).
    rewrite Hparse. by vm_compute. }
  split; [done|]. unfold DataClass.waits. rewrite Hdelay. by vm_compute.
Qed.

Lemma data_class_delay_500ms_witness :
  parseFloat Fixture.env "500m" = JFin (inject_Z 500)
  ∧ DataClass.waits Fixture.env (Some "500ms") = DataClass.After (JFin (inject_Z 500000)).
Proof.
  assert (parseFloat Fixture.env "500m" = JFin (inject_Z 500)) as H by (by vm_compute).
  split; [exact H|].
  exact (proj2 (data_class_delay_500ms Fixture.env H)).
Defined.

(* ===================================================================== *)
(** * Properties of attaching and detaching *)
(* ===================================================================== *)

Lemma objGet_objSet_eq k v (o : jsobject) : objGet k (objSet k v o) = Some v.
Proof.
  induction o as [|[k' v'] o IH]; cbn.
  - by rewrite bool_decide_eq_true_2.
  - case_bool_decide; cbn; [by rewrite bool_decide_eq_true_2|].
    by rewrite bool_decide_eq_false_2.
Qed.

Lemma objGet_objSet_ne k k' v (o : jsobject) :
  k ≠ k' → objGet k' (objSet k v o) = objGet k' o.
Proof.
  intros Hne. induction o as [|[k'' v''] o IH]; cbn.
  - by rewrite bool_decide_eq_false_2.
  - case_bool_decide; cbn; subst.
    + by rewrite !bool_decide_eq_false_2.
    + by rewrite IH.
Qed.

Lemma objRead_objSet_eq k v (o : jsobject) : objRead k (objSet k v o) = v.
Proof. unfold objRead. by rewrite objGet_objSet_eq. Qed.

Lemma objRead_objSet_ne k k' v (o : jsobject) :
  k ≠ k' → objRead k' (objSet k v o) = objRead k' o.
Proof. intros. unfold objRead. by rewrite objGet_objSet_ne. Qed.

Lemma elem_of_addEventListener eventType h ls :
  (eventType, h) ∈ addEventListener eventType h ls.
Proof.
  unfold addEventListener. case_bool_decide; [done|].
  apply elem_of_app. right. apply list_elem_of_here.
Qed.

Lemma elementAt_insert w el e tr n :
  elementAt (World (<[el := e]> (dom w)) tr n) el = e.
Proof. unfold elementAt. cbn. by rewrite lookup_insert_eq. Qed.

Section Attachment.
Context (w : world) (el : elem) (eventType prefix : string) (e : element).
Hypothesis on_page : dom w !! el = Some e.

(** The listener the first attachment installs. *)
Let handler := Listener (nextId w) el eventType prefix.

(** The state of the element after an attachment that is carried out. *)
Lemma addEventActions_fresh :
  alreadyAvailable e eventType = false →
  ∃ ea handlers,
    addEventActions el eventType prefix w =
      World (<[el := withAttachment (<[onName eventType := SNull]> (onprop e))
                       (addEventListener eventType handler (listeners e))
                       (Some (objSet "handlers" handlers
                                (objSet eventType (inlineHandler e eventType) ea)))
                       e]> (dom w))
        (trace w) (S (nextId w)).
Proof.
  intros Hfresh. unfold addEventActions. rewrite on_page, Hfresh.
  by eexists _, _.
Qed.

(** What is recorded for the event type is the inline handler found at
    the time, or null. *)
Lemma addEventActions_records :
  alreadyAvailable e eventType = false →
  eventType ≠ "handlers" →
  alreadyAvailable (elementAt (addEventActions el eventType prefix w) el) eventType
    = truthySlot (inlineHandler e eventType).
Proof.
  intros Hfresh Hne.
  destruct (addEventActions_fresh Hfresh) as (ea & handlers & ->).
  rewrite elementAt_insert. unfold alreadyAvailable. cbn.
  rewrite objRead_objSet_ne by done. by rewrite objRead_objSet_eq.
Qed.

(** With an inline handler to record, attaching again changes nothing. *)
Lemma addEventActions_again_with_inline_handler :
  alreadyAvailable e eventType = false →
  eventType ≠ "handlers" →
  truthySlot (inlineHandler e eventType) = true →
  addEventActions el eventType prefix (addEventActions el eventType prefix w)
    = addEventActions el eventType prefix w.
Proof.
  intros Hfresh Hne Hinline.
  pose proof (addEventActions_records Hfresh Hne) as Hrec.
  rewrite Hinline in Hrec.
  destruct (addEventActions_fresh Hfresh) as (ea & handlers & Heq).
  rewrite Heq in Hrec |- *. rewrite elementAt_insert in Hrec.
  unfold addEventActions at 1. cbn [dom]. rewrite lookup_insert_eq.
  by rewrite Hrec.
Qed.

End Attachment.

Lemma elem_of_addEventListener_inv eventType h ls x :
  x ∈ addEventListener eventType h ls → x = (eventType, h) ∨ x ∈ ls.
Proof.
  unfold addEventListener. case_bool_decide; [by right|].
  intros [?|Hx]%elem_of_app; [by right|].
  apply list_elem_of_singleton in Hx. by left.
Qed.

Lemma addEventListener_new eventType h ls :
  (eventType, h) ∉ ls →
  length (addEventListener eventType h ls) = S (length ls).
Proof.
  intros Hnew. unfold addEventListener. rewrite bool_decide_eq_false_2 by done.
  rewrite length_app. cbn. lia.
Qed.

(** ** C3 *)

(** C3 at the inputs where it fails.  For every element on the page that
    has no inline handler for the event type and is not yet attached for
    it, a second [addEventActions] for the same event type installs a
    second listener: the list of listeners grows by one and holds the new
    listener, so the second call is not a no-op.  (Listener identities
    handed out so far are below the counter; the event type is not the
    reserved key [handlers].) *)
Theorem addEventActions_twice_adds_second_listener w el eventType prefix e :
  dom w !! el = Some e →
  alreadyAvailable e eventType = false →
  truthySlot (inlineHandler e eventType) = false →
  eventType ≠ "handlers" →
  Forall (λ x, l_id x.2 < nextId w)%nat (listeners e) →
  length (listeners (elementAt
     (addEventActions el eventType prefix (addEventActions el eventType prefix w)) el))
    = S (length (listeners (elementAt (addEventActions el eventType prefix w) el)))
  ∧ (eventType, Listener (nextId w) el eventType prefix)
      ∈ listeners (elementAt
          (addEventActions el eventType prefix (addEventActions el eventType prefix w)) el)
  ∧ (eventType, Listener (S (nextId w)) el eventType prefix)
      ∈ listeners (elementAt
          (addEventActions el eventType prefix (addEventActions el eventType prefix w)) el).
Proof.
  intros Hdom Hfresh Hinline Hne Hids.
  set (w1 := addEventActions el eventType prefix w).
  set (w2 := addEventActions el eventType prefix w1).
  pose proof (addEventActions_records w el eventType prefix e Hdom Hfresh Hne) as Hrec.
  rewrite Hinline in Hrec. fold w1 in Hrec.
  destruct (addEventActions_fresh w el eventType prefix e Hdom Hfresh)
    as (ea & handlers & Hw1).
  fold w1 in Hw1.
  assert (dom w1 !! el = Some (elementAt w1 el)) as Hdom1.
  { rewrite Hw1. unfold elementAt. cbn. by rewrite lookup_insert_eq. }
  destruct (addEventActions_fresh w1 el eventType prefix _ Hdom1 Hrec)
    as (ea' & handlers' & Hw2).
  fold w2 in Hw2.
  assert (nextId w1 = S (nextId w)) as Hnext by (by rewrite Hw1).
  assert (listeners (elementAt w1 el)
          = addEventListener eventType (Listener (nextId w) el eventType prefix)
              (listeners e)) as Hls1.
  { rewrite Hw1. by rewrite elementAt_insert. }
  assert (listeners (elementAt w2 el)
          = addEventListener eventType (Listener (S (nextId w)) el eventType prefix)
              (listeners (elementAt w1 el))) as Hls2.
  { rewrite Hw2. rewrite elementAt_insert. cbn. by rewrite Hnext. }
  assert ((eventType, Listener (S (nextId w)) el eventType prefix)
          ∉ listeners (elementAt w1 el)) as Hnew.
  { rewrite Hls1. intros [Heq|Hold]%elem_of_addEventListener_inv.
    - injection Heq as Heq. lia.
    - rewrite Forall_forall in Hids. apply Hids in Hold. cbn in Hold. lia. }
  rewrite Hls2. split; [by apply addEventListener_new|]. split.
  - unfold addEventListener at 1. rewrite bool_decide_eq_false_2 by done.
    apply elem_of_app. left. rewrite Hls1. apply elem_of_addEventListener.
  - apply elem_of_addEventListener.
Qed.

Lemma addEventActions_twice_adds_second_listener_witness :
  dom (Fixture.page [] SNull) !! 0%nat = Some (Fixture.button [] SNull)
  ∧ alreadyAvailable (Fixture.button [] SNull) "click" = false
  ∧ truthySlot (inlineHandler (Fixture.button [] SNull) "click") = false
  ∧ "click" ≠ "handlers"
  ∧ Forall (λ x, l_id x.2 < nextId (Fixture.page [] SNull))%nat
      (listeners (Fixture.button [] SNull))
  ∧ length (listeners (elementAt
        (addEventActions 0%nat "click" "ca"
           (addEventActions 0%nat "click" "ca" (Fixture.page [] SNull))) 0%nat))
    = S (length (listeners (elementAt
        (addEventActions 0%nat "click" "ca" (Fixture.page [] SNull)) 0%nat))).
Proof.
  assert (dom (Fixture.page [] SNull) !! 0%nat = Some (Fixture.button [] SNull))
    as H1 by (by vm_compute).
  assert (alreadyAvailable (Fixture.button [] SNull) "click" = false)
    as H2 by reflexivity.
  assert (truthySlot (inlineHandler (Fixture.button [] SNull) "click") = false)
    as H3 by (by vm_compute).
  assert ("click" ≠ "handlers") as H4 by discriminate.
  assert (Forall (λ x, l_id x.2 < nextId (Fixture.page [] SNull))%nat
            (listeners (Fixture.button [] SNull))) as H5 by constructor.
  repeat (split; [assumption|]).
  exact (proj1 (addEventActions_twice_adds_second_listener
                  (Fixture.page [] SNull) 0%nat "click" "ca"
                  (Fixture.button [] SNull) H1 H2 H3 H4 H5)).
Defined.

(** The same run evaluated: one listener after the first call, two after
    the second. *)
Example addEventActions_twice_on_plain_button :
  length (listeners (elementAt (Fixture.attached [] SNull) 0%nat)) = 1%nat
  ∧ length (listeners (elementAt
        (addEventActions 0%nat "click" "ca" (Fixture.attached [] SNull)) 0%nat))
    = 2%nat.
Proof. split; by vm_compute. Qed.

(** ** C10 *)

Lemma removeTyped_nothing_recorded w el eventType e ea :
  dom w !! el = Some e →
  _eventActions e = Some ea →
  objRead eventType ea = SNull →
  removeTyped el eventType w = w.
Proof.
  intros Hdom Hea Hrec. unfold removeTyped. by rewrite Hdom, Hea, Hrec.
Qed.

(** C10.  For every element on the page that is attached for an event
    type while it has no inline handler for it, what is recorded for the
    event type is null, and [removeEventActions] for that element and
    event type returns at once: the world is exactly what it was, so the
    installed listener is still registered and the bookkeeping is
    unchanged.  (The event type is a non-empty name other than the
    reserved key [handlers].) *)
Theorem removeEventActions_leaves_listener_when_nothing_recorded
    w el eventType prefix e :
  dom w !! el = Some e →
  alreadyAvailable e eventType = false →
  truthySlot (inlineHandler e eventType) = false →
  eventType ≠ "handlers" →
  eventType ≠ "" →
  (∃ ea, _eventActions (elementAt (addEventActions el eventType prefix w) el) = Some ea
         ∧ objRead eventType ea = SNull)
  ∧ (eventType, Listener (nextId w) el eventType prefix)
      ∈ listeners (elementAt (addEventActions el eventType prefix w) el)
  ∧ removeEventActions el eventType (addEventActions el eventType prefix w)
    = Some (addEventActions el eventType prefix w).
Proof.
  intros Hdom Hfresh Hinline Hne Hne'.
  set (w1 := addEventActions el eventType prefix w).
  destruct (addEventActions_fresh w el eventType prefix e Hdom Hfresh)
    as (ea & handlers & Hw1).
  fold w1 in Hw1.
  assert (inlineHandler e eventType = SNull) as Hnull.
  { by destruct (inlineHandler e eventType). }
  rewrite Hnull in Hw1.
  assert (dom w1 !! el = Some (elementAt w1 el)) as Hdom1.
  { rewrite Hw1. unfold elementAt. cbn. by rewrite lookup_insert_eq. }
  assert (∃ ea1, _eventActions (elementAt w1 el) = Some ea1
                 ∧ objRead eventType ea1 = SNull) as (ea1 & Hea1 & Hrec).
  { rewrite Hw1, elementAt_insert. cbn. eexists. split; [done|].
    rewrite objRead_objSet_ne by done. by rewrite objRead_objSet_eq. }
  split; [by exists ea1|]. split.
  - rewrite Hw1, elementAt_insert. cbn. apply elem_of_addEventListener.
  - unfold removeEventActions. rewrite Hdom1, Hea1.
    rewrite bool_decide_eq_false_2 by done.
    f_equal. by eapply removeTyped_nothing_recorded.
Qed.

Lemma removeEventActions_leaves_listener_when_nothing_recorded_witness :
  dom (Fixture.page [] SNull) !! 0%nat = Some (Fixture.button [] SNull)
  ∧ alreadyAvailable (Fixture.button [] SNull) "click" = false
  ∧ truthySlot (inlineHandler (Fixture.button [] SNull) "click") = false
  ∧ "click" ≠ "handlers"
  ∧ "click" ≠ ""
  ∧ removeEventActions 0%nat "click" (Fixture.attached [] SNull)
    = Some (Fixture.attached [] SNull).
Proof.
  assert (dom (Fixture.page [] SNull) !! 0%nat = Some (Fixture.button [] SNull))
    as H1 by (by vm_compute).
  assert (alreadyAvailable (Fixture.button [] SNull) "click" = false)
    as H2 by reflexivity.
  assert (truthySlot (inlineHandler (Fixture.button [] SNull) "click") = false)
    as H3 by (by vm_compute).
  assert ("click" ≠ "handlers") as H4 by discriminate.
  assert ("click" ≠ "") as H5 by discriminate.
  repeat (split; [assumption|]).
  exact (proj2 (proj2 (removeEventActions_leaves_listener_when_nothing_recorded
                         (Fixture.page [] SNull) 0%nat "click" "ca"
                         (Fixture.button [] SNull) H1 H2 H3 H4 H5))).
Defined.

(** With an inline handler recorded, the same call does detach: the
    listener is removed and the inline handler is back in place. *)
Example removeEventActions_with_inline_handler :
  match removeEventActions 0%nat "click" (Fixture.attached [] (SFun 7)) with
  | Some w =>
      listeners (elementAt w 0%nat) = []
      ∧ onprop (elementAt w 0%nat) !! "onclick" = Some (SFun 7)
      ∧ _eventActions (elementAt w 0%nat) = None
  | None => False
  end.
Proof. by vm_compute. Qed.

(* ===================================================================== *)
(** * Properties of one step *)
(* ===================================================================== *)

Lemma bind_next {A B} (m : action A) (k : A → action B) w w' a :
  m w = (w', Next a) → (m ≫= k) w = k a w'.
Proof. intros H. unfold mbind, action_bind. by rewrite H. Qed.

Lemma bind_stop {A B} (m : action A) (k : A → action B) w w' o :
  m w = (w', Stop o) → (m ≫= k) w = (w', Stop o).
Proof. intros H. unfold mbind, action_bind. by rewrite H. Qed.

Lemma withDefaults_idemp (options : gmap string value) :
  withDefaults (withDefaults options) = withDefaults options.
Proof. unfold withDefaults. by rewrite <- (assoc_L (∪)), (idemp_L (∪)). Qed.

(** A step that leaves its preamble with a result settles to it. *)
Lemma executeAction_preamble_stops env el options w w1 o :
  preamble env el (withDefaults options) w = (w1, Stop o) →
  executeAction env el options w = (w1, o).
Proof.
  intros H. unfold executeAction. by rewrite (bind_stop _ _ _ _ _ H).
Qed.

Lemma executeAction_preamble_passes env el options w w1 targetElements :
  preamble env el (withDefaults options) w = (w1, Next targetElements) →
  executeAction env el options w
    = settle (effects env (withDefaults options) targetElements w1).
Proof.
  intros H. unfold executeAction. by rewrite (bind_next _ _ _ _ _ H).
Qed.

Lemma pause_next env options w :
  pause env options w = ((pause env options w).1, Next tt).
Proof.
  unfold pause. destruct (gtZero _ && negb _); [|done].
  by unfold mbind, action_bind, emit, wait.
Qed.

(** ** C4 *)

(** C4, amended.  For every step that reaches its class lists (its
    conditions hold, its confirmation is accepted, its custom action has
    run, leaving the world [w1]) with a class name in more than one of
    add, remove and toggle: a warning is logged and the step ends there
    with false.  Nothing else happens: no class mutation on any target,
    and no content mutation, scroll, delay or acknowledgment either; what
    the step did before stays done. *)
Theorem class_conflict_ends_step env el actionOptions w w1 targetElements classes :
  preamble env el (withDefaults actionOptions) w = (w1, Next targetElements) →
  readClassRequest (withDefaults actionOptions) = Some classes →
  classesIntersect classes = true →
  executeAction env el actionOptions w =
    (log (EWarn "Cannot set, unset or toggle the same class at the same time" VNull) w1,
     Returns RFalse).
Proof.
  intros Hpre Hreq Hconflict.
  rewrite (executeAction_preamble_passes _ _ _ _ _ _ Hpre).
  unfold effects, readClasses. rewrite Hreq, Hconflict.
  by unfold mbind, action_bind, emit, stop.
Qed.

Lemma class_conflict_ends_step_witness :
  preamble Fixture.env 0%nat (withDefaults (Fixture.firstOptions Fixture.conflicting))
    (Fixture.before Fixture.conflicting)
    = (Fixture.before Fixture.conflicting, Next [1%nat])
  ∧ readClassRequest (withDefaults (Fixture.firstOptions Fixture.conflicting))
    = Some (ClassRequest ["x"; "y"] [] ["y"] [])
  ∧ classesIntersect (ClassRequest ["x"; "y"] [] ["y"] []) = true
  ∧ executeAction Fixture.env 0%nat (Fixture.firstOptions Fixture.conflicting)
      (Fixture.before Fixture.conflicting) =
      (log (EWarn "Cannot set, unset or toggle the same class at the same time" VNull)
         (Fixture.before Fixture.conflicting),
       Returns RFalse).
Proof.
  assert (preamble Fixture.env 0%nat
            (withDefaults (Fixture.firstOptions Fixture.conflicting))
            (Fixture.before Fixture.conflicting)
          = (Fixture.before Fixture.conflicting, Next [1%nat]))
    as H1 by (by vm_compute).
  assert (readClassRequest (withDefaults (Fixture.firstOptions Fixture.conflicting))
          = Some (ClassRequest ["x"; "y"] [] ["y"] []))
    as H2 by (by vm_compute).
  assert (classesIntersect (ClassRequest ["x"; "y"] [] ["y"] []) = true)
    as H3 by (by vm_compute).
  repeat (split; [assumption|]).
  exact (class_conflict_ends_step Fixture.env 0%nat
           (Fixture.firstOptions Fixture.conflicting)
           (Fixture.before Fixture.conflicting) (Fixture.before Fixture.conflicting)
           [1%nat] (ClassRequest ["x"; "y"] [] ["y"] []) H1 H2 H3).
Defined.

(** C4 as stated fails.  A click on a button whose step asks to add
    [x y], to toggle [y] and to set the content of the first panel to
    "new" leaves the panel with its old content "A": the content mutation
    of the step is aborted with the class mutation.  Without the toggle
    the same step sets the content. *)
Lemma class_conflict_aborts_content_mutation :
  (getProp "innerHTML" <$> Fixture.afterClick Fixture.conflicting !! 1%nat) = Some "A"
  ∧ (classList <$> Fixture.afterClick Fixture.conflicting !! 1%nat) = Some ["a"; "b"]
  ∧ (getProp "innerHTML" <$> Fixture.afterClick Fixture.notConflicting !! 1%nat)
    = Some "new"
  ∧ (classList <$> Fixture.afterClick Fixture.notConflicting !! 1%nat)
    = Some ["a"; "b"; "x"; "y"].
Proof. repeat split; by vm_compute. Qed.

(** ** C5 *)

(** A step stopped by the validation of its content method. *)
Lemma executeAction_invalid_content_method env el actionOptions w w1 targetElements
    classes :
  preamble env el (withDefaults actionOptions) w = (w1, Next targetElements) →
  readClassRequest (withDefaults actionOptions) = Some classes →
  classesIntersect classes = false →
  validContentMethod
    (sanitizeValue (orStr (opt (withDefaults actionOptions) "contentMethod") "innerHTML"))
    = None →
  executeAction env el actionOptions w =
    (log (EWarn "Invalid content method"
            (sanitizeValue
               (orStr (opt (withDefaults actionOptions) "contentMethod") "innerHTML")))
       w1,
     Returns RUndefined).
Proof.
  intros Hpre Hreq Hconflict Hmethod.
  rewrite (executeAction_preamble_passes _ _ _ _ _ _ Hpre).
  unfold effects, readClasses, readContent. rewrite Hreq, Hconflict.
  unfold mbind at 1, action_bind at 1. cbn [mret action_ret].
  rewrite Hmethod.
  by unfold mbind, action_bind, emit, stop.
Qed.

(** C5, amended.  For every step that reaches the validation of its
    content method (the preamble is passed, leaving the world [w1], and
    the class lists do not conflict) with a method other than innerHTML
    and textContent: a warning is logged and the step ends there with
    undefined.  None of its built-in effects has run or will run: the
    class mutations are not applied either, nor the content mutation, the
    scroll, the delay or the acknowledgment; what the step did before
    stays done. *)
Theorem invalid_content_method_ends_step env el actionOptions w w1 targetElements
    classes :
  preamble env el (withDefaults actionOptions) w = (w1, Next targetElements) →
  readClassRequest (withDefaults actionOptions) = Some classes →
  classesIntersect classes = false →
  validContentMethod
    (sanitizeValue (orStr (opt (withDefaults actionOptions) "contentMethod") "innerHTML"))
    = None →
  executeAction env el actionOptions w =
    (log (EWarn "Invalid content method"
            (sanitizeValue
               (orStr (opt (withDefaults actionOptions) "contentMethod") "innerHTML")))
       w1,
     Returns RUndefined).
Proof. apply executeAction_invalid_content_method. Qed.

Lemma invalid_content_method_ends_step_witness :
  preamble Fixture.env 0%nat (withDefaults (Fixture.firstOptions Fixture.badMethod))
    (Fixture.before Fixture.badMethod)
    = (Fixture.before Fixture.badMethod, Next [1%nat])
  ∧ readClassRequest (withDefaults (Fixture.firstOptions Fixture.badMethod))
    = Some (ClassRequest ["x"] [] [] [])
  ∧ classesIntersect (ClassRequest ["x"] [] [] []) = false
  ∧ validContentMethod
      (sanitizeValue
         (orStr (opt (withDefaults (Fixture.firstOptions Fixture.badMethod))
                   "contentMethod") "innerHTML"))
    = None
  ∧ executeAction Fixture.env 0%nat (Fixture.firstOptions Fixture.badMethod)
      (Fixture.before Fixture.badMethod) =
      (log (EWarn "Invalid content method" (VStr "outerHTML"))
         (Fixture.before Fixture.badMethod),
       Returns RUndefined).
Proof.
  assert (preamble Fixture.env 0%nat
            (withDefaults (Fixture.firstOptions Fixture.badMethod))
            (Fixture.before Fixture.badMethod)
          = (Fixture.before Fixture.badMethod, Next [1%nat]))
    as H1 by (by vm_compute).
  assert (readClassRequest (withDefaults (Fixture.firstOptions Fixture.badMethod))
          = Some (ClassRequest ["x"] [] [] []))
    as H2 by (by vm_compute).
  assert (classesIntersect (ClassRequest ["x"] [] [] []) = false)
    as H3 by (by vm_compute).
  assert (validContentMethod
            (sanitizeValue
               (orStr (opt (withDefaults (Fixture.firstOptions Fixture.badMethod))
                         "contentMethod") "innerHTML"))
          = None) as H4 by (by vm_compute).
  repeat (split; [assumption|]).
  exact (invalid_content_method_ends_step Fixture.env 0%nat
           (Fixture.firstOptions Fixture.badMethod)
           (Fixture.before Fixture.badMethod) (Fixture.before Fixture.badMethod)
           [1%nat] (ClassRequest ["x"] [] [] []) H1 H2 H3 H4).
Defined.

(** C5 as stated fails.  A click on a button whose step asks to add the
    class [x] to the first panel with the content method "outerHTML"
    leaves the class list of the panel as it was: the class mutation has
    not been applied when the step is aborted.  With a known method the
    class is added. *)
Lemma invalid_content_method_skips_class_mutation :
  (classList <$> Fixture.afterClick Fixture.badMethod !! 1%nat) = Some ["a"; "b"]
  ∧ (classList <$> Fixture.afterClick Fixture.goodMethod !! 1%nat)
    = Some ["a"; "b"; "x"].
Proof. split; by vm_compute. Qed.

(** ** Mutations over a target list *)

Section OnTargets.
Context (f : element → element).

Lemma foldl_alter_other targets (d : gmap elem element) x :
  x ∉ targets → foldl (λ d t, alter f t d) d targets !! x = d !! x.
Proof.
  revert d. induction targets as [|t targets IH]; intros d Hx; [done|].
  apply not_elem_of_cons in Hx as [Hne Hx]. cbn [foldl].
  rewrite IH by done. by rewrite lookup_alter_ne.
Qed.

Lemma foldl_alter_once targets (d : gmap elem element) x :
  NoDup targets → x ∈ targets →
  foldl (λ d t, alter f t d) d targets !! x = f <$> d !! x.
Proof.
  revert d. induction targets as [|t targets IH]; intros d Hnodup Hx.
  { by apply elem_of_nil in Hx. }
  apply NoDup_cons in Hnodup as [Hfresh Hnodup]. cbn [foldl].
  apply elem_of_cons in Hx as [->|Hx].
  - rewrite foldl_alter_other by done. by rewrite lookup_alter_eq.
  - rewrite IH by done. rewrite lookup_alter_ne; [done|]. by intros ->.
Qed.

Lemma foldl_alter_preserves {A} (π : element → A) targets (d : gmap elem element) x :
  (∀ e, π (f e) = π e) →
  π <$> foldl (λ d t, alter f t d) d targets !! x = π <$> d !! x.
Proof.
  intros Hπ. revert d. induction targets as [|t targets IH]; intros d; [done|].
  cbn [foldl]. rewrite IH. destruct (decide (t = x)) as [->|Hne].
  - rewrite lookup_alter_eq. destruct (d !! x); cbn; by rewrite ?Hπ.
  - by rewrite lookup_alter_ne.
Qed.

Lemma elementAt_onTargets_other targets w x :
  x ∉ targets → elementAt (onTargets f targets w) x = elementAt w x.
Proof.
  intros Hx. unfold elementAt, onTargets. cbn. by rewrite foldl_alter_other.
Qed.

Lemma elementAt_onTargets_once targets w x :
  NoDup targets → x ∈ targets → is_Some (dom w !! x) →
  elementAt (onTargets f targets w) x = f (elementAt w x).
Proof.
  intros Hnodup Hx [e He]. unfold elementAt, onTargets. cbn.
  rewrite foldl_alter_once by done. by rewrite He.
Qed.

Lemma onTargets_preserves {A} (π : element → A) targets w x :
  (∀ e, π (f e) = π e) →
  π (elementAt (onTargets f targets w) x) = π (elementAt w x).
Proof.
  intros Hπ. unfold elementAt, onTargets. cbn.
  pose proof (foldl_alter_preserves π targets (dom w) x Hπ) as H.
  destruct (foldl _ _ _ !! x), (dom w !! x); cbn in *; congruence.
Qed.

Lemma onTargets_on_page targets w x :
  is_Some (dom w !! x) → is_Some (dom (onTargets f targets w) !! x).
Proof.
  intros [e He]. unfold onTargets. cbn.
  pose proof (foldl_alter_preserves (λ _, tt) targets (dom w) x (λ _, eq_refl)) as H.
  rewrite He in H. destruct (foldl _ _ _ !! x); [by eexists|done].
Qed.

Lemma elementAt_onTargets_absent targets w x :
  dom w !! x = None → elementAt (onTargets f targets w) x = emptyElement.
Proof.
  intros He. unfold elementAt, onTargets. cbn.
  pose proof (foldl_alter_preserves (λ _, tt) targets (dom w) x (λ _, eq_refl)) as H.
  rewrite He in H. by destruct (foldl _ _ _ !! x).
Qed.

End OnTargets.

Lemma geometry_applyClassesTo classes e : geometry (applyClassesTo classes e) = geometry e.
Proof. unfold applyClassesTo. by destruct (bool_decide _). Qed.

Lemma geometry_applyContentTo env content e :
  geometry (applyContentTo env content e) = geometry e.
Proof.
  unfold applyContentTo.
  by destruct (contentClear content), (truthy (contentSet content)),
    (truthy (contentAppend content)), (truthy (contentPrepend content)).
Qed.

Lemma geometry_scrollElement k e e' :
  geometry e = geometry e' →
  geometry (scrollElement k e) = geometry (scrollElement k e').
Proof.
  unfold geometry. intros [= H1 H2 H3 H4 H5 H6].
  destruct k; cbn; by rewrite ?H1, ?H2, ?H3, ?H4, ?H5, ?H6.
Qed.

Lemma geometry_scrollTop e e' : geometry e = geometry e' → scrollTop e = scrollTop e'.
Proof. unfold geometry. by intros [= -> _ _ _ _ _]. Qed.

Lemma geometry_scrollElement_empty k :
  geometry (scrollElement k emptyElement) = geometry emptyElement.
Proof. by destruct k. Qed.

Lemma classList_scrollElement k e : classList (scrollElement k e) = classList e.
Proof. by destruct k. Qed.

Lemma props_scrollElement k e : props (scrollElement k e) = props e.
Proof. by destruct k. Qed.

Lemma classList_applyContentTo env content e :
  classList (applyContentTo env content e) = classList e.
Proof.
  unfold applyContentTo.
  by destruct (contentClear content), (truthy (contentSet content)),
    (truthy (contentAppend content)), (truthy (contentPrepend content)).
Qed.

Lemma props_applyContentTo_classes env content classes e :
  props (applyContentTo env content (applyClassesTo classes e))
    = props (applyContentTo env content e).
Proof.
  unfold applyContentTo, applyClassesTo.
  by destruct (bool_decide _), (contentClear content), (truthy (contentSet content)),
    (truthy (contentAppend content)), (truthy (contentPrepend content)).
Qed.

(** Scrolling to the bottom puts the offset at its maximum. *)
Lemma scrollElement_bottom e :
  0 ≤ clientHeight e → scrollTop (scrollElement Bottom e) = maxScrollTop e.
Proof. intros H. cbn. unfold clamp, maxScrollTop. lia. Qed.

Lemma scrollKeyword_truthy v k : scrollKeyword v = Some k → truthy v = true.
Proof.
  destruct v as [| | |s|]; try done. cbn.
  repeat case_bool_decide; subst; done.
Qed.

Section Mutate.
Context (env : Env) (classes : classRequest) (content : contentRequest)
  (k : edge) (t : elem) (rest : list elem) (w : world).

Let after := mutate env classes content (Some k) (t :: rest) w.

Lemma mutate_geometry_other x :
  x ≠ t → geometry (elementAt after x) = geometry (elementAt w x).
Proof.
  intros Hne. unfold after, mutate, applyScroll.
  rewrite elementAt_onTargets_other by (by intros ->%list_elem_of_singleton).
  rewrite (onTargets_preserves _ geometry) by apply geometry_applyContentTo.
  by rewrite (onTargets_preserves _ geometry) by apply geometry_applyClassesTo.
Qed.

Lemma mutate_geometry_first :
  geometry (elementAt after t) = geometry (scrollElement k (elementAt w t)).
Proof.
  unfold after, mutate, applyScroll.
  set (w' := onTargets (applyContentTo env content) (t :: rest)
               (onTargets (applyClassesTo classes) (t :: rest) w)).
  assert (geometry (elementAt w' t) = geometry (elementAt w t)) as Hsame.
  { unfold w'.
    rewrite (onTargets_preserves _ geometry) by apply geometry_applyContentTo.
    by rewrite (onTargets_preserves _ geometry) by apply geometry_applyClassesTo. }
  destruct (dom w' !! t) as [e|] eqn:He.
  - rewrite elementAt_onTargets_once;
      [|apply NoDup_singleton|apply list_elem_of_here|by rewrite He].
    by apply geometry_scrollElement.
  - rewrite <- (geometry_scrollElement k _ _ Hsame).
    assert (elementAt w' t = emptyElement) as Hempty.
    { unfold elementAt. by rewrite He. }
    rewrite Hempty, geometry_scrollElement_empty.
    by rewrite elementAt_onTargets_absent.
Qed.

Lemma mutate_classes_content x :
  NoDup (t :: rest) → x ∈ t :: rest → is_Some (dom w !! x) →
  classList (elementAt after x) = classList (applyClassesTo classes (elementAt w x))
  ∧ props (elementAt after x) = props (applyContentTo env content (elementAt w x)).
Proof.
  intros Hnodup Hx Hpage. unfold after, mutate, applyScroll.
  rewrite (onTargets_preserves _ classList) by apply classList_scrollElement.
  rewrite (onTargets_preserves _ props) by apply props_scrollElement.
  rewrite elementAt_onTargets_once; [|done|done|by apply onTargets_on_page].
  rewrite elementAt_onTargets_once by done.
  split; [apply classList_applyContentTo|apply props_applyContentTo_classes].
Qed.

End Mutate.

(** ** C6 *)

(** A step that passes its preamble and its validations runs its three
    mutations, in the world its wait ends in, and then its
    acknowledgment. *)
Lemma executeAction_mutates env el actionOptions w w1 targetElements classes method
    scrollTo :
  preamble env el (withDefaults actionOptions) w = (w1, Next targetElements) →
  readClassRequest (withDefaults actionOptions) = Some classes →
  classesIntersect classes = false →
  validContentMethod
    (sanitizeValue (orStr (opt (withDefaults actionOptions) "contentMethod") "innerHTML"))
    = Some method →
  readScroll (withDefaults actionOptions) w1 = (w1, Next scrollTo) →
  executeAction env el actionOptions w =
    settle ((acknowledge env (withDefaults actionOptions);; mret RTrue)
              (mutate env classes (contentOf (withDefaults actionOptions) method)
                 scrollTo targetElements
                 (afterPause env (withDefaults actionOptions) w1))).
Proof.
  intros Hpre Hreq Hconflict Hmethod Hscroll.
  rewrite (executeAction_preamble_passes _ _ _ _ _ _ Hpre).
  unfold effects, readClasses, readContent. rewrite Hreq, Hconflict, Hmethod.
  unfold mbind at 1, action_bind at 1. cbn [mret action_ret].
  unfold mbind at 1, action_bind at 1. cbn [mret action_ret].
  rewrite (bind_next _ _ _ _ _ Hscroll).
  rewrite (bind_next _ _ _ _ _ (pause_next env _ w1)).
  by unfold mbind at 1, action_bind at 1, update.
Qed.

Lemma readScroll_keyword options w k :
  scrollKeyword (sanitizeValue (orNull (opt options "scrollTo"))) = Some k →
  readScroll options w = (w, Next (Some k)).
Proof.
  intros Hk. unfold readScroll.
  by rewrite (scrollKeyword_truthy _ _ Hk), Hk.
Qed.

(** C6.  For every step with a valid scrollTo keyword [k] that reaches
    its mutations with the targets [t :: rest], the mutations being run in
    the world [w2] its wait ends in and giving the world [w3]:
    - the scroll offsets and sizes of every element other than [t] are in
      [w3] what they were in [w2];
    - those of [t] are what the assignment for [k] makes of them, so that
      for "bottom" the vertical offset of [t] is its maximum;
    - when the targets are distinct, each of them that is on the page has
      in [w3] the class list and the content that the class and content
      mutations of the step give it.
    The step then shows its acknowledgment, if any, and returns true. *)
Theorem scroll_moves_first_target_only env el actionOptions w w1 t rest classes
    method k :
  preamble env el (withDefaults actionOptions) w = (w1, Next (t :: rest)) →
  readClassRequest (withDefaults actionOptions) = Some classes →
  classesIntersect classes = false →
  validContentMethod
    (sanitizeValue (orStr (opt (withDefaults actionOptions) "contentMethod") "innerHTML"))
    = Some method →
  scrollKeyword (sanitizeValue (orNull (opt (withDefaults actionOptions) "scrollTo")))
    = Some k →
  ∃ w2 w3,
    w2 = afterPause env (withDefaults actionOptions) w1
    ∧ w3 = mutate env classes (contentOf (withDefaults actionOptions) method)
             (Some k) (t :: rest) w2
    ∧ executeAction env el actionOptions w
      = settle ((acknowledge env (withDefaults actionOptions);; mret RTrue) w3)
    ∧ (∀ x, x ≠ t → geometry (elementAt w3 x) = geometry (elementAt w2 x))
    ∧ geometry (elementAt w3 t) = geometry (scrollElement k (elementAt w2 t))
    ∧ (k = Bottom → 0 ≤ clientHeight (elementAt w2 t) →
       scrollTop (elementAt w3 t) = maxScrollTop (elementAt w2 t))
    ∧ (NoDup (t :: rest) →
       ∀ x, x ∈ t :: rest → is_Some (dom w2 !! x) →
         classList (elementAt w3 x) = classList (applyClassesTo classes (elementAt w2 x))
         ∧ props (elementAt w3 x)
           = props (applyContentTo env (contentOf (withDefaults actionOptions) method)
                      (elementAt w2 x))).
Proof.
  intros Hpre Hreq Hconflict Hmethod Hk.
  eexists _, _. split; [reflexivity|]. split; [reflexivity|].
  split.
  { eapply executeAction_mutates; eauto using readScroll_keyword. }
  split; [intros x Hx; by apply mutate_geometry_other|].
  split; [apply mutate_geometry_first|].
  split.
  - intros -> Hheight.
    pose proof (mutate_geometry_first env classes
                  (contentOf (withDefaults actionOptions) method) Bottom t rest
                  (afterPause env (withDefaults actionOptions) w1)) as Hg.
    rewrite (geometry_scrollTop _ _ Hg). by apply scrollElement_bottom.
  - intros Hnodup x Hx Hpage. by apply mutate_classes_content.
Qed.

Lemma scroll_moves_first_target_only_witness :
  preamble Fixture.env 0%nat (withDefaults (Fixture.firstOptions Fixture.scrolling))
    (Fixture.before Fixture.scrolling)
    = (Fixture.before Fixture.scrolling, Next [1%nat; 2%nat])
  ∧ readClassRequest (withDefaults (Fixture.firstOptions Fixture.scrolling))
    = Some (ClassRequest ["seen"] [] [] [])
  ∧ classesIntersect (ClassRequest ["seen"] [] [] []) = false
  ∧ validContentMethod
      (sanitizeValue
         (orStr (opt (withDefaults (Fixture.firstOptions Fixture.scrolling))
                   "contentMethod") "innerHTML"))
    = Some "innerHTML"
  ∧ scrollKeyword
      (sanitizeValue
         (orNull (opt (withDefaults (Fixture.firstOptions Fixture.scrolling)) "scrollTo")))
    = Some Bottom
  ∧ ∃ w2 w3,
      w2 = Fixture.before Fixture.scrolling
      ∧ w3 = Fixture.scrolled
      ∧ scrollTop (elementAt w3 1%nat) = maxScrollTop (elementAt w2 1%nat)
      ∧ geometry (elementAt w3 2%nat) = geometry (elementAt w2 2%nat).
Proof.
  assert (preamble Fixture.env 0%nat
            (withDefaults (Fixture.firstOptions Fixture.scrolling))
            (Fixture.before Fixture.scrolling)
          = (Fixture.before Fixture.scrolling, Next [1%nat; 2%nat]))
    as H1 by (by vm_compute).
  assert (readClassRequest (withDefaults (Fixture.firstOptions Fixture.scrolling))
          = Some (ClassRequest ["seen"] [] [] []))
    as H2 by (by vm_compute).
  assert (classesIntersect (ClassRequest ["seen"] [] [] []) = false)
    as H3 by (by vm_compute).
  assert (validContentMethod
            (sanitizeValue
               (orStr (opt (withDefaults (Fixture.firstOptions Fixture.scrolling))
                         "contentMethod") "innerHTML"))
          = Some "innerHTML") as H4 by (by vm_compute).
  assert (scrollKeyword
            (sanitizeValue
               (orNull (opt (withDefaults (Fixture.firstOptions Fixture.scrolling))
                          "scrollTo")))
          = Some Bottom) as H5 by (by vm_compute).
  repeat (split; [assumption|]).
  destruct (scroll_moves_first_target_only Fixture.env 0%nat
              (Fixture.firstOptions Fixture.scrolling)
              (Fixture.before Fixture.scrolling) (Fixture.before Fixture.scrolling)
              1%nat [2%nat] (ClassRequest ["seen"] [] [] []) "innerHTML" Bottom
              H1 H2 H3 H4 H5)
    as (w2 & w3 & Hw2 & Hw3 & _ & Hother & _ & Hbottom & _).
  exists w2, w3.
  split; [rewrite Hw2; by vm_compute|].
  split; [rewrite Hw3, Hw2; by vm_compute|].
  split.
  - apply Hbottom; [done|]. rewrite Hw2. by vm_compute.
  - by apply Hother.
Defined.

(** The same step evaluated on the page of two panels of height 500 in a
    box of height 100: the first panel ends at offset 400, the second
    stays at 0, and both have the new class and content. *)
Example scrolling_step_on_two_panels :
  (scrollTop <$> Fixture.afterClick Fixture.scrolling !! 1%nat) = Some 400
  ∧ (scrollTop <$> Fixture.afterClick Fixture.scrolling !! 2%nat) = Some 0
  ∧ (classList <$> Fixture.afterClick Fixture.scrolling !! 1%nat)
    = Some ["a"; "b"; "seen"]
  ∧ (classList <$> Fixture.afterClick Fixture.scrolling !! 2%nat) = Some ["b"; "seen"]
  ∧ (getProp "innerHTML" <$> Fixture.afterClick Fixture.scrolling !! 1%nat) = Some "A!"
  ∧ (getProp "innerHTML" <$> Fixture.afterClick Fixture.scrolling !! 2%nat) = Some "B!".
Proof. repeat split; by vm_compute. Qed.

(* ===================================================================== *)
(** * What a step adds to the trace *)
(* ===================================================================== *)

Lemma appends_mret {A} (a : A) : appends (mret a).
Proof. intros w. exists []. by rewrite app_nil_r. Qed.

Lemma appends_stop {A} o : appends (@stop A o).
Proof. intros w. exists []. by rewrite app_nil_r. Qed.

Lemma appends_emit e : quiet e → appends (emit e).
Proof. intros He w. exists [e]. split; [done|]. by constructor. Qed.

Lemma appends_ask {A} (f : world → gmap elem element * A) : appends (ask f).
Proof. intros w. exists []. by rewrite app_nil_r. Qed.

Lemma appends_wait f : appends (wait f).
Proof. intros w. exists []. by rewrite app_nil_r. Qed.

Lemma appends_update f : (∀ w, trace (f w) = trace w) → appends (update f).
Proof. intros Hf w. exists []. cbn. by rewrite Hf, app_nil_r. Qed.

Lemma appends_bind {A B} (m : action A) (k : A → action B) :
  appends m → (∀ a, appends (k a)) → appends (m ≫= k).
Proof.
  intros Hm Hk w. destruct (Hm w) as (tr1 & Htr1 & Hq1).
  unfold mbind, action_bind. destruct (m w) as [w' [a|o]]; cbn in *.
  - destruct (Hk a w') as (tr2 & Htr2 & Hq2). exists (tr1 ++ tr2).
    rewrite Htr2, Htr1, <- (assoc_L (++)). split; [done|]. by apply Forall_app.
  - by exists tr1.
Qed.

Ltac appends :=
  repeat first
    [ apply appends_mret
    | apply appends_stop
    | apply appends_ask
    | apply appends_wait
    | apply appends_emit; exact I
    | apply appends_bind; [|intros ?]
    | match goal with
      | |- appends (match ?x with _ => _ end) => destruct x
      end ].

Lemma appends_selectInto env selector query message targetElements :
  appends (selectInto env selector query message targetElements).
Proof.
  unfold selectInto. destruct (truthy selector); [|apply appends_mret].
  intros w. destruct (query _ w).
  - exists []. by rewrite app_nil_r.
  - exists [EWarn message selector]. split; [done|]. by constructor.
Qed.

Lemma appends_resolveTargets env el options : appends (resolveTargets env el options).
Proof.
  unfold resolveTargets.
  destruct (sanitizeValue (orNull (opt options "target")));
    destruct (sanitizeValue (orNull (opt options "targetChildren")));
    try apply appends_mret;
    (apply appends_bind; [|intros ?]); apply appends_selectInto.
Qed.

Lemma appends_evaluate env why v el targetElements :
  appends (evaluate env why v el targetElements).
Proof. unfold evaluate. appends. Qed.

Lemma appends_call env why f el targetElements :
  appends (call env why f el targetElements).
Proof. unfold call. appends. Qed.

Lemma appends_checkCondition env el options targetElements :
  appends (checkCondition env el options targetElements).
Proof.
  unfold checkCondition. destruct (truthy _); [|apply appends_mret].
  destruct (sanitizeValue _);
    (apply appends_bind; [apply appends_evaluate || apply appends_call|intros ?]);
    appends.
Qed.

Lemma appends_checkConditionAction env el options targetElements :
  appends (checkConditionAction env el options targetElements).
Proof.
  unfold checkConditionAction. destruct (truthy _); [|apply appends_mret].
  apply appends_bind.
  - destruct (sanitizeValue _); try apply appends_mret.
    apply appends_bind; [apply appends_call|intros ?]. appends.
  - intros _. apply appends_bind; [apply appends_evaluate|intros ?]. appends.
Qed.

Lemma appends_askConfirmation env options : appends (askConfirmation env options).
Proof. unfold askConfirmation. destruct (truthy _); appends. Qed.

Lemma appends_runExecute env el options targetElements :
  appends (runExecute env el options targetElements).
Proof.
  unfold runExecute. destruct (truthy _); [|apply appends_mret].
  destruct (sanitizeValue _);
    (apply appends_bind; [apply appends_evaluate || apply appends_call|intros ?]);
    appends.
Qed.

Lemma appends_preamble env el options : appends (preamble env el options).
Proof.
  unfold preamble.
  apply appends_bind; [apply appends_resolveTargets|intros ?].
  apply appends_bind; [apply appends_checkCondition|intros ?].
  apply appends_bind; [apply appends_checkConditionAction|intros ?].
  apply appends_bind; [apply appends_askConfirmation|intros ?].
  apply appends_bind; [apply appends_runExecute|intros ?].
  apply appends_mret.
Qed.

Lemma trace_onTargets f targetElements w : trace (onTargets f targetElements w) = trace w.
Proof. done. Qed.

Lemma trace_mutate env classes content scrollTo targetElements w :
  trace (mutate env classes content scrollTo targetElements w) = trace w.
Proof. unfold mutate, applyScroll. by destruct scrollTo, targetElements. Qed.

Lemma appends_effects env options targetElements :
  appends (effects env options targetElements).
Proof.
  unfold effects.
  apply appends_bind; [unfold readClasses; appends|intros ?].
  apply appends_bind; [unfold readContent; appends|intros ?].
  apply appends_bind; [unfold readScroll; appends|intros ?].
  apply appends_bind; [unfold pause; appends|intros ?].
  apply appends_bind; [apply appends_update, trace_mutate|intros ?].
  apply appends_bind; [unfold acknowledge; appends|intros ?].
  apply appends_mret.
Qed.

(** [executeAction] only appends to the trace, and only events of the
    step itself. *)
Lemma executeAction_appends env el options w :
  ∃ tr, trace (executeAction env el options w).1 = trace w ++ tr ∧ Forall quiet tr.
Proof.
  unfold executeAction.
  assert (appends (targetElements ← preamble env el (withDefaults options);
                   effects env (withDefaults options) targetElements)) as H.
  { apply appends_bind; [apply appends_preamble|intros ?; apply appends_effects]. }
  destruct (H w) as (tr & Htr & Hq). exists tr. split; [|done].
  rewrite <- Htr.
  match goal with |- context [settle ?r] => by destruct r as [? []] end.
Qed.


(* ===================================================================== *)
(** * Properties of the sequence *)
(* ===================================================================== *)



Section Splash.
Context (env : Env).

Lemma hideSplash_spec st :
  conditionMet (hideSplash st) = conditionMet st
  ∧ dom (hworld (hideSplash st)) = dom (hworld st)
  ∧ ∃ tr, trace (hworld (hideSplash st)) = trace (hworld st) ++ tr
          ∧ Forall splashEvent tr.
Proof.
  unfold hideSplash. destruct (splashDlg st); cbn.
  - repeat split. exists [ESplashHide]. split; [done|]. by repeat constructor.
  - repeat split. exists []. by rewrite app_nil_r.
Qed.

Lemma showSplash_spec content st :
  conditionMet (showSplash env content st) = conditionMet st
  ∧ dom (hworld (showSplash env content st)) = dom (hworld st)
  ∧ ∃ tr, trace (hworld (showSplash env content st)) = trace (hworld st) ++ tr
          ∧ Forall splashEvent tr.
Proof.
  destruct (hideSplash_spec st) as (Hc & Hd & tr & Htr & Hs).
  unfold showSplash. cbn. repeat split; [done..|].
  exists (tr ++ [ESplashShow content]).
  rewrite Htr, <- (assoc_L (++)). split; [done|].
  apply Forall_app. split; [done|]. by repeat constructor.
Qed.

Lemma showSplashIf_spec options st :
  conditionMet (showSplashIf env options st) = conditionMet st
  ∧ dom (hworld (showSplashIf env options st)) = dom (hworld st)
  ∧ ∃ tr, trace (hworld (showSplashIf env options st)) = trace (hworld st) ++ tr
          ∧ Forall splashEvent tr.
Proof.
  unfold showSplashIf. destruct (_ && _); [apply showSplash_spec|].
  repeat split. exists []. by rewrite app_nil_r.
Qed.

Lemma showSplashIf_gated options st :
  truthyRet (conditionMet st) = false → showSplashIf env options st = st.
Proof. intros H. unfold showSplashIf. by rewrite H. Qed.

Lemma afterStep_spec el prefix pos st w r :
  conditionMet (afterStep env el prefix pos st w r)
    = (if keepsResult pos then r else conditionMet st)
  ∧ dom (hworld (afterStep env el prefix pos st w r)) = dom w
  ∧ ∃ tr, trace (hworld (afterStep env el prefix pos st w r)) = trace w ++ tr
          ∧ Forall splashEvent tr.
Proof.
  unfold afterStep. cbv zeta.
  set (st1 := HState w (splashDlg st) (if keepsResult pos then r else conditionMet st)).
  match goal with
  | |- context [showSplashIf env ?o (if ?c then _ else _)] =>
      generalize c; intros clearSplash;
      destruct (showSplashIf_spec o (if clearSplash then hideSplash st1 else st1))
        as (Hc & Hd & tr' & Htr' & Hs')
  end.
  rewrite Hc, Hd, Htr'.
  destruct (hideSplash_spec st1) as (Hc1 & Hd1 & tr1 & Htr1 & Hs1).
  destruct clearSplash.
  - rewrite Hc1, Hd1, Htr1. repeat split.
    exists (tr1 ++ tr'). rewrite <- (assoc_L (++)). split; [done|]. by apply Forall_app.
  - repeat split. by exists tr'.
Qed.

End Splash.

Section Sequence.
Context (env : Env) (el : elem) (eventType prefix : string).




Lemma closingStep_after_step pos st w r :
  keepsResult pos = false →
  presentAt env el prefix pos st = true →
  executeAction env el (optionsAt env el prefix pos st) (startOf pos st)
    = (w, Returns r) →
  closingStep env el prefix (stepOf pos)
    (match pos with AtLast => "-last" | _ => "-finally" end) st
    = Continue (afterStep env el prefix pos st w r).
Proof.
  unfold presentAt, optionsAt, startOf. intros Hkeeps Hpresent Hexec.
  destruct pos; try done; unfold nameAt, stepOf in *;
    unfold closingStep; cbv zeta; rewrite Hpresent, Hexec;
    unfold afterStep; cbv beta iota zeta delta [keepsResult nameAt]; reflexivity.
Qed.

Lemma closingStep_throws pos st w :
  keepsResult pos = false →
  presentAt env el prefix pos st = true →
  executeAction env el (optionsAt env el prefix pos st) (startOf pos st)
    = (w, Throws) →
  closingStep env el prefix (stepOf pos)
    (match pos with AtLast => "-last" | _ => "-finally" end) st
    = Crash w.
Proof.
  unfold presentAt, optionsAt, startOf. intros Hkeeps Hpresent Hexec.
  destruct pos; try done; unfold nameAt, stepOf in *;
    unfold closingStep; cbv zeta; rewrite Hpresent, Hexec; reflexivity.
Qed.

Lemma closingStep_absent pos st :
  keepsResult pos = false →
  presentAt env el prefix pos st = false →
  closingStep env el prefix (stepOf pos)
    (match pos with AtLast => "-last" | _ => "-finally" end) st
    = Continue st.
Proof.
  unfold presentAt. intros Hkeeps Hpresent.
  destruct pos; try done; unfold nameAt, stepOf in *;
    unfold closingStep; cbv zeta; rewrite Hpresent; reflexivity.
Qed.






End Sequence.

(** ** Steps that close the gate *)






(** The record a step of the listener is run with already holds the
    defaults. *)
Lemma optionsAt_merged env el prefix pos st :
  withDefaults (optionsAt env el prefix pos st) = optionsAt env el prefix pos st.
Proof. apply withDefaults_idemp. Qed.


(** ** C1 *)




(** The sequences of the specification, evaluated: a false condition and
    a cancelled confirmation at step 1 lead straight to the [finally]
    step. *)
Example click_on_gated_sequences :
  Fixture.clickTrace Fixture.gatedAtOne
    = [EPreventDefault; EStopPropagation; EStep First; EStep (Numbered 1);
       EEval ForCondition "false"; EStep Finally]
  ∧ Fixture.clickTrace Fixture.cancelledAtOne
    = [EPreventDefault; EStopPropagation; EStep First; EStep (Numbered 1);
       EConfirm (VStr "Sure?") (VStr "OK") (VStr "Cancel"); EStep Finally].
Proof. split; by vm_compute. Qed.

(** The result of the [last] step is not looked at either. *)
Example click_with_failed_condition_of_last_step :
  Fixture.clickTrace Fixture.gatedAtLast
    = [EPreventDefault; EStopPropagation; EStep Last; EEval ForCondition "false";
       ENative 7].
Proof. by vm_compute. Qed.

(** ** C9 *)




(** The same method on the first step, evaluated: nothing runs after it
    but the [finally] step. *)
Example click_with_invalid_content_method_of_first_step :
  Fixture.clickTrace Fixture.badMethodFirst
    = [EPreventDefault; EStopPropagation; EStep First;
       EWarn "Invalid content method" (VStr "outerHTML"); EStep Finally].
Proof. by vm_compute. Qed.

(** ** C2 *)




(** The same sequence evaluated: step 1 is skipped, its confirmation is
    not asked, and the steps 2, [last] and [finally] and the inline
    handler follow. *)
Example click_with_skipped_step :
  Fixture.clickTrace Fixture.skippedAtOne
    = [EPreventDefault; EStopPropagation; EStep (Numbered 1);
       EEval ForConditionAction "false"; EStep (Numbered 2); EStep Last;
       EStep Finally; ENative 7]
  ∧ (classList <$> Fixture.afterClick Fixture.skippedAtOne !! 0%nat)
    = Some ["x"; "y"; "fin"].
Proof. split; by vm_compute. Qed.

(* ===================================================================== *)
(** * Properties of the name conversions *)
(* ===================================================================== *)

Lemma chars_str l : Js.chars (Js.str l) = l.
Proof. apply String.list_ascii_of_string_of_list_ascii. Qed.

Lemma str_chars s : Js.str (Js.chars s) = s.
Proof. apply String.string_of_list_ascii_of_string. Qed.

Ltac each_char c :=
  destruct c as [[] [] [] [] [] [] [] []]; vm_compute; try done.

Lemma isUpper_lowerChar c : Js.isUpper (Js.lowerChar c) = false.
Proof. each_char c. Qed.

Lemma isDash_spec c : Js.isDash c = true ↔ c = "-"%char.
Proof. unfold Js.isDash. by rewrite bool_decide_eq_true. Qed.

Lemma isDash_false c : Js.isDash c = false ↔ c ≠ "-"%char.
Proof. unfold Js.isDash. by rewrite bool_decide_eq_false. Qed.

Lemma dashUpper_cons c l :
  Js.dashUpper (c :: l)
    = (if Js.isUpper c then ["-"%char; Js.lowerChar c] else [c]) ++ Js.dashUpper l.
Proof. done. Qed.

Lemma dashUpper_lower_case l : Forall (λ c, Js.isUpper c = false) (Js.dashUpper l).
Proof.
  induction l as [|c l IH]; [constructor|].
  rewrite dashUpper_cons. apply Forall_app. split; [|done].
  destruct (Js.isUpper c) eqn:Hc; repeat constructor; try done.
  apply isUpper_lowerChar.
Qed.

Lemma collapseDashes_Forall (P : ascii → Prop) inRun l :
  Forall P l → Forall P (Js.collapseDashes inRun l).
Proof.
  intros H. revert inRun. induction H as [|c l Hc Hl IH]; intros inRun; [constructor|].
  cbn. destruct (Js.isDash c); [destruct inRun|]; cbn; auto.
Qed.

(** The dashes [dropDashes] removes stand in front of what it returns. *)
Lemma dropDashes_suffix l : ∃ k, l = k ++ Js.dropDashes l.
Proof.
  induction l as [|c l [k IH]]; [by exists []|].
  cbn. destruct (Js.isDash c); [|by exists []].
  exists (c :: k). cbn. by rewrite <- IH.
Qed.

Lemma dropDashes_head l : head (Js.dropDashes l) ≠ Some "-"%char.
Proof.
  induction l as [|c l IH]; [done|].
  cbn. destruct (Js.isDash c) eqn:Hc; [done|].
  cbn. intros [= ->]. by apply isDash_false in Hc.
Qed.

(** What [stripDashes] returns stands in the middle of its argument. *)
Lemma stripDashes_infix l : ∃ k1 k2, l = k1 ++ Js.stripDashes l ++ k2.
Proof.
  unfold Js.stripDashes.
  destruct (dropDashes_suffix l) as [k1 H1].
  destruct (dropDashes_suffix (reverse (Js.dropDashes l))) as [k2 H2].
  exists k1, (reverse k2).
  rewrite <- reverse_app, <- H2, reverse_involutive. exact H1.
Qed.

Lemma stripDashes_head l : head (Js.stripDashes l) ≠ Some "-"%char.
Proof.
  unfold Js.stripDashes.
  destruct (dropDashes_suffix (reverse (Js.dropDashes l))) as [k2 H2].
  apply (f_equal reverse) in H2. rewrite reverse_involutive, reverse_app in H2.
  destruct (reverse (Js.dropDashes (reverse (Js.dropDashes l)))) as [|c r] eqn:Hr;
    [done|].
  cbn. intros [= ->].
  apply (dropDashes_head l). by rewrite H2.
Qed.

Lemma stripDashes_last l : last (Js.stripDashes l) ≠ Some "-"%char.
Proof.
  unfold Js.stripDashes. rewrite last_reverse. apply dropDashes_head.
Qed.

Lemma collapseDashes_single inRun l l1 l2 :
  Js.collapseDashes inRun l ≠ l1 ++ "-"%char :: "-"%char :: l2
  ∧ (inRun = true → head (Js.collapseDashes inRun l) ≠ Some "-"%char).
Proof.
  revert inRun l1. induction l as [|c l IH]; intros inRun l1.
  { cbn. split; [by destruct l1|done]. }
  cbn. destruct (Js.isDash c) eqn:Hc.
  - apply isDash_spec in Hc as ->. destruct inRun; cbn.
    + apply IH.
    + split; [|done]. destruct l1 as [|x l1]; cbn.
      * intros [= H]. by apply (proj2 (IH true []) eq_refl); rewrite H.
      * intros [= _ H]. by apply (proj1 (IH true l1)).
  - apply isDash_false in Hc. split.
    + destruct l1 as [|x l1]; cbn; [by intros [= ->]|].
      intros [= _ H]. by apply (proj1 (IH false l1)).
    + intros _. cbn. by intros [= ->].
Qed.

(** X1.  Whatever the name, what [camelToSnakeCase] returns has no
    capital letter, does not start with a dash, does not end with a dash
    and has no two dashes in a row. *)
Theorem camelToSnakeCase_normal_form s :
  Forall (λ c, Js.isUpper c = false) (Js.chars (Js.camelToSnakeCase s))
  ∧ head (Js.chars (Js.camelToSnakeCase s)) ≠ Some "-"%char
  ∧ last (Js.chars (Js.camelToSnakeCase s)) ≠ Some "-"%char
  ∧ ∀ l1 l2, Js.chars (Js.camelToSnakeCase s) ≠ l1 ++ "-"%char :: "-"%char :: l2.
Proof.
  unfold Js.camelToSnakeCase. rewrite chars_str.
  set (m := Js.collapseDashes false _).
  destruct (stripDashes_infix m) as (k1 & k2 & Hm).
  split; [|split; [apply stripDashes_head|split; [apply stripDashes_last|]]].
  - assert (Forall (λ c, Js.isUpper c = false) m) as H.
    { apply collapseDashes_Forall, dashUpper_lower_case. }
    rewrite Hm in H. by apply Forall_app in H as [_ [H _]%Forall_app].
  - intros l1 l2 H.
    apply (proj1 (collapseDashes_single false
                    (Js.dashUpper (Js.dashDigits false (Js.chars s)))
                    (k1 ++ l1) (l2 ++ k2))).
    fold m. rewrite Hm at 1. rewrite H. by rewrite <- !(assoc_L (++)).
Qed.

(** ** Round trip *)

Lemma letter_not_digit c :
  Js.isLower c || Js.isUpper c = true → Js.isDigit c = false.
Proof. each_char c. Qed.

Lemma letter_not_dash c :
  Js.isLower c || Js.isUpper c = true → Js.isDash c = false.
Proof. each_char c. Qed.

Lemma isDash_lowerChar c : Js.isUpper c = true → Js.isDash (Js.lowerChar c) = false.
Proof. each_char c. Qed.

Lemma isLower_lowerChar c : Js.isUpper c = true → Js.isLower (Js.lowerChar c) = true.
Proof. each_char c. Qed.

Lemma upperChar_lowerChar c : Js.isUpper c = true → Js.upperChar (Js.lowerChar c) = c.
Proof. each_char c. Qed.

Lemma dashDigits_letters inRun l :
  Forall (λ c, Js.isLower c || Js.isUpper c = true) l → Js.dashDigits inRun l = l.
Proof.
  intros H. revert inRun. induction H as [|c l Hc Hl IH]; intros inRun; [done|].
  cbn. rewrite (letter_not_digit c Hc). by rewrite IH.
Qed.

Lemma collapseDashes_dashUpper l :
  Forall (λ c, Js.isLower c || Js.isUpper c = true) l →
  Js.collapseDashes false (Js.dashUpper l) = Js.dashUpper l.
Proof.
  induction 1 as [|c l Hc Hl IH]; [done|].
  pose proof (letter_not_dash c Hc) as Hd.
  rewrite dashUpper_cons. destruct (Js.isUpper c) eqn:Hu; cbn.
  - rewrite (isDash_lowerChar c Hu). cbn. by rewrite IH.
  - rewrite Hd. by rewrite IH.
Qed.

Lemma dashLower_dashUpper l :
  Forall (λ c, Js.isLower c || Js.isUpper c = true) l →
  Js.dashLower (Js.dashUpper l) = l.
Proof.
  induction 1 as [|c l Hc Hl IH]; [done|].
  pose proof (letter_not_dash c Hc) as Hd.
  rewrite dashUpper_cons. destruct (Js.isUpper c) eqn:Hu; cbn.
  - rewrite (isLower_lowerChar c Hu), (upperChar_lowerChar c Hu). by rewrite IH.
  - rewrite Hd. by rewrite IH.
Qed.

Lemma dropDashes_id l : head l ≠ Some "-"%char → Js.dropDashes l = l.
Proof.
  destruct l as [|c l]; [done|]. cbn. intros H.
  destruct (Js.isDash c) eqn:Hc; [|done].
  apply isDash_spec in Hc as ->. done.
Qed.

Lemma dashUpper_last l :
  Forall (λ c, Js.isLower c || Js.isUpper c = true) l →
  last (Js.dashUpper l) ≠ Some "-"%char.
Proof.
  intros H. destruct l as [|c l] using rev_ind; [done|].
  apply Forall_app in H as [_ [Hc _]%Forall_cons].
  pose proof (letter_not_dash c Hc) as Hd.
  unfold Js.dashUpper. rewrite bind_app. cbn. rewrite app_nil_r.
  destruct (Js.isUpper c) eqn:Hu.
  - rewrite (assoc_L (++) _ ["-"%char] [Js.lowerChar c]), last_snoc.
    intros [= H]. pose proof (isDash_lowerChar c Hu) as Hd'.
    apply isDash_false in Hd'. done.
  - rewrite last_snoc. intros [= ->]. done.
Qed.

Lemma stripDashes_dashUpper l :
  Forall (λ c, Js.isLower c || Js.isUpper c = true) l →
  (∀ c, head l = Some c → Js.isUpper c = false) →
  Js.stripDashes (Js.dashUpper l) = Js.dashUpper l.
Proof.
  intros Hl Hhead. unfold Js.stripDashes.
  rewrite (dropDashes_id (Js.dashUpper l)).
  - rewrite dropDashes_id; [apply reverse_involutive|].
    rewrite head_reverse. by apply dashUpper_last.
  - destruct l as [|c l]; [done|].
    rewrite dashUpper_cons, (Hhead c eq_refl). cbn. intros [= ->].
    apply Forall_cons in Hl as [Hc _]. by pose proof (letter_not_dash _ Hc).
Qed.

(** X2.  For every name made of letters that does not start with a
    capital letter, [snakeToCamelCase] gives back the name that
    [camelToSnakeCase] has converted. *)
Theorem snakeToCamelCase_camelToSnakeCase s :
  Forall (λ c, Js.isLower c || Js.isUpper c = true) (Js.chars s) →
  (∀ c, head (Js.chars s) = Some c → Js.isUpper c = false) →
  Js.snakeToCamelCase (Js.camelToSnakeCase s) = s.
Proof.
  intros Hl Hhead. unfold Js.snakeToCamelCase, Js.camelToSnakeCase.
  rewrite chars_str, dashDigits_letters, collapseDashes_dashUpper by done.
  rewrite stripDashes_dashUpper, dashLower_dashUpper by done.
  apply str_chars.
Qed.

Lemma snakeToCamelCase_camelToSnakeCase_witness :
  Forall (λ c, Js.isLower c || Js.isUpper c = true) (Js.chars "contentMethod")
  ∧ (∀ c, head (Js.chars "contentMethod") = Some c → Js.isUpper c = false)
  ∧ Js.camelToSnakeCase "contentMethod" = "content-method"
  ∧ Js.snakeToCamelCase (Js.camelToSnakeCase "contentMethod") = "contentMethod".
Proof.
  assert (Forall (λ c, Js.isLower c || Js.isUpper c = true) (Js.chars "contentMethod"))
    as H1 by (by repeat constructor).
  assert (∀ c, head (Js.chars "contentMethod") = Some c → Js.isUpper c = false)
    as H2 by (by intros c [= <-]).
  exact (conj H1 (conj H2 (conj eq_refl
           (snakeToCamelCase_camelToSnakeCase "contentMethod" H1 H2)))).
Defined.

(* ===================================================================== *)
(** * Steps that exist *)
(* ===================================================================== *)

Lemma stepOptions_outside env el name w key :
  key ∉ defaultActionOptions.*1 → stepOptions env el name w !! key = None.
Proof.
  intros Hout. unfold stepOptions, getElementOptions.
  rewrite read_schema_other by done. apply lookup_empty.
Qed.

Lemma stepOptions_inside env el name w key dflt :
  (key, dflt) ∈ defaultActionOptions →
  stepOptions env el name w !! key
    = coerce env dflt <$> attributes (elementAt w el) !! ("data-" +:+ attributeName name key).
Proof.
  intros Hin. unfold stepOptions, getElementOptions.
  rewrite (read_schema_entry _ _ _ _ _ _ _ dflt defaultActionOptions_NoDup Hin).
  unfold attributeValue. destruct (attributes _ !! _); [done|apply lookup_empty].
Qed.

(** X3.  The listener finds a step under a name exactly when the element
    carries at least one attribute of that step, whatever its text, the
    empty text included. *)
Theorem step_present_iff_attribute env el name w :
  present (stepOptions env el name w) = true
  ↔ hasStepAttribute (elementAt w el) name.
Proof.
  unfold present, hasStepAttribute. rewrite bool_decide_eq_true.
  generalize (stepOptions_outside env el name w).
  generalize (stepOptions_inside env el name w).
  generalize (stepOptions env el name w). intros options Hinside Houtside.
  split.
  - intros Hsize.
    assert (options ≠ ∅) as Hne.
    { intros Heq. rewrite Heq, map_size_empty in Hsize. lia. }
    apply map_choose in Hne as (key & v & Hkey).
    destruct (decide (key ∈ defaultActionOptions.*1)) as [Hin|Hout].
    + exists key. split; [exact Hin|].
      apply list_elem_of_fmap in Hin as [[key' dflt] [-> Hin]].
      cbn [fst] in *. rewrite (Hinside _ _ Hin) in Hkey.
      destruct (attributes _ !! _); [by eexists|discriminate].
    + rewrite (Houtside _ Hout) in Hkey. discriminate.
  - intros (key & Hin & [v Hv]).
    apply list_elem_of_fmap in Hin as [[key' dflt] [-> Hin]].
    pose proof (Hinside _ _ Hin) as Hkey. cbn [fst] in Hv. rewrite Hv in Hkey.
    assert (size options ≠ 0%nat) as Hsize; [|lia].
    apply map_size_non_empty_iff. intros Heq. rewrite Heq in Hkey. discriminate.
Qed.

(* ===================================================================== *)
(** * Sequences with missing steps *)
(* ===================================================================== *)

Lemma present_empty : present ∅ = false.
Proof. unfold present. by rewrite map_size_empty. Qed.

Lemma stepOptions_no_attribute env el name w :
  (∀ key, attributes (elementAt w el) !! ("data-" +:+ attributeName name key) = None) →
  stepOptions env el name w = ∅.
Proof.
  intros Hnone. apply map_eq. intros key. rewrite lookup_empty.
  destruct (decide (key ∈ defaultActionOptions.*1)) as [Hin|Hout].
  - apply list_elem_of_fmap in Hin as [[key' dflt] [-> Hin]]. cbn [fst].
    by rewrite (stepOptions_inside _ _ _ _ _ _ Hin), Hnone.
  - by apply stepOptions_outside.
Qed.

Lemma quiet_not_numberedStep e : quiet e → ¬ numberedStep e.
Proof. destruct e; cbn; tauto. Qed.

Lemma splashEvent_not_numberedStep e : splashEvent e → ¬ numberedStep e.
Proof. destruct e; cbn; tauto. Qed.

Section Gaps.
Context (env : Env) (el : elem) (eventType prefix : string).

Lemma numberedSteps_absent fuel i st :
  presentAt env el prefix (AtNumbered i) st = false →
  numberedSteps env el prefix fuel i st = Continue st.
Proof.
  unfold presentAt, nameAt. intros Hpresent.
  destruct fuel; cbn [numberedSteps]; cbv zeta; rewrite Hpresent;
    by destruct (truthyRet _).
Qed.

Lemma firstStep_absent st :
  presentAt env el prefix AtFirst st = false → firstStep env el prefix st = Continue st.
Proof.
  unfold presentAt, nameAt. intros Hpresent.
  unfold firstStep. cbv zeta. by rewrite Hpresent.
Qed.

(** What a closing step adds to the trace. *)
Lemma closingStep_trace pos st :
  keepsResult pos = false →
  timedOut (closingStep env el prefix (stepOf pos)
              (match pos with AtLast => "-last" | _ => "-finally" end) st) = false
  ∧ ∃ tr,
      trace (finalWorld (closingStep env el prefix (stepOf pos)
                           (match pos with AtLast => "-last" | _ => "-finally" end) st))
        = trace (hworld st) ++ tr
      ∧ Forall (λ e, ¬ numberedStep e) tr.
Proof.
  intros Hkeeps.
  destruct (presentAt env el prefix pos st) eqn:Hpresent.
  - destruct (executeAction_appends env el
                (optionsAt env el prefix pos st) (startOf pos st))
      as (tr & Htr & Hq).
    destruct (executeAction env el (optionsAt env el prefix pos st)
                (startOf pos st)) as [w [r|]] eqn:Hexec;
      unfold fst in Htr; unfold startOf, log in Htr; unfold trace at 2 in Htr.
    + rewrite (closingStep_after_step env el prefix pos st w r Hkeeps Hpresent Hexec).
      destruct (afterStep_spec env el prefix pos st w r)
        as (_ & _ & tr' & Htr' & Hs').
      split; [reflexivity|].
      exists (EStep (stepOf pos) :: tr ++ tr'). unfold finalWorld.
      rewrite Htr', Htr, <- !(assoc_L (++)). split; [reflexivity|].
      constructor; [destruct pos; try discriminate Hkeeps; by intros []|].
      apply Forall_app. split.
      * eapply Forall_impl; [exact Hq|]. apply quiet_not_numberedStep.
      * eapply Forall_impl; [exact Hs'|]. apply splashEvent_not_numberedStep.
    + rewrite (closingStep_throws env el prefix pos st w Hkeeps Hpresent Hexec).
      split; [reflexivity|].
      exists (EStep (stepOf pos) :: tr). unfold finalWorld.
      rewrite Htr, <- (assoc_L (++)). split; [reflexivity|].
      constructor; [destruct pos; try discriminate Hkeeps; by intros []|].
      eapply Forall_impl; [exact Hq|]. apply quiet_not_numberedStep.
  - rewrite (closingStep_absent env el prefix pos st Hkeeps Hpresent).
    split; [reflexivity|]. exists []. unfold finalWorld. rewrite app_nil_r.
    split; [reflexivity|constructor].
Qed.

Lemma replayNative_trace st :
  timedOut (replayNative env el eventType st) = false
  ∧ ∃ tr,
      trace (finalWorld (replayNative env el eventType st)) = trace (hworld st) ++ tr
      ∧ Forall (λ e, ¬ numberedStep e) tr.
Proof.
  unfold replayNative.
  destruct (_eventActions _) as [ea|]; [destruct (objRead eventType ea) as [|h|t]|].
  - split; [done|]. exists []. by rewrite app_nil_r.
  - destruct (callNative env h el _) as [d []]; (split; [done|]);
      exists [ENative h]; (split; [done|]); (constructor; [by intros []|constructor]).
  - split; [done|]. exists []. by rewrite app_nil_r.
  - split; [done|]. exists []. by rewrite app_nil_r.
Qed.

(** A run that goes through two stages adds what both add. *)
Lemma andThen_trace (P : event → Prop) p k w :
  (timedOut p = false ∧ ∃ tr, trace (finalWorld p) = trace w ++ tr ∧ Forall P tr) →
  (∀ st, timedOut (k st) = false
         ∧ ∃ tr, trace (finalWorld (k st)) = trace (hworld st) ++ tr ∧ Forall P tr) →
  timedOut (andThen p k) = false
  ∧ ∃ tr, trace (finalWorld (andThen p k)) = trace w ++ tr ∧ Forall P tr.
Proof.
  intros (Hfuel & tr & Htr & Hp) Hk. destruct p as [st|w'|w']; [|by eauto..].
  unfold andThen. destruct (Hk st) as (Hfuel' & tr' & Htr' & Hp').
  split; [done|]. exists (tr ++ tr'). cbn in Htr.
  rewrite Htr', Htr, <- (assoc_L (++)). split; [done|]. by apply Forall_app.
Qed.

Lemma fromReplay_trace st :
  timedOut (fromReplay env el eventType prefix st) = false
  ∧ ∃ tr,
      trace (finalWorld (fromReplay env el eventType prefix st)) = trace (hworld st) ++ tr
      ∧ Forall (λ e, ¬ numberedStep e) tr.
Proof.
  unfold fromReplay. apply andThen_trace.
  - destruct (truthyRet _); [apply replayNative_trace|].
    split; [done|]. exists []. by rewrite app_nil_r.
  - intros st'. split; [done|].
    destruct (hideSplash_spec st') as (_ & _ & tr & Htr & Hs).
    exists tr. split; [done|].
    eapply Forall_impl; [exact Hs|]. apply splashEvent_not_numberedStep.
Qed.

Lemma fromFinally_trace st :
  timedOut (fromFinally env el eventType prefix st) = false
  ∧ ∃ tr,
      trace (finalWorld (fromFinally env el eventType prefix st)) = trace (hworld st) ++ tr
      ∧ Forall (λ e, ¬ numberedStep e) tr.
Proof.
  unfold fromFinally. apply andThen_trace; [|apply fromReplay_trace].
  apply (closingStep_trace AtFinally st eq_refl).
Qed.

Lemma epilogue_trace st :
  timedOut (epilogue env el eventType prefix st) = false
  ∧ ∃ tr,
      trace (finalWorld (epilogue env el eventType prefix st)) = trace (hworld st) ++ tr
      ∧ Forall (λ e, ¬ numberedStep e) tr.
Proof.
  unfold epilogue, fromLast. destruct (truthyRet _); [|apply fromFinally_trace].
  apply andThen_trace; [|apply fromFinally_trace].
  apply (closingStep_trace AtLast st eq_refl).
Qed.

End Gaps.

(** X4.  The loop over the numbered steps ends at the first index for
    which the element has no attribute.  From the point where the listener
    looks for the step [i] and does not find it, its run comes to an end
    whatever fuel the model is given, and no numbered step is run in it,
    whatever attributes the element has for later indexes. *)
Theorem numbered_steps_end_at_first_gap env el eventType prefix fuel i st :
  presentAt env el prefix (AtNumbered i) st = false →
  timedOut (resume env el eventType prefix fuel (AtNumbered i) st) = false
  ∧ ∃ tr,
      trace (finalWorld (resume env el eventType prefix fuel (AtNumbered i) st))
        = trace (hworld st) ++ tr
      ∧ Forall (λ e, ¬ numberedStep e) tr.
Proof.
  intros Hpresent. unfold resume, fromNumbered.
  rewrite (numberedSteps_absent env el prefix fuel i st Hpresent).
  apply epilogue_trace.
Qed.

Lemma numbered_steps_end_at_first_gap_witness :
  presentAt Fixture.env 0%nat "ca" (AtNumbered 2) Sample.atGap = false
  ∧ presentAt Fixture.env 0%nat "ca" (AtNumbered 3) Sample.atGap = true
  ∧ timedOut (resume Fixture.env 0%nat "click" "ca" 0 (AtNumbered 2) Sample.atGap) = false.
Proof.
  assert (presentAt Fixture.env 0%nat "ca" (AtNumbered 2) Sample.atGap = false)
    as H1 by (by vm_compute).
  assert (presentAt Fixture.env 0%nat "ca" (AtNumbered 3) Sample.atGap = true)
    as H2 by (by vm_compute).
  exact (conj H1 (conj H2
           (proj1 (numbered_steps_end_at_first_gap Fixture.env 0%nat "click" "ca" 0 2
                     Sample.atGap H1)))).
Defined.

(** X5.  On an element without any [data-] attribute, the listener
    finds no step: it prevents the default action, stops the propagation,
    calls the inline handler that was recorded, if any, and ends. *)
Theorem listener_without_steps env fuel handler w :
  (∀ name, attributes (elementAt w (l_el handler)) !! ("data-" +:+ name) = None) →
  actionHandler env fuel handler w
    = fromReplay env (l_el handler) (l_eventType handler) (l_prefix handler)
        (HState (log EStopPropagation (log EPreventDefault w)) false RTrue).
Proof.
  intros Hnone. unfold actionHandler.
  set (st := HState (log EStopPropagation (log EPreventDefault w)) false RTrue).
  assert (∀ pos, presentAt env (l_el handler) (l_prefix handler) pos st = false)
    as Habsent.
  { intros pos. unfold presentAt. rewrite stepOptions_no_attribute; [apply present_empty|].
    intros key. apply Hnone. }
  unfold fromFirst. rewrite (firstStep_absent _ _ _ _ (Habsent AtFirst)).
  unfold andThen at 1. unfold fromNumbered.
  rewrite (numberedSteps_absent _ _ _ _ _ _ (Habsent (AtNumbered 1))).
  unfold andThen at 1. unfold epilogue, fromLast, fromFinally.
  replace (truthyRet (conditionMet st)) with true by reflexivity.
  pose proof (closingStep_absent env (l_el handler) (l_prefix handler) AtLast st
                eq_refl (Habsent AtLast)) as Hlast.
  pose proof (closingStep_absent env (l_el handler) (l_prefix handler) AtFinally st
                eq_refl (Habsent AtFinally)) as Hfinally.
  unfold stepOf in Hlast, Hfinally. rewrite Hlast. unfold andThen at 1.
  rewrite Hfinally. reflexivity.
Qed.

Lemma listener_without_steps_witness :
  (∀ name, attributes (elementAt (Fixture.attached [] (SFun 7))
                         (l_el (Listener 0%nat 0%nat "click" "ca")))
             !! ("data-" +:+ name) = None)
  ∧ actionHandler Fixture.env 10 (Listener 0%nat 0%nat "click" "ca")
      (Fixture.attached [] (SFun 7))
    = fromReplay Fixture.env 0%nat "click" "ca"
        (HState (log EStopPropagation (log EPreventDefault (Fixture.attached [] (SFun 7))))
           false RTrue)
  ∧ Fixture.clickTrace [] = [EPreventDefault; EStopPropagation; ENative 7].
Proof.
  assert (∀ name, attributes (elementAt (Fixture.attached [] (SFun 7))
                                (l_el (Listener 0%nat 0%nat "click" "ca")))
                    !! ("data-" +:+ name) = None) as H1 by (intros name; reflexivity).
  assert (Fixture.clickTrace [] = [EPreventDefault; EStopPropagation; ENative 7])
    as H2 by (by vm_compute).
  exact (conj H1
           (conj (listener_without_steps Fixture.env 10 (Listener 0%nat 0%nat "click" "ca")
                    (Fixture.attached [] (SFun 7)) H1)
              H2)).
Defined.

(* ===================================================================== *)
(** * The end of a run of the listener *)
(* ===================================================================== *)

Lemma andThen_Continue p k st' :
  andThen p k = Continue st' → ∃ st, p = Continue st ∧ k st = Continue st'.
Proof. destruct p as [st| |]; [|done..]. intros H. by exists st. Qed.

Lemma splashDlg_hideSplash st : splashDlg (hideSplash st) = false.
Proof. unfold hideSplash. by destruct (splashDlg st) eqn:H. Qed.

Section Ending.
Context (env : Env) (el : elem) (eventType prefix : string).

Lemma fromReplay_hides st st' :
  fromReplay env el eventType prefix st = Continue st' → splashDlg st' = false.
Proof.
  unfold fromReplay. intros (st1 & _ & [= <-])%andThen_Continue.
  apply splashDlg_hideSplash.
Qed.

Lemma fromFinally_hides st st' :
  fromFinally env el eventType prefix st = Continue st' → splashDlg st' = false.
Proof.
  unfold fromFinally. intros (st1 & _ & H)%andThen_Continue.
  by eapply fromReplay_hides.
Qed.

Lemma epilogue_hides st st' :
  epilogue env el eventType prefix st = Continue st' → splashDlg st' = false.
Proof.
  unfold epilogue, fromLast. destruct (truthyRet _).
  - intros (st1 & _ & H)%andThen_Continue. by eapply fromFinally_hides.
  - apply fromFinally_hides.
Qed.

End Ending.

(** X6.  Whenever a run of the listener comes to its end without an
    exception, no splash dialog is left open: the variable that holds the
    dialog has been through the last hide. *)
Theorem listener_leaves_no_splash env fuel handler w st :
  actionHandler env fuel handler w = Continue st → splashDlg st = false.
Proof.
  unfold actionHandler, fromFirst, fromNumbered.
  intros (st1 & _ & (st2 & _ & H)%andThen_Continue)%andThen_Continue.
  by eapply epilogue_hides.
Qed.

Lemma listener_leaves_no_splash_witness :
  actionHandler Fixture.env 10 (Listener 0%nat 0%nat "click" "ca")
    (Fixture.attached Sample.splashing (SFun 7)) = Continue Sample.afterSplash
  ∧ trace (hworld Sample.afterSplash)
    = [EPreventDefault; EStopPropagation; EStep First; ESplashShow (VStr "wait");
       EStep (Numbered 1); ENative 7; ESplashHide]
  ∧ splashDlg Sample.afterSplash = false.
Proof.
  assert (actionHandler Fixture.env 10 (Listener 0%nat 0%nat "click" "ca")
            (Fixture.attached Sample.splashing (SFun 7)) = Continue Sample.afterSplash)
    as H1 by (by vm_compute).
  assert (trace (hworld Sample.afterSplash)
          = [EPreventDefault; EStopPropagation; EStep First; ESplashShow (VStr "wait");
             EStep (Numbered 1); ENative 7; ESplashHide]) as H2 by (by vm_compute).
  exact (conj H1 (conj H2
           (listener_leaves_no_splash Fixture.env 10 (Listener 0%nat 0%nat "click" "ca")
              (Fixture.attached Sample.splashing (SFun 7)) Sample.afterSplash H1))).
Defined.

(* ===================================================================== *)
(** * Steps that end early *)
(* ===================================================================== *)

(** X7.  When the sequence-level condition of a step is given as a
    function, the step ends with the call of that function: it returns
    true when the function returns a truthy value and false otherwise,
    and in both cases nothing else of the step is run (no step-level
    condition, confirmation, custom action, mutation or acknowledgment). *)
Theorem function_condition_ends_step env el actionOptions w w1 targetElements f d
    (result : bool) :
  opt (withDefaults actionOptions) "condition" = VFun f →
  resolveTargets env el (withDefaults actionOptions) w = (w1, Next targetElements) →
  callFunction env ForCondition f el targetElements (log (ECall ForCondition f) w1)
    = (d, Some result) →
  executeAction env el actionOptions w
    = (setDom d (log (ECall ForCondition f) w1),
       Returns (if result then RTrue else RFalse)).
Proof.
  intros Hcondition Htargets Hcall.
  apply executeAction_preamble_stops.
  unfold preamble. rewrite (bind_next _ _ _ _ _ Htargets).
  apply bind_stop. unfold checkCondition. rewrite Hcondition. cbn.
  unfold call, mbind, action_bind, emit, ask. rewrite Hcall. cbn.
  by destruct result.
Qed.

Lemma function_condition_ends_step_witness :
  opt (withDefaults Sample.functionCondition) "condition" = VFun 3%nat
  ∧ resolveTargets Fixture.env 0%nat (withDefaults Sample.functionCondition)
      (Fixture.before []) = (Fixture.before [], Next [0%nat])
  ∧ callFunction Fixture.env ForCondition 3%nat 0%nat [0%nat]
      (log (ECall ForCondition 3%nat) (Fixture.before []))
    = (dom (Fixture.before []), Some true)
  ∧ executeAction Fixture.env 0%nat Sample.functionCondition (Fixture.before [])
    = (setDom (dom (Fixture.before [])) (log (ECall ForCondition 3%nat) (Fixture.before [])),
       Returns RTrue).
Proof.
  assert (opt (withDefaults Sample.functionCondition) "condition" = VFun 3%nat)
    as H1 by (by vm_compute).
  assert (resolveTargets Fixture.env 0%nat (withDefaults Sample.functionCondition)
            (Fixture.before []) = (Fixture.before [], Next [0%nat]))
    as H2 by (by vm_compute).
  assert (callFunction Fixture.env ForCondition 3%nat 0%nat [0%nat]
            (log (ECall ForCondition 3%nat) (Fixture.before []))
          = (dom (Fixture.before []), Some true)) as H3 by reflexivity.
  exact (conj H1 (conj H2 (conj H3
           (function_condition_ends_step Fixture.env 0%nat Sample.functionCondition
              (Fixture.before []) (Fixture.before []) [0%nat] 3%nat
              (dom (Fixture.before [])) true H1 H2 H3)))).
Defined.

(** A step stopped by the validation of its scroll keyword. *)
Lemma executeAction_unknown_scroll_keyword env el actionOptions w w1 targetElements
    classes method :
  preamble env el (withDefaults actionOptions) w = (w1, Next targetElements) →
  readClassRequest (withDefaults actionOptions) = Some classes →
  classesIntersect classes = false →
  validContentMethod
    (sanitizeValue (orStr (opt (withDefaults actionOptions) "contentMethod") "innerHTML"))
    = Some method →
  truthy (sanitizeValue (orNull (opt (withDefaults actionOptions) "scrollTo"))) = true →
  scrollKeyword (sanitizeValue (orNull (opt (withDefaults actionOptions) "scrollTo")))
    = None →
  executeAction env el actionOptions w =
    (log (EWarn "Invalid scroll-to value"
            (sanitizeValue (orNull (opt (withDefaults actionOptions) "scrollTo"))))
       w1,
     Throws).
Proof.
  intros Hpre Hreq Hconflict Hmethod Htruthy Hkeyword.
  rewrite (executeAction_preamble_passes _ _ _ _ _ _ Hpre).
  unfold effects, readClasses, readContent, readScroll.
  rewrite Hreq, Hconflict, Hmethod, Htruthy, Hkeyword.
  by unfold mbind, action_bind, emit, stop.
Qed.

(** X8.  For every step that reaches the validation of its scroll
    keyword (the preamble is passed, leaving the world [w1], the class
    lists do not conflict, the content method is recognised) with a
    keyword other than top, bottom, left and right: a warning is logged
    and the step ends there with an exception, the keyword being held in a
    constant that the code then assigns to.  The step has not waited, has
    mutated nothing and shows no acknowledgment. *)
Theorem unknown_scroll_keyword_throws env el actionOptions w w1 targetElements
    classes method :
  preamble env el (withDefaults actionOptions) w = (w1, Next targetElements) →
  readClassRequest (withDefaults actionOptions) = Some classes →
  classesIntersect classes = false →
  validContentMethod
    (sanitizeValue (orStr (opt (withDefaults actionOptions) "contentMethod") "innerHTML"))
    = Some method →
  truthy (sanitizeValue (orNull (opt (withDefaults actionOptions) "scrollTo"))) = true →
  scrollKeyword (sanitizeValue (orNull (opt (withDefaults actionOptions) "scrollTo")))
    = None →
  executeAction env el actionOptions w =
    (log (EWarn "Invalid scroll-to value"
            (sanitizeValue (orNull (opt (withDefaults actionOptions) "scrollTo"))))
       w1,
     Throws).
Proof. apply executeAction_unknown_scroll_keyword. Qed.

Section Throwing.
Context (env : Env) (el : elem) (eventType prefix : string).

Lemma firstStep_throws st w :
  presentAt env el prefix AtFirst st = true →
  executeAction env el (optionsAt env el prefix AtFirst st) (startOf AtFirst st)
    = (w, Throws) →
  firstStep env el prefix st = Crash w.
Proof.
  unfold presentAt, optionsAt, startOf, nameAt, stepOf. intros Hpresent Hexec.
  unfold firstStep. cbv zeta. rewrite Hpresent, Hexec. reflexivity.
Qed.

Lemma unknown_scroll_keyword_throws_witness :
  preamble Fixture.env 0%nat (withDefaults (Fixture.firstOptions Sample.unknownScroll))
    (Fixture.before Sample.unknownScroll)
    = (Fixture.before Sample.unknownScroll, Next [0%nat])
  ∧ readClassRequest (withDefaults (Fixture.firstOptions Sample.unknownScroll))
    = Some (ClassRequest ["x"] [] [] [])
  ∧ classesIntersect (ClassRequest ["x"] [] [] []) = false
  ∧ validContentMethod
      (sanitizeValue
         (orStr (opt (withDefaults (Fixture.firstOptions Sample.unknownScroll))
                   "contentMethod") "innerHTML"))
    = Some "innerHTML"
  ∧ truthy (sanitizeValue
              (orNull (opt (withDefaults (Fixture.firstOptions Sample.unknownScroll))
                         "scrollTo"))) = true
  ∧ scrollKeyword
      (sanitizeValue
         (orNull (opt (withDefaults (Fixture.firstOptions Sample.unknownScroll))
                    "scrollTo"))) = None
  ∧ executeAction Fixture.env 0%nat (Fixture.firstOptions Sample.unknownScroll)
      (Fixture.before Sample.unknownScroll) =
      (log (EWarn "Invalid scroll-to value"
              (sanitizeValue
                 (orNull (opt (withDefaults (Fixture.firstOptions Sample.unknownScroll))
                            "scrollTo"))))
         (Fixture.before Sample.unknownScroll),
       Throws).
Proof.
  assert (preamble Fixture.env 0%nat
            (withDefaults (Fixture.firstOptions Sample.unknownScroll))
            (Fixture.before Sample.unknownScroll)
          = (Fixture.before Sample.unknownScroll, Next [0%nat]))
    as H1 by (by vm_compute).
  assert (readClassRequest (withDefaults (Fixture.firstOptions Sample.unknownScroll))
          = Some (ClassRequest ["x"] [] [] [])) as H2 by (by vm_compute).
  assert (classesIntersect (ClassRequest ["x"] [] [] []) = false)
    as H3 by (by vm_compute).
  assert (validContentMethod
            (sanitizeValue
               (orStr (opt (withDefaults (Fixture.firstOptions Sample.unknownScroll))
                         "contentMethod") "innerHTML"))
          = Some "innerHTML") as H4 by (by vm_compute).
  assert (truthy (sanitizeValue
                    (orNull (opt (withDefaults (Fixture.firstOptions Sample.unknownScroll))
                               "scrollTo"))) = true) as H5 by (by vm_compute).
  assert (scrollKeyword
            (sanitizeValue
               (orNull (opt (withDefaults (Fixture.firstOptions Sample.unknownScroll))
                          "scrollTo"))) = None) as H6 by (by vm_compute).
  exact (conj H1 (conj H2 (conj H3 (conj H4 (conj H5 (conj H6
           (unknown_scroll_keyword_throws Fixture.env 0%nat
              (Fixture.firstOptions Sample.unknownScroll)
              (Fixture.before Sample.unknownScroll) (Fixture.before Sample.unknownScroll)
              [0%nat] (ClassRequest ["x"] [] [] []) "innerHTML"
              H1 H2 H3 H4 H5 H6))))))).
Defined.

Lemma numberedSteps_throws fuel i st w :
  truthyRet (conditionMet st) = true →
  presentAt env el prefix (AtNumbered i) st = true →
  executeAction env el (optionsAt env el prefix (AtNumbered i) st)
    (startOf (AtNumbered i) st) = (w, Throws) →
  numberedSteps env el prefix (S fuel) i st = Crash w.
Proof.
  unfold presentAt, optionsAt, startOf, nameAt, stepOf.
  intros Hreached Hpresent Hexec.
  cbn [numberedSteps]. cbv zeta. rewrite Hreached, Hpresent, Hexec. reflexivity.
Qed.

(** An exception in a step leaves the listener at once. *)
Lemma resume_after_throw fuel pos st w :
  reached pos st →
  presentAt env el prefix pos st = true →
  executeAction env el (optionsAt env el prefix pos st) (startOf pos st)
    = (w, Throws) →
  resume env el eventType prefix (S fuel) pos st = Crash w.
Proof.
  intros Hreached Hpresent Hexec.
  destruct pos as [|i| |]; unfold resume, reached in *.
  - unfold fromFirst. rewrite (firstStep_throws st w Hpresent Hexec). reflexivity.
  - unfold fromNumbered.
    rewrite (numberedSteps_throws fuel i st w Hreached Hpresent Hexec). reflexivity.
  - pose proof (closingStep_throws env el prefix AtLast st w eq_refl Hpresent Hexec)
      as Hstep.
    unfold stepOf in Hstep. unfold fromLast. rewrite Hstep. reflexivity.
  - pose proof (closingStep_throws env el prefix AtFinally st w eq_refl Hpresent Hexec)
      as Hstep.
    unfold stepOf in Hstep. unfold fromFinally. rewrite Hstep. reflexivity.
Qed.

End Throwing.

(** X9.  Take the listener at the point where it looks for a step of
    the sequence, whichever it is; let that step be present and reach the
    validation of its scroll keyword with a keyword that is not
    recognised.  Then the run of the listener ends with the exception of
    that step, in the world the step leaves: no later step is run, not
    even the [finally] step; the inline handler is not called and a
    splash dialog that is open is not hidden. *)
Theorem unknown_scroll_keyword_ends_listener env el eventType prefix fuel pos st
    w1 targetElements classes method :
  reached pos st →
  presentAt env el prefix pos st = true →
  preamble env el (optionsAt env el prefix pos st) (startOf pos st)
    = (w1, Next targetElements) →
  readClassRequest (optionsAt env el prefix pos st) = Some classes →
  classesIntersect classes = false →
  validContentMethod
    (sanitizeValue
       (orStr (opt (optionsAt env el prefix pos st) "contentMethod") "innerHTML"))
    = Some method →
  truthy (sanitizeValue (orNull (opt (optionsAt env el prefix pos st) "scrollTo")))
    = true →
  scrollKeyword (sanitizeValue (orNull (opt (optionsAt env el prefix pos st) "scrollTo")))
    = None →
  resume env el eventType prefix (S fuel) pos st
    = Crash (log (EWarn "Invalid scroll-to value"
                    (sanitizeValue
                       (orNull (opt (optionsAt env el prefix pos st) "scrollTo"))))
               w1).
Proof.
  intros Hreached Hpresent Hpre Hreq Hconflict Hmethod Htruthy Hkeyword.
  apply resume_after_throw; [exact Hreached|exact Hpresent|].
  rewrite <- (optionsAt_merged env el prefix pos st)
    in Hpre, Hreq, Hmethod, Htruthy, Hkeyword.
  rewrite (executeAction_unknown_scroll_keyword env el _ _ _ _ _ _
             Hpre Hreq Hconflict Hmethod Htruthy Hkeyword).
  by rewrite (optionsAt_merged env el prefix pos st).
Qed.

Lemma unknown_scroll_keyword_ends_listener_witness :
  reached AtFirst (Fixture.starting Sample.unknownScroll)
  ∧ presentAt Fixture.env 0%nat "ca" AtFirst (Fixture.starting Sample.unknownScroll)
    = true
  ∧ preamble Fixture.env 0%nat
      (optionsAt Fixture.env 0%nat "ca" AtFirst (Fixture.starting Sample.unknownScroll))
      (startOf AtFirst (Fixture.starting Sample.unknownScroll))
    = (startOf AtFirst (Fixture.starting Sample.unknownScroll), Next [0%nat])
  ∧ readClassRequest
      (optionsAt Fixture.env 0%nat "ca" AtFirst (Fixture.starting Sample.unknownScroll))
    = Some (ClassRequest ["x"] [] [] [])
  ∧ classesIntersect (ClassRequest ["x"] [] [] []) = false
  ∧ validContentMethod
      (sanitizeValue
         (orStr (opt (optionsAt Fixture.env 0%nat "ca" AtFirst
                        (Fixture.starting Sample.unknownScroll)) "contentMethod")
            "innerHTML"))
    = Some "innerHTML"
  ∧ truthy (sanitizeValue
              (orNull (opt (optionsAt Fixture.env 0%nat "ca" AtFirst
                              (Fixture.starting Sample.unknownScroll)) "scrollTo")))
    = true
  ∧ scrollKeyword
      (sanitizeValue
         (orNull (opt (optionsAt Fixture.env 0%nat "ca" AtFirst
                         (Fixture.starting Sample.unknownScroll)) "scrollTo")))
    = None
  ∧ resume Fixture.env 0%nat "click" "ca" 1 AtFirst (Fixture.starting Sample.unknownScroll)
    = Crash (log (EWarn "Invalid scroll-to value"
                    (sanitizeValue
                       (orNull (opt (optionsAt Fixture.env 0%nat "ca" AtFirst
                                       (Fixture.starting Sample.unknownScroll))
                                  "scrollTo"))))
               (startOf AtFirst (Fixture.starting Sample.unknownScroll))).
Proof.
  assert (reached AtFirst (Fixture.starting Sample.unknownScroll)) as H0 by exact I.
  assert (presentAt Fixture.env 0%nat "ca" AtFirst (Fixture.starting Sample.unknownScroll)
          = true) as H1 by (by vm_compute).
  assert (preamble Fixture.env 0%nat
            (optionsAt Fixture.env 0%nat "ca" AtFirst
               (Fixture.starting Sample.unknownScroll))
            (startOf AtFirst (Fixture.starting Sample.unknownScroll))
          = (startOf AtFirst (Fixture.starting Sample.unknownScroll), Next [0%nat]))
    as H2 by (by vm_compute).
  assert (readClassRequest
            (optionsAt Fixture.env 0%nat "ca" AtFirst
               (Fixture.starting Sample.unknownScroll))
          = Some (ClassRequest ["x"] [] [] [])) as H3 by (by vm_compute).
  assert (classesIntersect (ClassRequest ["x"] [] [] []) = false)
    as H4 by (by vm_compute).
  assert (validContentMethod
            (sanitizeValue
               (orStr (opt (optionsAt Fixture.env 0%nat "ca" AtFirst
                              (Fixture.starting Sample.unknownScroll)) "contentMethod")
                  "innerHTML"))
          = Some "innerHTML") as H5 by (by vm_compute).
  assert (truthy (sanitizeValue
                    (orNull (opt (optionsAt Fixture.env 0%nat "ca" AtFirst
                                    (Fixture.starting Sample.unknownScroll)) "scrollTo")))
          = true) as H6 by (by vm_compute).
  assert (scrollKeyword
            (sanitizeValue
               (orNull (opt (optionsAt Fixture.env 0%nat "ca" AtFirst
                               (Fixture.starting Sample.unknownScroll)) "scrollTo")))
          = None) as H7 by (by vm_compute).
  exact (conj H0 (conj H1 (conj H2 (conj H3 (conj H4 (conj H5 (conj H6 (conj H7
           (unknown_scroll_keyword_ends_listener Fixture.env 0%nat "click" "ca" 0 AtFirst
              (Fixture.starting Sample.unknownScroll)
              (startOf AtFirst (Fixture.starting Sample.unknownScroll)) [0%nat]
              (ClassRequest ["x"] [] [] []) "innerHTML"
              H0 H1 H2 H3 H4 H5 H6 H7))))))))).
Defined.

(** The click on that button, evaluated: the [finally] step of the
    button is not run. *)
Example click_with_unknown_scroll_keyword :
  Fixture.clickTrace Sample.unknownScroll
    = [EPreventDefault; EStopPropagation; EStep First;
       EWarn "Invalid scroll-to value" (VStr "middle")]
  ∧ (classList <$> Fixture.afterClick Sample.unknownScroll !! 0%nat) = Some [].
Proof. split; by vm_compute. Qed.

(* ===================================================================== *)
(** * What the mutations of a step leave behind *)
(* ===================================================================== *)

Lemma elem_of_classAdd l cls x : x ∈ classAdd l cls ↔ x ∈ l ∨ x = cls.
Proof.
  unfold classAdd. case_bool_decide.
  - split; [by left|]. by intros [?| ->].
  - rewrite elem_of_app, list_elem_of_singleton. done.
Qed.

Lemma elem_of_classRemove l cls x : x ∈ classRemove l cls ↔ x ∈ l ∧ x ≠ cls.
Proof. unfold classRemove. rewrite list_elem_of_filter. tauto. Qed.

Lemma elem_of_classToggle l cls x :
  x ∈ classToggle l cls ↔ ((x = cls ∧ x ∉ l) ∨ (x ≠ cls ∧ x ∈ l)).
Proof.
  unfold classToggle. case_bool_decide.
  - rewrite elem_of_classRemove. split; [intros []; by right|].
    by intros [[-> ?]|[]].
  - rewrite elem_of_app, list_elem_of_singleton. split.
    + intros [?| ->]; [right|left]; [|done]. split; [|done]. by intros ->.
    + intros [[-> _]|[_ ?]]; [by right|by left].
Qed.

Lemma elem_of_foldl_classAdd adds l x :
  x ∈ foldl classAdd l adds ↔ x ∈ l ∨ x ∈ adds.
Proof.
  revert l. induction adds as [|a adds IH]; intros l; cbn.
  - rewrite elem_of_nil. tauto.
  - rewrite IH, elem_of_classAdd, elem_of_cons. tauto.
Qed.

Lemma elem_of_foldl_classRemove removes l x :
  x ∈ foldl classRemove l removes ↔ x ∈ l ∧ x ∉ removes.
Proof.
  revert l. induction removes as [|a removes IH]; intros l; cbn.
  - rewrite elem_of_nil. tauto.
  - rewrite IH, elem_of_classRemove, not_elem_of_cons. tauto.
Qed.

Lemma elem_of_foldl_classToggle toggles l x :
  NoDup toggles →
  x ∈ foldl classToggle l toggles
  ↔ ((x ∈ toggles ∧ x ∉ l) ∨ ((x ∉ toggles) ∧ x ∈ l)).
Proof.
  intros Hnodup. revert l.
  induction Hnodup as [|a toggles Hfresh Hnodup IH]; intros l; cbn.
  - rewrite elem_of_nil. tauto.
  - rewrite IH, elem_of_classToggle, elem_of_cons.
    destruct (decide (x = a)) as [->|Hne]; [|tauto].
    destruct (decide (a ∈ l)); tauto.
Qed.

Lemma NoDup_foldl_classAdd adds l : NoDup l → NoDup (foldl classAdd l adds).
Proof.
  revert l. induction adds as [|a adds IH]; intros l Hl; [done|].
  cbn. apply IH. unfold classAdd. case_bool_decide; [done|].
  apply NoDup_app. split; [done|]. split; [|apply NoDup_singleton].
  intros x Hx ->%list_elem_of_singleton. done.
Qed.

Lemma foldl_classAdd_NoDup adds l :
  NoDup (l ++ adds) → foldl classAdd l adds = l ++ adds.
Proof.
  revert l. induction adds as [|a adds IH]; intros l Hl; cbn.
  - by rewrite app_nil_r.
  - assert (a ∉ l) as Hfresh.
    { apply NoDup_app in Hl as (_ & Hl & _). intros Ha. apply (Hl a Ha), list_elem_of_here. }
    unfold classAdd at 2. rewrite bool_decide_eq_false_2 by done.
    rewrite IH; rewrite <- (assoc_L (++)); done.
Qed.

Lemma intersection_nil a b x :
  length (intersection a b) = 0%nat → x ∈ a → x ∉ b.
Proof.
  intros Hlen Ha Hb. apply nil_length_inv in Hlen.
  assert (x ∈ intersection a b) as Hx.
  { unfold intersection. by apply list_elem_of_filter. }
  rewrite Hlen in Hx. by apply elem_of_nil in Hx.
Qed.

Lemma classesIntersect_false classes :
  classesIntersect classes = false →
  (∀ x, x ∈ classListAdd classes → x ∉ classListRemove classes)
  ∧ (∀ x, x ∈ classListAdd classes → x ∉ classListToggle classes)
  ∧ (∀ x, x ∈ classListRemove classes → x ∉ classListToggle classes).
Proof.
  unfold classesIntersect. intros H.
  apply orb_false_iff in H as [[H1 H2]%orb_false_iff H3].
  apply bool_decide_eq_false in H1, H2, H3.
  repeat split; intros x; apply intersection_nil; lia.
Qed.

(** X10.  Let the class lists of a step share no class (which the step
    has checked before), let the set list be empty and the toggle list
    name no class twice.  Then, on every target, after the class mutation:
    every class of the add list is present, every class of the remove list
    is absent, every class of the toggle list is present exactly when it
    was absent, and every other class is present exactly when it was. *)
Theorem applyClasses_postcondition classes targetElement :
  classListSet classes = [] →
  classesIntersect classes = false →
  NoDup (classListToggle classes) →
  (∀ cls, cls ∈ classListAdd classes →
     cls ∈ classList (applyClassesTo classes targetElement))
  ∧ (∀ cls, cls ∈ classListRemove classes →
       cls ∉ classList (applyClassesTo classes targetElement))
  ∧ (∀ cls, cls ∈ classListToggle classes →
       cls ∈ classList (applyClassesTo classes targetElement)
       ↔ cls ∉ classList targetElement)
  ∧ (∀ cls, cls ∉ classListAdd classes → cls ∉ classListRemove classes →
       cls ∉ classListToggle classes →
       cls ∈ classList (applyClassesTo classes targetElement)
       ↔ cls ∈ classList targetElement).
Proof.
  intros Hset Hconflict Hnodup.
  destruct (classesIntersect_false classes Hconflict) as (Har & Hat & Hrt).
  assert (∀ cls, cls ∈ classList (applyClassesTo classes targetElement)
                 ↔ (((cls ∈ classListToggle classes ∧ cls ∉ classList targetElement)
                     ∨ ((cls ∉ classListToggle classes) ∧ cls ∈ classList targetElement)
                     ∨ cls ∈ classListAdd classes)
                    ∧ cls ∉ classListRemove classes)) as Hin.
  { intros cls. unfold applyClassesTo. rewrite Hset.
    rewrite bool_decide_eq_false_2 by (cbn; lia). cbn.
    rewrite elem_of_foldl_classRemove, elem_of_foldl_classAdd.
    rewrite elem_of_foldl_classToggle by done. tauto. }
  repeat split.
  - intros cls Ha. apply Hin. split; [tauto|by apply Har].
  - intros cls Hr. rewrite Hin. tauto.
  - rewrite Hin. intros [[[? ?]|[[? ?]|Ha]] _]; [done|done|]. by apply Hat in Ha.
  - intros Hcls. apply Hin. split; [tauto|]. intros Hr. by apply Hrt in Hr.
  - rewrite Hin. tauto.
  - intros Hcls. apply Hin. tauto.
Qed.

Lemma applyClasses_postcondition_witness :
  classListSet (ClassRequest ["x"] ["a"] ["b"; "y"] []) = []
  ∧ classesIntersect (ClassRequest ["x"] ["a"] ["b"; "y"] []) = false
  ∧ NoDup (classListToggle (ClassRequest ["x"] ["a"] ["b"; "y"] []))
  ∧ classList (applyClassesTo (ClassRequest ["x"] ["a"] ["b"; "y"] [])
                 (Fixture.panel ["a"; "b"; "c"] "")) = ["c"; "y"; "x"]
  ∧ ∀ cls, cls ∈ ["x"] →
      cls ∈ classList (applyClassesTo (ClassRequest ["x"] ["a"] ["b"; "y"] [])
                         (Fixture.panel ["a"; "b"; "c"] "")).
Proof.
  assert (classListSet (ClassRequest ["x"] ["a"] ["b"; "y"] []) = []) as H1
    by reflexivity.
  assert (classesIntersect (ClassRequest ["x"] ["a"] ["b"; "y"] []) = false) as H2
    by (by vm_compute).
  assert (NoDup (classListToggle (ClassRequest ["x"] ["a"] ["b"; "y"] []))) as H3.
  { apply (bool_decide_unpack _). by vm_compute. }
  exact (conj H1 (conj H2 (conj H3 (conj eq_refl
           (proj1 (applyClasses_postcondition (ClassRequest ["x"] ["a"] ["b"; "y"] [])
                     (Fixture.panel ["a"; "b"; "c"] "") H1 H2 H3)))))).
Defined.

(** X11.  When the set list of a step is not empty, every target ends
    with the classes of the set list and no other, each once, whatever
    classes it had and whatever the add, remove and toggle lists hold;
    when the set list names no class twice, the class list of the target
    is the set list. *)
Theorem classSet_replaces_class_list classes targetElement :
  classListSet classes ≠ [] →
  (∀ cls, cls ∈ classList (applyClassesTo classes targetElement)
          ↔ cls ∈ classListSet classes)
  ∧ NoDup (classList (applyClassesTo classes targetElement))
  ∧ (NoDup (classListSet classes) →
     classList (applyClassesTo classes targetElement) = classListSet classes).
Proof.
  intros Hset. unfold applyClassesTo.
  rewrite bool_decide_eq_true_2 by (destruct (classListSet classes); [done|cbn; lia]).
  cbn. repeat split.
  - rewrite elem_of_foldl_classAdd, elem_of_nil. tauto.
  - intros H. apply elem_of_foldl_classAdd. by right.
  - apply NoDup_foldl_classAdd, NoDup_nil_2.
  - intros Hnodup. by apply (foldl_classAdd_NoDup _ []).
Qed.

Lemma classSet_replaces_class_list_witness :
  classListSet (ClassRequest ["x"] [] ["a"] ["on"; "big"]) ≠ []
  ∧ classList (applyClassesTo (ClassRequest ["x"] [] ["a"] ["on"; "big"])
                 (Fixture.panel ["a"; "b"] "")) = ["on"; "big"].
Proof.
  assert (classListSet (ClassRequest ["x"] [] ["a"] ["on"; "big"]) ≠ []) as H1
    by discriminate.
  assert (NoDup (classListSet (ClassRequest ["x"] [] ["a"] ["on"; "big"]))) as H2.
  { apply (bool_decide_unpack _). by vm_compute. }
  exact (conj H1
           (proj2 (proj2 (classSet_replaces_class_list
                            (ClassRequest ["x"] [] ["a"] ["on"; "big"])
                            (Fixture.panel ["a"; "b"] "") H1)) H2)).
Defined.

Lemma getProp_setProp m v e : getProp m (setProp m v e) = v.
Proof. unfold getProp, setProp. cbn. by rewrite lookup_insert_eq. Qed.


(* ===================================================================== *)
(** * Attaching and detaching, continued *)
(* ===================================================================== *)

Lemma filter_other {A} `{EqDecision A} (x : A) (l : list A) :
  x ∉ l → filter (λ y, y ≠ x) l = l.
Proof.
  induction l as [|y l IH]; [done|]. intros [Hne Hl]%not_elem_of_cons.
  rewrite filter_cons_True by done. by rewrite IH.
Qed.

Lemma removeEventListener_new eventType h ls :
  (eventType, h) ∉ ls →
  removeEventListener eventType h (addEventListener eventType h ls) = ls.
Proof.
  intros Hnew. unfold addEventListener, removeEventListener.
  rewrite bool_decide_eq_false_2 by done.
  rewrite filter_app, filter_cons_False, filter_nil, app_nil_r by (by intros []).
  by apply filter_other.
Qed.

Lemma fresh_listener (ls : list (string * listener)) n eventType el prefix :
  Forall (λ x, l_id x.2 < n)%nat ls →
  (eventType, Listener n el eventType prefix) ∉ ls.
Proof.
  intros Hids Hin. rewrite Forall_forall in Hids. apply Hids in Hin. cbn in Hin. lia.
Qed.

Lemma objGet_objDelete_eq k (o : jsobject) : objGet k (objDelete k o) = None.
Proof.
  unfold objDelete, jsobject in *. induction o as [|[k' v] o IH]; [done|].
  destruct (decide (k' = k)) as [->|Hne].
  - by rewrite filter_cons_False by (cbn; tauto).
  - rewrite filter_cons_True by done. cbn. by rewrite bool_decide_eq_false_2.
Qed.

Lemma objGet_objDelete_ne k k' (o : jsobject) :
  k ≠ k' → objGet k' (objDelete k o) = objGet k' o.
Proof.
  intros Hne. unfold objDelete, jsobject in *. induction o as [|[k'' v] o IH]; [done|].
  destruct (decide (k'' = k)) as [->|Hne'].
  - rewrite filter_cons_False by (cbn; tauto). cbn.
    by rewrite bool_decide_eq_false_2.
  - rewrite filter_cons_True by done. cbn. by rewrite IH.
Qed.

Lemma objRead_objDelete_eq k (o : jsobject) : objRead k (objDelete k o) = SNull.
Proof. unfold objRead. by rewrite objGet_objDelete_eq. Qed.

Lemma objRead_objDelete_ne k k' (o : jsobject) :
  k ≠ k' → objRead k' (objDelete k o) = objRead k' o.
Proof. intros. unfold objRead. by rewrite objGet_objDelete_ne. Qed.

Section Detaching.
Context (w : world) (el : elem) (e : element) (ea : jsobject).
Hypothesis on_page : dom w !! el = Some e.
Hypothesis bookkeeping : _eventActions e = Some ea.

(** [removeEventActions] for an event type with a recorded inline handler
    and a registered listener. *)
Lemma removeTyped_recorded eventType h table handler :
  objRead eventType ea = SFun h →
  objRead "handlers" ea = STable table →
  table !! eventType = Some handler →
  eventType ≠ "handlers" →
  removeTyped el eventType w =
    setDom (<[el := withAttachment (<[onName eventType := SFun h]> (onprop e))
                      (removeEventListener eventType handler (listeners e))
                      (if bool_decide (size (delete eventType table) = 0%nat) then None
                       else Some (objDelete eventType
                                    (objSet "handlers" (STable (delete eventType table)) ea)))
                      e]> (dom w)) w.
Proof.
  intros Hrec Htable Hhandler Hne.
  unfold removeTyped. rewrite on_page, bookkeeping, Hrec, Htable, Hhandler.
  cbn [truthySlot negb]. cbv iota beta.
  rewrite objRead_objSet_ne by done. rewrite Hrec. cbn [truthySlot]. cbv iota beta.
  rewrite objRead_objDelete_ne by done. by rewrite objRead_objSet_eq.
Qed.

(** [removeEventActions] for the key [handlers], which the loop over the
    keys of the bookkeeping comes across. *)
Lemma removeTyped_handlers table :
  objRead "handlers" ea = STable table →
  table !! "handlers" = None →
  removeTyped el "handlers" w =
    setDom (<[el := withAttachment (<[onName "handlers" := STable table]> (onprop e))
                      (listeners e) (Some (objDelete "handlers" ea)) e]> (dom w)) w.
Proof.
  intros Htable Hnone.
  unfold removeTyped. rewrite on_page, bookkeeping, Htable, Hnone.
  cbn [truthySlot negb]. cbv iota beta. rewrite Htable. cbn [truthySlot]. cbv iota beta.
  by rewrite objRead_objDelete_eq.
Qed.

(** [removeEventActions] for an event type with a recorded inline handler
    when the table of listeners is gone. *)
Lemma removeTyped_without_table eventType h :
  objRead eventType ea = SFun h →
  objRead "handlers" ea = SNull →
  eventType ≠ "handlers" →
  removeTyped el eventType w =
    setDom (<[el := withAttachment (<[onName eventType := SFun h]> (onprop e))
                      (listeners e) (Some (objDelete eventType ea)) e]> (dom w)) w.
Proof.
  intros Hrec Htable Hne.
  unfold removeTyped. rewrite on_page, bookkeeping, Hrec, Htable.
  cbn [truthySlot negb]. cbv iota beta. rewrite Hrec. cbn [truthySlot]. cbv iota beta.
  rewrite objRead_objDelete_ne by done. by rewrite Htable.
Qed.

End Detaching.

(** The world after the attachment of an element that has an inline
    handler and no bookkeeping yet. *)
Lemma addEventActions_first w el eventType prefix e h :
  dom w !! el = Some e →
  _eventActions e = None →
  onprop e !! onName eventType = Some (SFun h) →
  eventType ≠ "handlers" →
  addEventActions el eventType prefix w =
    World (<[el := withAttachment (<[onName eventType := SNull]> (onprop e))
                     (addEventListener eventType (Listener (nextId w) el eventType prefix)
                        (listeners e))
                     (Some [ (eventType, SFun h);
                             ("handlers",
                              STable {[ eventType := Listener (nextId w) el eventType prefix ]}) ])
                     e]> (dom w))
      (trace w) (S (nextId w)).
Proof.
  intros Hdom Hea Hinline Hne.
  unfold addEventActions. rewrite Hdom. unfold alreadyAvailable, inlineHandler.
  rewrite Hea, Hinline. cbn.
  unfold objRead. cbn. rewrite !bool_decide_eq_false_2 by done. cbn.
  by rewrite insert_empty.
Qed.

(** X13.  Take an element on the page that has an inline handler for an
    event type and has never been attached.  After [addEventActions] for
    that event type, [removeEventActions] puts the element back as it was:
    the listener is no longer registered, the inline handler is back in
    place and the bookkeeping is gone.  This holds for the call that names
    the event type and for the call that names none. *)
Theorem removeEventActions_undoes_addEventActions w el eventType prefix e h :
  dom w !! el = Some e →
  _eventActions e = None →
  onprop e !! onName eventType = Some (SFun h) →
  eventType ≠ "handlers" →
  eventType ≠ "" →
  Forall (λ x, l_id x.2 < nextId w)%nat (listeners e) →
  removeEventActions el eventType (addEventActions el eventType prefix w)
    = Some (World (dom w) (trace w) (S (nextId w)))
  ∧ removeEventActions el "" (addEventActions el eventType prefix w)
    = Some (World (dom w) (trace w) (S (nextId w))).
Proof.
  intros Hdom Hea Hinline Hne Hne' Hids.
  rewrite (addEventActions_first w el eventType prefix e h Hdom Hea Hinline Hne).
  set (handler := Listener (nextId w) el eventType prefix).
  set (ea := [ (eventType, SFun h); ("handlers", STable {[ eventType := handler ]}) ]).
  set (e1 := withAttachment (<[onName eventType := SNull]> (onprop e))
               (addEventListener eventType handler (listeners e)) (Some ea) e).
  set (w1 := World (<[el := e1]> (dom w)) (trace w) (S (nextId w))).
  assert (dom w1 !! el = Some e1) as Hdom1 by apply lookup_insert_eq.
  assert (objRead eventType ea = SFun h) as Hrec.
  { unfold objRead, ea. cbn. by rewrite bool_decide_eq_true_2. }
  assert (objRead "handlers" ea = STable {[ eventType := handler ]}) as Htable.
  { unfold objRead, ea. cbn. by rewrite bool_decide_eq_false_2. }
  assert (removeTyped el eventType w1 = World (dom w) (trace w) (S (nextId w)))
    as Htyped.
  { rewrite (removeTyped_recorded w1 el e1 ea Hdom1 eq_refl eventType h _ handler
               Hrec Htable (lookup_singleton_eq _ _) Hne).
    rewrite delete_singleton_eq, map_size_empty, bool_decide_eq_true_2 by done.
    unfold setDom, w1, e1.
    cbn [dom trace nextId withAttachment listeners onprop _eventActions attributes
         classList props scrollTop scrollLeft scrollHeight scrollWidth clientHeight
         clientWidth].
    rewrite removeEventListener_new by (by apply fresh_listener).
    rewrite insert_insert_eq, (insert_insert_eq (onprop e)).
    rewrite (insert_id (onprop e)) by done.
    replace (withAttachment (onprop e) (listeners e) None _) with e
      by (destruct e; cbn in *; by subst).
    by rewrite insert_id. }
  split.
  - unfold removeEventActions. rewrite Hdom1. cbn [_eventActions e1 withAttachment].
    rewrite bool_decide_eq_false_2 by done. by rewrite Htyped.
  - unfold removeEventActions. rewrite Hdom1. cbn [_eventActions e1 withAttachment].
    rewrite bool_decide_eq_true_2 by done.
    unfold objKeys, ea. cbn [fmap list_fmap fst removeEach].
    rewrite bool_decide_eq_false_2 by done. rewrite Htyped.
    rewrite bool_decide_eq_false_2 by done.
    unfold removeTyped. cbn [dom]. rewrite Hdom, Hea. reflexivity.
Qed.

Lemma removeEventActions_undoes_addEventActions_witness :
  dom (Fixture.page [] (SFun 7)) !! 0%nat = Some (Fixture.button [] (SFun 7))
  ∧ _eventActions (Fixture.button [] (SFun 7)) = None
  ∧ onprop (Fixture.button [] (SFun 7)) !! onName "click" = Some (SFun 7)
  ∧ "click" ≠ "handlers"
  ∧ "click" ≠ ""
  ∧ Forall (λ x, l_id x.2 < nextId (Fixture.page [] (SFun 7)))%nat
      (listeners (Fixture.button [] (SFun 7)))
  ∧ removeEventActions 0%nat "click"
      (addEventActions 0%nat "click" "ca" (Fixture.page [] (SFun 7)))
    = Some (World (dom (Fixture.page [] (SFun 7))) (trace (Fixture.page [] (SFun 7)))
              (S (nextId (Fixture.page [] (SFun 7))))).
Proof.
  assert (dom (Fixture.page [] (SFun 7)) !! 0%nat = Some (Fixture.button [] (SFun 7)))
    as H1 by (by vm_compute).
  assert (_eventActions (Fixture.button [] (SFun 7)) = None) as H2 by reflexivity.
  assert (onprop (Fixture.button [] (SFun 7)) !! onName "click" = Some (SFun 7))
    as H3 by (by vm_compute).
  assert ("click" ≠ "handlers") as H4 by discriminate.
  assert ("click" ≠ "") as H5 by discriminate.
  assert (Forall (λ x, l_id x.2 < nextId (Fixture.page [] (SFun 7)))%nat
            (listeners (Fixture.button [] (SFun 7)))) as H6 by constructor.
  exact (conj H1 (conj H2 (conj H3 (conj H4 (conj H5 (conj H6
           (proj1 (removeEventActions_undoes_addEventActions
                     (Fixture.page [] (SFun 7)) 0%nat "click" "ca"
                     (Fixture.button [] (SFun 7)) 7%nat H1 H2 H3 H4 H5 H6)))))))).
Defined.

Lemma withAttachment_withAttachment on ls ea on' ls' ea' e :
  withAttachment on' ls' ea' (withAttachment on ls ea e) = withAttachment on' ls' ea' e.
Proof. done. Qed.

Ltac decide_keys :=
  repeat first
    [ rewrite bool_decide_eq_true_2 by done
    | rewrite bool_decide_eq_false_2 by done ].

Section ClickAndScroll.
Context (w : world) (el : elem) (e : element) (h1 h2 : nat).
Hypothesis on_page : dom w !! el = Some e.
Hypothesis never_attached : _eventActions e = None.
Hypothesis inline_click : onprop e !! "onclick" = Some (SFun h1).
Hypothesis inline_scroll : onprop e !! "onscroll" = Some (SFun h2).

Let onClick := Listener (nextId w) el "click" "ca".
Let onScroll := Listener (S (nextId w)) el "scroll" "sa".

(** The bookkeeping of an element attached for clicks, then for scrolls:
    its keys are, in order, [click], [handlers] and [scroll]. *)
Lemma addClickActions_addScrollActions :
  addScrollActions el (addClickActions el w) =
    World (<[el := withAttachment
                     (<["onscroll" := SNull]> (<["onclick" := SNull]> (onprop e)))
                     (addEventListener "scroll" onScroll
                        (addEventListener "click" onClick (listeners e)))
                     (Some [ ("click", SFun h1);
                             ("handlers",
                              STable (<["scroll" := onScroll]> {[ "click" := onClick ]}));
                             ("scroll", SFun h2) ])
                     e]> (dom w))
      (trace w) (S (S (nextId w))).
Proof.
  unfold addClickActions, addScrollActions.
  rewrite (addEventActions_first w el "click" "ca" e h1 on_page never_attached
             inline_click) by done.
  fold onClick. unfold addEventActions at 1. cbn [dom nextId trace].
  rewrite lookup_insert_eq. unfold alreadyAvailable, inlineHandler, objRead.
  change (onName "click") with "onclick". change (onName "scroll") with "onscroll".
  cbn [_eventActions onprop listeners withAttachment objGet objSet default id].
  decide_keys. cbn [truthySlot default].
  rewrite lookup_insert_ne by done. rewrite inline_scroll.
  cbn [truthySlot default objSet objGet]. decide_keys.
  cbn [truthySlot default objSet objGet]. decide_keys.
  cbn [id truthySlot]. by rewrite insert_insert_eq.
Qed.

End ClickAndScroll.

Section DetachAll.
Context (w : world) (el : elem) (e : element) (h1 h2 : nat).
Hypothesis on_page : dom w !! el = Some e.
Hypothesis never_attached : _eventActions e = None.
Hypothesis inline_click : onprop e !! "onclick" = Some (SFun h1).
Hypothesis inline_scroll : onprop e !! "onscroll" = Some (SFun h2).
Hypothesis fresh : Forall (λ x, l_id x.2 < nextId w)%nat (listeners e).

Let clickListener := Listener (nextId w) el "click" "ca".
Let scrollListener := Listener (S (nextId w)) el "scroll" "sa".

Lemma removeEventActions_all_click_and_scroll :
  ∃ w3,
    removeEventActions el "" (addScrollActions el (addClickActions el w)) = Some w3
    ∧ listeners (elementAt w3 el) = listeners e ++ [("scroll", scrollListener)]
    ∧ onprop (elementAt w3 el) !! "onclick" = Some (SFun h1)
    ∧ onprop (elementAt w3 el) !! "onscroll" = Some (SFun h2)
    ∧ _eventActions (elementAt w3 el) = Some [].
Proof.
  rewrite (addClickActions_addScrollActions w el e h1 h2 on_page never_attached
             inline_click inline_scroll).
  fold clickListener scrollListener.
  set (table := <["scroll" := scrollListener]> ({[ "click" := clickListener ]} : gmap string listener)).
  set (ea := [ ("click", SFun h1); ("handlers", STable table); ("scroll", SFun h2) ]).
  set (on := <["onscroll" := SNull]> (<["onclick" := SNull]> (onprop e))).
  set (ls := addEventListener "scroll" scrollListener
               (addEventListener "click" clickListener (listeners e))).
  set (w2 := World (<[el := withAttachment on ls (Some ea) e]> (dom w)) (trace w)
               (S (S (nextId w)))).
  assert (("click", clickListener) ∉ listeners e) as Hclick by (by apply fresh_listener).
  assert (("scroll", scrollListener) ∉ listeners e) as Hscroll.
  { apply fresh_listener. eapply Forall_impl; [exact fresh|]. cbn. lia. }
  assert (ls = listeners e ++ [("click", clickListener); ("scroll", scrollListener)]) as Hls.
  { unfold ls, addEventListener. rewrite (bool_decide_eq_false_2 _ Hclick).
    rewrite bool_decide_eq_false_2.
    - by rewrite <- (assoc_L (++)).
    - intros [?|[=]%list_elem_of_singleton]%elem_of_app. done. }
  assert (dom w2 !! el = Some (withAttachment on ls (Some ea) e)) as Hdom2
    by apply lookup_insert_eq.
  unfold removeEventActions. rewrite Hdom2. cbn [_eventActions withAttachment].
  rewrite bool_decide_eq_true_2 by done.
  unfold objKeys. unfold ea at 1. cbn [fmap list_fmap fst removeEach]. decide_keys.
  eexists. split; [reflexivity|].
  (* the key [click] *)
  assert (delete "click" table = {[ "scroll" := scrollListener ]}) as Htable.
  { unfold table. rewrite delete_insert_ne by done. by rewrite delete_singleton_eq. }
  rewrite (removeTyped_recorded w2 el _ ea Hdom2 eq_refl "click" h1 table clickListener)
    by (try done; unfold table; by rewrite lookup_insert_ne).
  rewrite Htable, map_size_singleton. decide_keys.
  replace (objDelete "click" (objSet "handlers" (STable {[ "scroll" := scrollListener ]}) ea))
    with [ ("handlers", STable {[ "scroll" := scrollListener ]}); ("scroll", SFun h2) ]
    by (unfold ea; generalize (STable {[ "scroll" := scrollListener ]});
        generalize (STable table); intros; by vm_compute).
  change (onName "click") with "onclick".
  pose (ea3 := [ ("handlers", STable {[ "scroll" := scrollListener ]}); ("scroll", SFun h2) ]
               : jsobject).
  fold ea3.
  match goal with |- context [<[el := ?x]> (dom w2)] => set (e3 := x) end.
  set (w3 := setDom (<[el := e3]> (dom w2)) w2).
  assert (dom w3 !! el = Some e3) as Hdom3 by apply lookup_insert_eq.
  (* the key [handlers] *)
  rewrite (removeTyped_handlers w3 el e3 ea3 Hdom3 eq_refl {[ "scroll" := scrollListener ]})
    by (try done; by rewrite lookup_singleton_ne).
  replace (objDelete "handlers" ea3) with [ ("scroll", SFun h2) ]
    by (unfold ea3; generalize (STable {[ "scroll" := scrollListener ]}); intros;
        by vm_compute).
  pose (ea4 := [ ("scroll", SFun h2) ] : jsobject). fold ea4.
  match goal with |- context [<[el := ?x]> (dom w3)] => set (e4 := x) end.
  set (w4 := setDom (<[el := e4]> (dom w3)) w3).
  assert (dom w4 !! el = Some e4) as Hdom4 by apply lookup_insert_eq.
  (* the key [scroll] *)
  rewrite (removeTyped_without_table w4 el e4 ea4 Hdom4 eq_refl "scroll" h2)
    by done.
  replace (objDelete "scroll" ea4) with ([] : jsobject) by (by vm_compute).
  unfold elementAt, setDom. cbn [dom]. rewrite lookup_insert_eq.
  unfold e4, e3, withAttachment.
  cbn [default listeners onprop _eventActions id].
  change (onName "scroll") with "onscroll". change (onName "handlers") with "onhandlers".
  repeat split.
  - rewrite Hls. unfold removeEventListener.
    rewrite filter_app, (filter_other _ _ Hclick).
    rewrite filter_cons_False by (by intros []).
    by rewrite filter_cons_True, filter_nil by done.
  - rewrite lookup_insert_ne, lookup_insert_ne by done. apply lookup_insert_eq.
  - apply lookup_insert_eq.
Qed.
End DetachAll.

(** X14.  Take an element on the page that has inline handlers for
    clicks and for scrolls and has never been attached, and attach it for
    clicks, then for scrolls.  [removeEventActions] called without an
    event type then detaches the clicks only: the loop over the keys of
    the bookkeeping comes to the key [handlers] before the key [scroll]
    and takes the table of listeners away, so that the listener for
    scrolls stays registered, while both inline handlers are put back and
    the bookkeeping stays on the element, empty. *)
Theorem removeEventActions_without_type_leaves_scroll_listener w el e h1 h2 :
  dom w !! el = Some e →
  _eventActions e = None →
  onprop e !! "onclick" = Some (SFun h1) →
  onprop e !! "onscroll" = Some (SFun h2) →
  Forall (λ x, l_id x.2 < nextId w)%nat (listeners e) →
  ∃ w3,
    removeEventActions el "" (addScrollActions el (addClickActions el w)) = Some w3
    ∧ listeners (elementAt w3 el)
      = listeners e ++ [("scroll", Listener (S (nextId w)) el "scroll" "sa")]
    ∧ onprop (elementAt w3 el) !! "onclick" = Some (SFun h1)
    ∧ onprop (elementAt w3 el) !! "onscroll" = Some (SFun h2)
    ∧ _eventActions (elementAt w3 el) = Some [].
Proof. apply removeEventActions_all_click_and_scroll. Qed.

Lemma removeEventActions_without_type_leaves_scroll_listener_witness :
  dom Sample.twoHandlersPage !! 0%nat = Some Sample.twoHandlers
  ∧ _eventActions Sample.twoHandlers = None
  ∧ onprop Sample.twoHandlers !! "onclick" = Some (SFun 7)
  ∧ onprop Sample.twoHandlers !! "onscroll" = Some (SFun 8)
  ∧ Forall (λ x, l_id x.2 < nextId Sample.twoHandlersPage)%nat
      (listeners Sample.twoHandlers)
  ∧ ∃ w3,
      removeEventActions 0%nat ""
        (addScrollActions 0%nat (addClickActions 0%nat Sample.twoHandlersPage)) = Some w3
      ∧ listeners (elementAt w3 0%nat)
        = listeners Sample.twoHandlers
          ++ [("scroll", Listener (S (nextId Sample.twoHandlersPage)) 0%nat "scroll" "sa")]
      ∧ onprop (elementAt w3 0%nat) !! "onclick" = Some (SFun 7)
      ∧ onprop (elementAt w3 0%nat) !! "onscroll" = Some (SFun 8)
      ∧ _eventActions (elementAt w3 0%nat) = Some [].
Proof.
  assert (dom Sample.twoHandlersPage !! 0%nat = Some Sample.twoHandlers)
    as H1 by (by vm_compute).
  assert (_eventActions Sample.twoHandlers = None) as H2 by reflexivity.
  assert (onprop Sample.twoHandlers !! "onclick" = Some (SFun 7))
    as H3 by (by vm_compute).
  assert (onprop Sample.twoHandlers !! "onscroll" = Some (SFun 8))
    as H4 by (by vm_compute).
  assert (Forall (λ x, l_id x.2 < nextId Sample.twoHandlersPage)%nat
            (listeners Sample.twoHandlers)) as H5 by constructor.
  exact (conj H1 (conj H2 (conj H3 (conj H4 (conj H5
           (removeEventActions_without_type_leaves_scroll_listener
              Sample.twoHandlersPage 0%nat Sample.twoHandlers 7%nat 8%nat
              H1 H2 H3 H4 H5)))))).
Defined.

(** The same calls evaluated, with the typed calls for comparison:
    [removeClickActions] followed by [removeScrollActions] leaves no
    listener. *)
Example removeEventActions_on_click_and_scroll :
  (λ w, listeners (elementAt w 0%nat))
    <$> removeEventActions 0%nat ""
          (addScrollActions 0%nat (addClickActions 0%nat Sample.twoHandlersPage))
    = Some [("scroll", Listener 1 0%nat "scroll" "sa")]
  ∧ (λ w, listeners (elementAt w 0%nat))
      <$> (removeClickActions 0%nat
             (addScrollActions 0%nat (addClickActions 0%nat Sample.twoHandlersPage))
           ≫= removeScrollActions 0%nat)
    = Some [].
Proof. split; by vm_compute. Qed.

(* ===================================================================== *)
(** * Properties of the [data-class-*] script *)
(* ===================================================================== *)

(** X15.  Whatever the text of [data-class-delay], and also when the
    attribute is missing, the delay that is used is neither NaN nor
    negative; whenever a warning is logged for the text, the delay is 0. *)
Theorem parseDelay_never_negative env attribute :
  isNaN (DataClass.parseDelay env attribute).1 = false
  ∧ ltZero (DataClass.parseDelay env attribute).1 = false
  ∧ (is_Some (DataClass.parseDelay env attribute).2 →
     (DataClass.parseDelay env attribute).1 = JFin 0).
Proof.
  unfold DataClass.parseDelay. destruct attribute as [raw|]; [|by repeat split; try intros []].
  destruct (Js.endsWith _ "s"); [|destruct (Js.endsWith _ "ms")];
    (destruct (isNaN _ || ltZero _) eqn:Hbad; cbn [fst snd];
     [by repeat split
     |apply orb_false_iff in Hbad as [-> ->]; repeat split; by intros []]).
Qed.

Section ClassListener.
Import DataClass.
Context (env : Env)
        (evalCondition : string → elem → world → gmap elem element * option bool).

(** The scripts of the conditions leave the page alone. *)
Hypothesis pure : ∀ code x w, (evalCondition code x w).1 = dom w.

Lemma exceptClasses_applyClassesTo classes e :
  exceptClasses (applyClassesTo classes e) = exceptClasses e.
Proof. unfold applyClassesTo. by destruct (bool_decide _). Qed.

Lemma conditionHolds_dom el suffix w :
  dom (conditionHolds evalCondition el suffix w).1 = dom w.
Proof.
  unfold conditionHolds. destruct (given _) as [condition|]; [|done].
  cbv zeta. pose proof (pure condition el (log (EEval ForCondition condition) w)) as H.
  destruct (evalCondition _ _ _) as [d [result|]]; cbn in *; by subst.
Qed.

Lemma targetsOf_dom el targetSelector targetSelectorChildren w :
  dom (targetsOf env el targetSelector targetSelectorChildren w).1 = dom w.
Proof.
  unfold targetsOf, selectWith.
  destruct targetSelector as [s1|], targetSelectorChildren as [s2|]; cbn;
    repeat (first [case_bool_decide | destruct (querySelectorAll env _ _)
                  | destruct (querySelectorAllIn env _ _ _)]; cbn); done.
Qed.

(** One turn of the loop changes class lists only and drops no timer. *)
Lemma turn_frame el index s :
  (∀ x, exceptClasses (elementAt (now (stateOf (turn env evalCondition el index s))) x)
        = exceptClasses (elementAt (now s) x))
  ∧ timers s `prefix_of` timers (stateOf (turn env evalCondition el index s)).
Proof.
  assert (∀ w w', dom w' = dom w →
                  ∀ x, exceptClasses (elementAt w' x) = exceptClasses (elementAt w x))
    as Hsame.
  { intros w w' Hdom x. unfold elementAt. by rewrite Hdom. }
  unfold turn. cbv zeta.
  pose proof (conditionHolds_dom el (suffixOf index) (now s)) as Hcond.
  destruct (conditionHolds evalCondition el (suffixOf index) (now s)) as [w holds].
  cbn [fst] in Hcond.
  destruct holds; cbn [negb]; [|by split; [apply Hsame|]].
  destruct (_ && _ && _ && _); [by split; [apply Hsame|]|].
  destruct (negb _ && _); [by split; [apply Hsame|]|].
  destruct (parseDelay env _) as [delay warning].
  set (w1 := match warning with Some e => log e w | None => w end).
  assert (dom w1 = dom (now s)) as Hw1 by (unfold w1; by destruct warning).
  pose proof (targetsOf_dom el
                (getAttribute w el "data-class-target" (suffixOf index))
                (getAttribute w el "data-class-target-children" (suffixOf index)) w1)
    as Htargets.
  destruct (targetsOf env el _ _ w1) as [w2 targetElements].
  cbn [fst] in Htargets. rewrite Hw1 in Htargets.
  destruct (bool_decide (length targetElements = 0%nat)); [by split; [apply Hsame|]|].
  destruct (_ && _ && _ && _); [by split; [apply Hsame|]|].
  destruct (classesIntersect _); [by split; [apply Hsame|]|].
  destruct (scheduleFor delay); cbn [stateOf now timers].
  - split; [by apply Hsame|]. by apply prefix_app_r.
  - split; [|done]. intros x. unfold applyClasses.
    rewrite (onTargets_preserves _ exceptClasses)
      by apply exceptClasses_applyClassesTo.
    by apply Hsame.
Qed.

Lemma turns_frame el fuel index s s' :
  turns env evalCondition el fuel index s = Some s' →
  (∀ x, exceptClasses (elementAt (now s') x) = exceptClasses (elementAt (now s) x))
  ∧ timers s `prefix_of` timers s'.
Proof.
  revert s index. induction fuel as [|fuel IH]; intros s index Hrun; [done|].
  cbn [turns] in Hrun.
  destruct (turn_frame el index s) as [Hpage Htimers].
  destruct (turn env evalCondition el index s) as [s1|s1]; cbn [stateOf] in *.
  - destruct (IH s1 (S index) Hrun) as [Hpage' Htimers'].
    split; [|by etrans]. intros x. by rewrite Hpage', Hpage.
  - injection Hrun as <-. by split.
Qed.

(** The attributes of the element are what they were after a turn. *)
Lemma turn_attributes el index s name suffix :
  getAttribute (now (stateOf (turn env evalCondition el index s))) el name suffix
    = getAttribute (now s) el name suffix.
Proof.
  destruct (turn_frame el index s) as [Hpage _].
  unfold getAttribute.
  change (attributes ?e) with (attributes (exceptClasses e)). by rewrite Hpage.
Qed.

Lemma turn_finishes el index s :
  given (getAttribute (now s) el "data-class-condition" (suffixOf index)) = None →
  getAttribute (now s) el "data-class-add" (suffixOf index) = None →
  getAttribute (now s) el "data-class-remove" (suffixOf index) = None →
  getAttribute (now s) el "data-class-toggle" (suffixOf index) = None →
  getAttribute (now s) el "data-class-set" (suffixOf index) = None →
  turn env evalCondition el index s = Finished s.
Proof.
  intros Hcond Hadd Hremove Htoggle Hset. unfold turn, conditionHolds. cbv zeta.
  rewrite Hcond. cbn [negb]. rewrite Hadd, Hremove, Htoggle, Hset. by destruct s.
Qed.

Lemma turns_terminate el n k index s :
  (index + k = n)%nat →
  given (getAttribute (now s) el "data-class-condition" (suffixOf n)) = None →
  getAttribute (now s) el "data-class-add" (suffixOf n) = None →
  getAttribute (now s) el "data-class-remove" (suffixOf n) = None →
  getAttribute (now s) el "data-class-toggle" (suffixOf n) = None →
  getAttribute (now s) el "data-class-set" (suffixOf n) = None →
  is_Some (turns env evalCondition el (S k) index s).
Proof.
  revert index s.
  induction k as [|k IH]; intros index s Hindex Hcond Hadd Hremove Htoggle Hset.
  - assert (index = n) as -> by lia. cbn [turns]. by rewrite turn_finishes.
  - cbn [turns].
    pose proof (λ name, turn_attributes el index s name (suffixOf n)) as Hattr.
    destruct (turn env evalCondition el index s) as [s1|s1]; [|done].
    cbn [stateOf] in Hattr. apply IH; [lia|by rewrite Hattr..].
Qed.

End ClassListener.

(** X16.  When the conditions of the steps leave the page alone, a run
    of the listener that comes to its end has changed nothing on the page
    but class lists: every element has the attributes, the content, the
    scroll offsets and the listeners it had; and every timer that was
    pending is still pending, in the same order, before the ones the run
    has set. *)
Theorem onEvent_changes_class_lists_only env evalCondition el fuel s s' :
  (∀ code x w, (evalCondition code x w).1 = dom w) →
  DataClass.onEvent env evalCondition el fuel s = Some s' →
  (∀ x, exceptClasses (elementAt (DataClass.now s') x)
        = exceptClasses (elementAt (DataClass.now s) x))
  ∧ DataClass.timers s `prefix_of` DataClass.timers s'.
Proof. intros Hpure. by apply turns_frame. Qed.

Lemma onEvent_changes_class_lists_only_witness :
  (∀ code x w, (Sample.evalCondition code x w).1 = dom w)
  ∧ DataClass.onEvent Fixture.env Sample.evalCondition 0%nat 5 Sample.classStart
    = Some Sample.classEnd
  ∧ (classList <$> dom (DataClass.now Sample.classEnd) !! 1%nat) = Some ["a"]
  ∧ DataClass.timers Sample.classStart `prefix_of` DataClass.timers Sample.classEnd.
Proof.
  assert (∀ code x w, (Sample.evalCondition code x w).1 = dom w) as H1 by done.
  assert (DataClass.onEvent Fixture.env Sample.evalCondition 0%nat 5 Sample.classStart
          = Some Sample.classEnd) as H2 by (by vm_compute).
  assert ((classList <$> dom (DataClass.now Sample.classEnd) !! 1%nat) = Some ["a"])
    as H3 by (by vm_compute).
  exact (conj H1 (conj H2 (conj H3
           (proj2 (onEvent_changes_class_lists_only Fixture.env Sample.evalCondition
                     0%nat 5 Sample.classStart Sample.classEnd H1 H2))))).
Defined.

(** X17.  When the conditions of the steps leave the page alone and, at
    some index, the element has no condition and none of the four class
    attributes, the loop of the listener comes to its end: one turn for
    that index and each index before it is fuel enough. *)
Theorem onEvent_terminates env evalCondition el n s :
  (∀ code x w, (evalCondition code x w).1 = dom w) →
  given (DataClass.getAttribute (DataClass.now s) el "data-class-condition"
           (DataClass.suffixOf n)) = None →
  DataClass.getAttribute (DataClass.now s) el "data-class-add" (DataClass.suffixOf n)
    = None →
  DataClass.getAttribute (DataClass.now s) el "data-class-remove" (DataClass.suffixOf n)
    = None →
  DataClass.getAttribute (DataClass.now s) el "data-class-toggle" (DataClass.suffixOf n)
    = None →
  DataClass.getAttribute (DataClass.now s) el "data-class-set" (DataClass.suffixOf n)
    = None →
  is_Some (DataClass.onEvent env evalCondition el (S n) s).
Proof.
  intros Hpure Hcond Hadd Hremove Htoggle Hset.
  apply (turns_terminate env evalCondition Hpure el n n 0%nat s); [lia|done..].
Qed.

Lemma onEvent_terminates_witness :
  (∀ code x w, (Sample.evalCondition code x w).1 = dom w)
  ∧ given (DataClass.getAttribute (DataClass.now Sample.classStart) 0%nat
             "data-class-condition" (DataClass.suffixOf 3)) = None
  ∧ DataClass.getAttribute (DataClass.now Sample.classStart) 0%nat "data-class-add"
      (DataClass.suffixOf 3) = None
  ∧ DataClass.getAttribute (DataClass.now Sample.classStart) 0%nat "data-class-remove"
      (DataClass.suffixOf 3) = None
  ∧ DataClass.getAttribute (DataClass.now Sample.classStart) 0%nat "data-class-toggle"
      (DataClass.suffixOf 3) = None
  ∧ DataClass.getAttribute (DataClass.now Sample.classStart) 0%nat "data-class-set"
      (DataClass.suffixOf 3) = None
  ∧ is_Some (DataClass.onEvent Fixture.env Sample.evalCondition 0%nat 4 Sample.classStart).
Proof.
  assert (∀ code x w, (Sample.evalCondition code x w).1 = dom w) as H1 by done.
  assert (given (DataClass.getAttribute (DataClass.now Sample.classStart) 0%nat
                   "data-class-condition" (DataClass.suffixOf 3)) = None)
    as H2 by (by vm_compute).
  assert (DataClass.getAttribute (DataClass.now Sample.classStart) 0%nat
            "data-class-add" (DataClass.suffixOf 3) = None) as H3 by (by vm_compute).
  assert (DataClass.getAttribute (DataClass.now Sample.classStart) 0%nat
            "data-class-remove" (DataClass.suffixOf 3) = None) as H4 by (by vm_compute).
  assert (DataClass.getAttribute (DataClass.now Sample.classStart) 0%nat
            "data-class-toggle" (DataClass.suffixOf 3) = None) as H5 by (by vm_compute).
  assert (DataClass.getAttribute (DataClass.now Sample.classStart) 0%nat
            "data-class-set" (DataClass.suffixOf 3) = None) as H6 by (by vm_compute).
  exact (conj H1 (conj H2 (conj H3 (conj H4 (conj H5 (conj H6
           (onEvent_terminates Fixture.env Sample.evalCondition 0%nat 3
              Sample.classStart H1 H2 H3 H4 H5 H6))))))).
Defined.

(** X18.  A step of the [data-class-*] script that has the set
    attribute together with an add, remove or toggle attribute is skipped
    with a warning, and the loop goes on with the next index: no class is
    changed, no timer is set, and the steps that follow are still run. *)
Theorem set_with_other_lists_skips_step env evalCondition el fuel index s w :
  DataClass.conditionHolds evalCondition el (DataClass.suffixOf index) (DataClass.now s)
    = (w, true) →
  is_Some (DataClass.getAttribute w el "data-class-set" (DataClass.suffixOf index)) →
  is_Some (DataClass.getAttribute w el "data-class-add" (DataClass.suffixOf index))
  ∨ is_Some (DataClass.getAttribute w el "data-class-remove" (DataClass.suffixOf index))
  ∨ is_Some (DataClass.getAttribute w el "data-class-toggle" (DataClass.suffixOf index)) →
  DataClass.turns env evalCondition el (S fuel) index s
    = DataClass.turns env evalCondition el fuel (S index)
        (DataClass.State
           (log (EWarn "Cannot set classes and add/remove/toggle classes at the same time"
                   VNull) w)
           (DataClass.timers s)).
Proof.
  intros Hcond [cs Hset] Hother. cbn [DataClass.turns].
  unfold DataClass.turn. cbv zeta. rewrite Hcond. cbn [negb]. rewrite Hset.
  destruct (DataClass.getAttribute w el "data-class-add" _),
    (DataClass.getAttribute w el "data-class-remove" _),
    (DataClass.getAttribute w el "data-class-toggle" _); try done.
  by destruct Hother as [[? [=]]|[[? [=]]|[? [=]]]].
Qed.

Lemma set_with_other_lists_skips_step_witness :
  DataClass.conditionHolds Sample.evalCondition 0%nat (DataClass.suffixOf 1)
    (DataClass.now Sample.classStart) = (DataClass.now Sample.classStart, true)
  ∧ is_Some (DataClass.getAttribute (DataClass.now Sample.classStart) 0%nat
               "data-class-set" (DataClass.suffixOf 1))
  ∧ (is_Some (DataClass.getAttribute (DataClass.now Sample.classStart) 0%nat
                "data-class-add" (DataClass.suffixOf 1))
     ∨ is_Some (DataClass.getAttribute (DataClass.now Sample.classStart) 0%nat
                  "data-class-remove" (DataClass.suffixOf 1))
     ∨ is_Some (DataClass.getAttribute (DataClass.now Sample.classStart) 0%nat
                  "data-class-toggle" (DataClass.suffixOf 1)))
  ∧ DataClass.turns Fixture.env Sample.evalCondition 0%nat 3 1 Sample.classStart
    = DataClass.turns Fixture.env Sample.evalCondition 0%nat 2 2
        (DataClass.State
           (log (EWarn "Cannot set classes and add/remove/toggle classes at the same time"
                   VNull) (DataClass.now Sample.classStart))
           (DataClass.timers Sample.classStart)).
Proof.
  assert (DataClass.conditionHolds Sample.evalCondition 0%nat (DataClass.suffixOf 1)
            (DataClass.now Sample.classStart) = (DataClass.now Sample.classStart, true))
    as H1 by (by vm_compute).
  assert (is_Some (DataClass.getAttribute (DataClass.now Sample.classStart) 0%nat
                     "data-class-set" (DataClass.suffixOf 1))) as H2.
  { exists "on". by vm_compute. }
  assert (is_Some (DataClass.getAttribute (DataClass.now Sample.classStart) 0%nat
                     "data-class-add" (DataClass.suffixOf 1))
          ∨ is_Some (DataClass.getAttribute (DataClass.now Sample.classStart) 0%nat
                       "data-class-remove" (DataClass.suffixOf 1))
          ∨ is_Some (DataClass.getAttribute (DataClass.now Sample.classStart) 0%nat
                       "data-class-toggle" (DataClass.suffixOf 1))) as H3.
  { left. exists "x". by vm_compute. }
  exact (conj H1 (conj H2 (conj H3
           (set_with_other_lists_skips_step Fixture.env Sample.evalCondition 0%nat 2 1
              Sample.classStart (DataClass.now Sample.classStart) H1 H2 H3)))).
Defined.

(** The run of the sample button, evaluated: the first step toggles [b]
    on both panels at once, the second is skipped, the third is queued
    for 2000 milliseconds and has changed nothing yet. *)
Example data_class_sample_run :
  (classList <$> dom (DataClass.now Sample.classEnd) !! 1%nat) = Some ["a"]
  ∧ (classList <$> dom (DataClass.now Sample.classEnd) !! 2%nat) = Some []
  ∧ trace (DataClass.now Sample.classEnd)
    = [EWarn "Cannot set classes and add/remove/toggle classes at the same time" VNull]
  ∧ DataClass.timers Sample.classEnd
    = [DataClass.Timer (JFin (inject_Z 2000)) [1%nat] (ClassRequest ["late"] [] [] [])].
Proof. repeat split; by vm_compute. Qed.

(* ===================================================================== *)
(** * Properties of the [data-scroll-target] and [data-clear-target] scripts *)
(* ===================================================================== *)

Section ButtonScripts.
Import ButtonFunctions.

(** X19.  A click on an element that has no [data-scroll-to] attribute
    and whose targets are found ends with an exception and scrolls
    nothing: the keyword [top] is the default for an attribute that is
    there and empty, not for one that is missing. *)
Theorem scrollTarget_handler_without_keyword env el w targetElements :
  clickTargets env el (attributes (elementAt w el) !! "data-scroll-target") w
    = Some targetElements →
  targetElements ≠ [] →
  attributes (elementAt w el) !! "data-scroll-to" = None →
  scrollTarget_handler env el w = (w, Throws).
Proof.
  intros Htargets Hsome Hnone. unfold scrollTarget_handler. cbv zeta.
  rewrite Htargets, Hnone. by destruct targetElements.
Qed.

Lemma scrollTarget_handler_without_keyword_witness :
  clickTargets Fixture.env 0%nat
    (attributes (elementAt (Fixture.page Sample.scrollWithoutKeyword SNull) 0%nat)
       !! "data-scroll-target")
    (Fixture.page Sample.scrollWithoutKeyword SNull) = Some [1%nat; 2%nat]
  ∧ [1%nat; 2%nat] ≠ []
  ∧ attributes (elementAt (Fixture.page Sample.scrollWithoutKeyword SNull) 0%nat)
      !! "data-scroll-to" = None
  ∧ scrollTarget_handler Fixture.env 0%nat (Fixture.page Sample.scrollWithoutKeyword SNull)
    = (Fixture.page Sample.scrollWithoutKeyword SNull, Throws).
Proof.
  assert (clickTargets Fixture.env 0%nat
            (attributes (elementAt (Fixture.page Sample.scrollWithoutKeyword SNull) 0%nat)
               !! "data-scroll-target")
            (Fixture.page Sample.scrollWithoutKeyword SNull) = Some [1%nat; 2%nat])
    as H1 by (by vm_compute).
  assert ([1%nat; 2%nat] ≠ []) as H2 by discriminate.
  assert (attributes (elementAt (Fixture.page Sample.scrollWithoutKeyword SNull) 0%nat)
            !! "data-scroll-to" = None) as H3 by (by vm_compute).
  exact (conj H1 (conj H2 (conj H3
           (scrollTarget_handler_without_keyword Fixture.env 0%nat
              (Fixture.page Sample.scrollWithoutKeyword SNull) [1%nat; 2%nat]
              H1 H2 H3)))).
Defined.

(** X20.  A click on an element whose [data-scroll-to] attribute reads,
    in any letter case, as one of the four keywords, or is empty (then the
    keyword is top), scrolls every target to that edge, not only the
    first: each target on the page gets the offset of the keyword, every
    other element is left as it is, and nothing is logged. *)
Theorem scrollTarget_handler_scrolls_every_target env el w targetElements raw k :
  clickTargets env el (attributes (elementAt w el) !! "data-scroll-target") w
    = Some targetElements →
  targetElements ≠ [] →
  NoDup targetElements →
  attributes (elementAt w el) !! "data-scroll-to" = Some raw →
  scrollKeyword (VStr (default "top" (given (Some (Js.toLowerCase raw))))) = Some k →
  (scrollTarget_handler env el w).2 = Returns RUndefined
  ∧ trace (scrollTarget_handler env el w).1 = trace w
  ∧ (∀ x, x ∈ targetElements → is_Some (dom w !! x) →
       elementAt (scrollTarget_handler env el w).1 x = scrollElement k (elementAt w x))
  ∧ (∀ x, x ∉ targetElements →
       elementAt (scrollTarget_handler env el w).1 x = elementAt w x).
Proof.
  intros Htargets Hsome Hnodup Hraw Hk. unfold scrollTarget_handler. cbv zeta.
  rewrite Htargets, Hraw, Hk.
  destruct targetElements as [|t rest]; [done|]. cbn [fst snd].
  repeat split.
  - intros x Hx Hpage. by apply elementAt_onTargets_once.
  - intros x Hx. by apply elementAt_onTargets_other.
Qed.

Lemma scrollTarget_handler_scrolls_every_target_witness :
  clickTargets Fixture.env 0%nat
    (attributes (elementAt (Fixture.page Sample.scrollToBottom SNull) 0%nat)
       !! "data-scroll-target")
    (Fixture.page Sample.scrollToBottom SNull) = Some [1%nat; 2%nat]
  ∧ [1%nat; 2%nat] ≠ []
  ∧ NoDup [1%nat; 2%nat]
  ∧ attributes (elementAt (Fixture.page Sample.scrollToBottom SNull) 0%nat)
      !! "data-scroll-to" = Some "Bottom"
  ∧ scrollKeyword (VStr (default "top" (given (Some (Js.toLowerCase "Bottom")))))
    = Some Bottom
  ∧ (scrollTarget_handler Fixture.env 0%nat (Fixture.page Sample.scrollToBottom SNull)).2
    = Returns RUndefined
  ∧ scrollTop (elementAt (scrollTarget_handler Fixture.env 0%nat
                            (Fixture.page Sample.scrollToBottom SNull)).1 2%nat) = 400.
Proof.
  assert (clickTargets Fixture.env 0%nat
            (attributes (elementAt (Fixture.page Sample.scrollToBottom SNull) 0%nat)
               !! "data-scroll-target")
            (Fixture.page Sample.scrollToBottom SNull) = Some [1%nat; 2%nat])
    as H1 by (by vm_compute).
  assert ([1%nat; 2%nat] ≠ []) as H2 by discriminate.
  assert (NoDup [1%nat; 2%nat]) as H3.
  { apply (bool_decide_unpack _). by vm_compute. }
  assert (attributes (elementAt (Fixture.page Sample.scrollToBottom SNull) 0%nat)
            !! "data-scroll-to" = Some "Bottom") as H4 by (by vm_compute).
  assert (scrollKeyword (VStr (default "top" (given (Some (Js.toLowerCase "Bottom")))))
          = Some Bottom) as H5 by (by vm_compute).
  assert (scrollTop (elementAt (scrollTarget_handler Fixture.env 0%nat
                                  (Fixture.page Sample.scrollToBottom SNull)).1 2%nat)
          = 400) as H6 by (by vm_compute).
  exact (conj H1 (conj H2 (conj H3 (conj H4 (conj H5
           (conj (proj1 (scrollTarget_handler_scrolls_every_target Fixture.env 0%nat
                           (Fixture.page Sample.scrollToBottom SNull) [1%nat; 2%nat]
                           "Bottom" Bottom H1 H2 H3 H4 H5))
              H6)))))).
Defined.

(** X21.  A click on an element whose clear method is innerHTML or
    textContent (innerHTML when the attribute is missing or empty) gives
    every target on the page the text of [data-clear-content-value] (the
    empty text when that attribute is missing) as its content under that
    method; every other element is left as it is. *)
Theorem clearTarget_handler_clears_every_target env el w targetElements method :
  clickTargets env el (attributes (elementAt w el) !! "data-clear-target") w
    = Some targetElements →
  targetElements ≠ [] →
  NoDup targetElements →
  default "innerHTML" (given (attributes (elementAt w el) !! "data-clear-content-method"))
    = method →
  Js.includes ["innerHTML"; "textContent"] method = true →
  (clearTarget_handler env el w).2 = Returns RUndefined
  ∧ trace (clearTarget_handler env el w).1 = trace w
  ∧ (∀ x, x ∈ targetElements → is_Some (dom w !! x) →
       getProp method (elementAt (clearTarget_handler env el w).1 x)
         = default "" (attributes (elementAt w el) !! "data-clear-content-value")
       ∧ classList (elementAt (clearTarget_handler env el w).1 x)
         = classList (elementAt w x))
  ∧ (∀ x, x ∉ targetElements →
       elementAt (clearTarget_handler env el w).1 x = elementAt w x).
Proof.
  intros Htargets Hsome Hnodup Hmethod Hvalid. unfold clearTarget_handler. cbv zeta.
  rewrite Htargets, Hmethod, Hvalid.
  destruct targetElements as [|t rest]; [done|]. cbn [fst snd].
  repeat split.
  - rewrite elementAt_onTargets_once by done. rewrite getProp_setProp.
    unfold given. destruct (attributes _ !! "data-clear-content-value") as [s|]; [|done].
    by case_bool_decide.
  - by rewrite elementAt_onTargets_once by done.
  - intros x Hx. by apply elementAt_onTargets_other.
Qed.

Lemma clearTarget_handler_clears_every_target_witness :
  clickTargets Fixture.env 0%nat
    (attributes (elementAt (Fixture.page Sample.clearPanels SNull) 0%nat)
       !! "data-clear-target")
    (Fixture.page Sample.clearPanels SNull) = Some [1%nat; 2%nat]
  ∧ [1%nat; 2%nat] ≠ []
  ∧ NoDup [1%nat; 2%nat]
  ∧ default "innerHTML"
      (given (attributes (elementAt (Fixture.page Sample.clearPanels SNull) 0%nat)
                !! "data-clear-content-method")) = "innerHTML"
  ∧ Js.includes ["innerHTML"; "textContent"] "innerHTML" = true
  ∧ (clearTarget_handler Fixture.env 0%nat (Fixture.page Sample.clearPanels SNull)).2
    = Returns RUndefined
  ∧ getProp "innerHTML"
      (elementAt (clearTarget_handler Fixture.env 0%nat
                    (Fixture.page Sample.clearPanels SNull)).1 2%nat) = "-".
Proof.
  assert (clickTargets Fixture.env 0%nat
            (attributes (elementAt (Fixture.page Sample.clearPanels SNull) 0%nat)
               !! "data-clear-target")
            (Fixture.page Sample.clearPanels SNull) = Some [1%nat; 2%nat])
    as H1 by (by vm_compute).
  assert ([1%nat; 2%nat] ≠ []) as H2 by discriminate.
  assert (NoDup [1%nat; 2%nat]) as H3.
  { apply (bool_decide_unpack _). by vm_compute. }
  assert (default "innerHTML"
            (given (attributes (elementAt (Fixture.page Sample.clearPanels SNull) 0%nat)
                      !! "data-clear-content-method")) = "innerHTML")
    as H4 by (by vm_compute).
  assert (Js.includes ["innerHTML"; "textContent"] "innerHTML" = true)
    as H5 by (by vm_compute).
  assert (getProp "innerHTML"
            (elementAt (clearTarget_handler Fixture.env 0%nat
                          (Fixture.page Sample.clearPanels SNull)).1 2%nat) = "-")
    as H6 by (by vm_compute).
  exact (conj H1 (conj H2 (conj H3 (conj H4 (conj H5
           (conj (proj1 (clearTarget_handler_clears_every_target Fixture.env 0%nat
                           (Fixture.page Sample.clearPanels SNull) [1%nat; 2%nat]
                           "innerHTML" H1 H2 H3 H4 H5))
              H6)))))).
Defined.

(** X22.  A click on an element whose clear method is neither
    innerHTML nor textContent logs a warning and changes nothing on the
    page. *)
Theorem clearTarget_handler_unknown_method env el w targetElements method :
  clickTargets env el (attributes (elementAt w el) !! "data-clear-target") w
    = Some targetElements →
  targetElements ≠ [] →
  default "innerHTML" (given (attributes (elementAt w el) !! "data-clear-content-method"))
    = method →
  Js.includes ["innerHTML"; "textContent"] method = false →
  clearTarget_handler env el w
    = (log (EWarn "Invalid clear method" (VStr method)) w, Returns RUndefined).
Proof.
  intros Htargets Hsome Hmethod Hvalid. unfold clearTarget_handler. cbv zeta.
  rewrite Htargets, Hmethod, Hvalid. by destruct targetElements.
Qed.

Lemma clearTarget_handler_unknown_method_witness :
  clickTargets Fixture.env 0%nat
    (attributes (elementAt (Fixture.page Sample.clearOuter SNull) 0%nat)
       !! "data-clear-target")
    (Fixture.page Sample.clearOuter SNull) = Some [1%nat; 2%nat]
  ∧ [1%nat; 2%nat] ≠ []
  ∧ default "innerHTML"
      (given (attributes (elementAt (Fixture.page Sample.clearOuter SNull) 0%nat)
                !! "data-clear-content-method")) = "outerHTML"
  ∧ Js.includes ["innerHTML"; "textContent"] "outerHTML" = false
  ∧ clearTarget_handler Fixture.env 0%nat (Fixture.page Sample.clearOuter SNull)
    = (log (EWarn "Invalid clear method" (VStr "outerHTML"))
         (Fixture.page Sample.clearOuter SNull),
       Returns RUndefined).
Proof.
  assert (clickTargets Fixture.env 0%nat
            (attributes (elementAt (Fixture.page Sample.clearOuter SNull) 0%nat)
               !! "data-clear-target")
            (Fixture.page Sample.clearOuter SNull) = Some [1%nat; 2%nat])
    as H1 by (by vm_compute).
  assert ([1%nat; 2%nat] ≠ []) as H2 by discriminate.
  assert (default "innerHTML"
            (given (attributes (elementAt (Fixture.page Sample.clearOuter SNull) 0%nat)
                      !! "data-clear-content-method")) = "outerHTML")
    as H3 by (by vm_compute).
  assert (Js.includes ["innerHTML"; "textContent"] "outerHTML" = false)
    as H4 by (by vm_compute).
  exact (conj H1 (conj H2 (conj H3 (conj H4
           (clearTarget_handler_unknown_method Fixture.env 0%nat
              (Fixture.page Sample.clearOuter SNull) [1%nat; 2%nat] "outerHTML"
              H1 H2 H3 H4))))).
Defined.

(** ** Registration *)

Lemma fresh_closure (ls : list closure) n s el :
  Forall (λ c, c_id c < n)%nat ls → Closure n s el ∉ ls.
Proof.
  intros Hids Hin. rewrite Forall_forall in Hids. apply Hids in Hin. cbn in Hin. lia.
Qed.

Lemma buttonAt_insert c bs n el b : buttonAt (Registry c (<[el := b]> bs) n) el = b.
Proof. unfold buttonAt. cbn. by rewrite lookup_insert_eq. Qed.

(** The listeners of an element apart from the one a script keeps under
    its name in [el._bf]. *)
Lemma register_listeners s el p :
  is_Some (dom (content p) !! el) →
  Forall (λ c, c_id c < nextClosure p)%nat (clickListeners (buttonAt p el)) →
  ∃ others,
    clickListeners (buttonAt (register s el p) el)
      = others ++ [Closure (nextClosure p) s el]
    ∧ Forall (λ c, c_id c < nextClosure p)%nat others
    ∧ (default ∅ (_bf (buttonAt (register s el p) el))) !! handlerName s
      = Some (Closure (nextClosure p) s el)
    ∧ nextClosure (register s el p) = S (nextClosure p)
    ∧ dom (content (register s el p)) = dom (content p).
Proof.
  intros [e He] Hids. unfold register. rewrite He. cbv zeta.
  set (others := match default ∅ (_bf (buttonAt p el)) !! handlerName s with
                 | Some previous => filter (λ h, h ≠ previous) (clickListeners (buttonAt p el))
                 | None => clickListeners (buttonAt p el)
                 end).
  assert (Forall (λ c, c_id c < nextClosure p)%nat others) as Hothers.
  { unfold others. destruct (_ !! handlerName s); [|done].
    rewrite Forall_forall in Hids. apply Forall_forall.
    intros x [_ Hx]%list_elem_of_filter. by apply Hids. }
  exists others. fold others. rewrite !buttonAt_insert.
  cbn [default clickListeners _bf content nextClosure].
  rewrite bool_decide_eq_false_2 by (by apply fresh_closure).
  repeat split; [done|]. apply lookup_insert_eq.
Qed.

(** X23.  Calling [makeScrollTarget] a second time on an element of
    the page replaces the listener of the first call: after each call the
    element has the listeners it had apart from the script's own, followed
    by the listener of that call, so that their number does not grow. *)
Theorem makeScrollTarget_twice_keeps_one_listener el p :
  is_Some (dom (content p) !! el) →
  Forall (λ c, c_id c < nextClosure p)%nat (clickListeners (buttonAt p el)) →
  ∃ others,
    clickListeners (buttonAt (makeScrollTarget el p) el)
      = others ++ [Closure (nextClosure p) ScrollTarget el]
    ∧ clickListeners (buttonAt (makeScrollTarget el (makeScrollTarget el p)) el)
      = others ++ [Closure (S (nextClosure p)) ScrollTarget el].
Proof.
  intros Hpage Hids. unfold makeScrollTarget.
  destruct (register_listeners ScrollTarget el p Hpage Hids)
    as (others & Hls & Hothers & Hbf & Hnext & Hdom).
  exists others. split; [exact Hls|].
  set (p1 := register ScrollTarget el p) in *.
  assert (is_Some (dom (content p1) !! el)) as Hpage1 by (by rewrite Hdom).
  destruct Hpage1 as [e1 He1].
  unfold register. rewrite He1. cbv zeta. rewrite Hbf, Hls, Hnext.
  rewrite buttonAt_insert. cbn [default clickListeners].
  rewrite filter_app, filter_cons_False, filter_nil, app_nil_r by (by intros []).
  rewrite filter_other by (by apply fresh_closure).
  rewrite bool_decide_eq_false_2; [done|].
  apply fresh_closure. eapply Forall_impl; [exact Hothers|]. cbn. lia.
Qed.

Lemma makeScrollTarget_twice_keeps_one_listener_witness :
  is_Some (dom (content Sample.unregistered) !! 0%nat)
  ∧ Forall (λ c, c_id c < nextClosure Sample.unregistered)%nat
      (clickListeners (buttonAt Sample.unregistered 0%nat))
  ∧ ∃ others,
      clickListeners (buttonAt (makeScrollTarget 0%nat Sample.unregistered) 0%nat)
        = others ++ [Closure (nextClosure Sample.unregistered) ScrollTarget 0%nat]
      ∧ clickListeners
          (buttonAt (makeScrollTarget 0%nat (makeScrollTarget 0%nat Sample.unregistered))
             0%nat)
        = others ++ [Closure (S (nextClosure Sample.unregistered)) ScrollTarget 0%nat].
Proof.
  assert (is_Some (dom (content Sample.unregistered) !! 0%nat)) as H1.
  { eexists. by vm_compute. }
  assert (Forall (λ c, c_id c < nextClosure Sample.unregistered)%nat
            (clickListeners (buttonAt Sample.unregistered 0%nat))) as H2 by constructor.
  exact (conj H1 (conj H2
           (makeScrollTarget_twice_keeps_one_listener 0%nat Sample.unregistered H1 H2))).
Defined.

(** The same calls evaluated: one listener after each of them. *)
Example makeScrollTarget_twice_on_sample :
  clickListeners (buttonAt (makeScrollTarget 0%nat Sample.unregistered) 0%nat)
    = [Closure 0 ScrollTarget 0%nat]
  ∧ clickListeners
      (buttonAt (makeScrollTarget 0%nat (makeScrollTarget 0%nat Sample.unregistered)) 0%nat)
    = [Closure 1 ScrollTarget 0%nat].
Proof. split; by vm_compute. Qed.

End ButtonScripts.

(* ===================================================================== *)
(** * What a step leaves alone *)
(* ===================================================================== *)

Section Frame.
Context (R : relation element) `{!Reflexive R, !Transitive R} (x : elem).

Lemma steady_mret {A} (a : A) : steady R x (mret a).
Proof. by intros w. Qed.

Lemma steady_stop {A} o : steady R x (@stop A o).
Proof. by intros w. Qed.

Lemma steady_emit e : steady R x (emit e).
Proof. by intros w. Qed.

Lemma steady_ask {A} (f : world → gmap elem element * A) :
  keeps R x (λ w, (f w).1) → steady R x (ask f).
Proof. intros Hf w. apply Hf. Qed.

Lemma steady_wait f : keeps R x f → steady R x (wait f).
Proof. intros Hf w. apply Hf. Qed.

Lemma steady_update f :
  (∀ w, R (elementAt w x) (elementAt (f w) x)) → steady R x (update f).
Proof. intros Hf w. apply Hf. Qed.

Lemma steady_bind {A B} (m : action A) (k : A → action B) :
  steady R x m → (∀ a, steady R x (k a)) → steady R x (m ≫= k).
Proof.
  intros Hm Hk w. specialize (Hm w).
  unfold mbind, action_bind. destruct (m w) as [w' [a|o]]; cbn in *; [|done].
  by etrans; [|apply Hk].
Qed.

Lemma steady_selectInto env selector query message targetElements :
  steady R x (selectInto env selector query message targetElements).
Proof.
  unfold selectInto. destruct (truthy selector); [|apply steady_mret].
  intros w. by destruct (query _ w).
Qed.

Lemma steady_resolveTargets env el options : steady R x (resolveTargets env el options).
Proof.
  unfold resolveTargets.
  destruct (sanitizeValue (orNull (opt options "target")));
    destruct (sanitizeValue (orNull (opt options "targetChildren")));
    try apply steady_mret;
    (apply steady_bind; [|intros ?]); apply steady_selectInto.
Qed.

Context (env : Env) (Htame : tame R env x).

Ltac steady :=
  repeat first
    [ apply steady_mret
    | apply steady_stop
    | apply steady_emit
    | apply steady_ask; apply Htame
    | apply steady_wait; apply Htame
    | apply steady_bind; [|intros ?]
    | match goal with
      | |- steady _ _ (match ?v with _ => _ end) => destruct v
      end ].

Lemma steady_evaluate why v el targetElements :
  steady R x (evaluate env why v el targetElements).
Proof. unfold evaluate. steady. Qed.

Lemma steady_call why f el targetElements :
  steady R x (call env why f el targetElements).
Proof. unfold call. steady. Qed.

Lemma steady_checkCondition el options targetElements :
  steady R x (checkCondition env el options targetElements).
Proof.
  unfold checkCondition. destruct (truthy _); [|apply steady_mret].
  destruct (sanitizeValue _);
    (apply steady_bind; [apply steady_evaluate || apply steady_call|intros ?]);
    steady.
Qed.

Lemma steady_checkConditionAction el options targetElements :
  steady R x (checkConditionAction env el options targetElements).
Proof.
  unfold checkConditionAction. destruct (truthy _); [|apply steady_mret].
  apply steady_bind.
  - destruct (sanitizeValue _); try apply steady_mret.
    apply steady_bind; [apply steady_call|intros ?]. steady.
  - intros _. apply steady_bind; [apply steady_evaluate|intros ?]. steady.
Qed.

Lemma steady_askConfirmation options : steady R x (askConfirmation env options).
Proof. unfold askConfirmation. destruct (truthy _); steady. Qed.

Lemma steady_runExecute el options targetElements :
  steady R x (runExecute env el options targetElements).
Proof.
  unfold runExecute. destruct (truthy _); [|apply steady_mret].
  destruct (sanitizeValue _);
    (apply steady_bind; [apply steady_evaluate || apply steady_call|intros ?]);
    steady.
Qed.

(** What [executeAction] does between the resolution of the targets and
    the class lists. *)
Lemma steady_conditions el options targetElements :
  steady R x
    (checkCondition env el options targetElements;;
     checkConditionAction env el options targetElements;;
     askConfirmation env options;;
     runExecute env el options targetElements;;
     mret targetElements).
Proof.
  apply steady_bind; [apply steady_checkCondition|intros ?].
  apply steady_bind; [apply steady_checkConditionAction|intros ?].
  apply steady_bind; [apply steady_askConfirmation|intros ?].
  apply steady_bind; [apply steady_runExecute|intros ?].
  apply steady_mret.
Qed.

Lemma steady_effects options targetElements :
  (∀ classes content scrollTo w,
     R (elementAt w x)
       (elementAt (mutate env classes content scrollTo targetElements w) x)) →
  steady R x (effects env options targetElements).
Proof.
  intros Hmutate. unfold effects.
  apply steady_bind; [unfold readClasses; steady|intros ?].
  apply steady_bind; [unfold readContent; steady|intros ?].
  apply steady_bind; [unfold readScroll; steady|intros ?].
  apply steady_bind; [unfold pause; steady|intros ?].
  apply steady_bind; [apply steady_update, Hmutate|intros ?].
  apply steady_bind; [unfold acknowledge; steady|intros ?].
  apply steady_mret.
Qed.

Lemma onTargets_moves f targetElements w :
  (∀ e, R e (f e)) → R (elementAt w x) (elementAt (onTargets f targetElements w) x).
Proof.
  intros Hf. unfold elementAt, onTargets. cbn. generalize (dom w). clear w.
  induction targetElements as [|t targetElements IH]; intros d; [done|].
  cbn [foldl]. etrans; [|apply IH].
  destruct (decide (t = x)) as [->|Hne].
  - rewrite lookup_alter_eq. destruct (d !! x); cbn; [apply Hf|done].
  - by rewrite lookup_alter_ne.
Qed.

End Frame.

(** The value a sequence of statements hands over is the one of its last
    statement. *)
Lemma seq_value {A B} (m : action A) (k : action B) (b : B) :
  (∀ w b', (k w).2 = Next b' → b' = b) →
  ∀ w b', ((m;; k) w).2 = Next b' → b' = b.
Proof.
  intros Hk w b'. unfold mbind, action_bind.
  destruct (m w) as [w' [a|o]]; cbn; [apply Hk|discriminate].
Qed.

Lemma steady_bind_value {A B} R `{!Transitive R} x
    (m : action A) (k : A → action B) a :
  steady R x m → (∀ w a', (m w).2 = Next a' → a' = a) → steady R x (k a) →
  steady R x (m ≫= k).
Proof.
  intros Hm Hvalue Hk w. specialize (Hm w). specialize (Hvalue w).
  unfold mbind, action_bind. destruct (m w) as [w' [a'|o]]; cbn in *; [|done].
  rewrite (Hvalue a' eq_refl). by etrans; [|apply Hk].
Qed.

Lemma settle_world r : (settle r).1 = r.1.
Proof. by destruct r as [? []]. Qed.

Lemma sameWiring_applyClassesTo classes e : sameWiring e (applyClassesTo classes e).
Proof. unfold applyClassesTo. by destruct (bool_decide _). Qed.

Lemma sameWiring_applyContentTo env content e :
  sameWiring e (applyContentTo env content e).
Proof.
  unfold applyContentTo. cbv zeta.
  by destruct (contentClear content), (truthy (contentSet content)),
    (truthy (contentAppend content)), (truthy (contentPrepend content)).
Qed.

Lemma sameWiring_scrollElement k e : sameWiring e (scrollElement k e).
Proof. by destruct k. Qed.

Lemma sameWiring_mutate env classes content scrollTo targetElements w x :
  sameWiring (elementAt w x)
    (elementAt (mutate env classes content scrollTo targetElements w) x).
Proof.
  unfold mutate.
  etrans; [apply (onTargets_moves sameWiring x (applyClassesTo classes) targetElements),
                 sameWiring_applyClassesTo|].
  etrans; [apply (onTargets_moves sameWiring x (applyContentTo env content)
                    targetElements),
                 sameWiring_applyContentTo|].
  unfold applyScroll. destruct scrollTo as [k|], targetElements as [|t ts]; try done.
  apply (onTargets_moves sameWiring), sameWiring_scrollElement.
Qed.

Lemma mutate_other env classes content scrollTo targetElements w x :
  x ∉ targetElements →
  elementAt (mutate env classes content scrollTo targetElements w) x = elementAt w x.
Proof.
  intros Hx. unfold mutate, applyScroll.
  destruct scrollTo as [k|], targetElements as [|t ts];
    rewrite ?elementAt_onTargets_other; try done.
  apply not_elem_of_cons in Hx as [Hne _].
  apply not_elem_of_cons. split; [done|apply not_elem_of_nil].
Qed.

(** A step leaves the wiring of every element the environment does not
    rewire as it is. *)
Lemma executeAction_keeps_wiring env x el options w :
  tame sameWiring env x →
  sameWiring (elementAt w x) (elementAt (executeAction env el options w).1 x).
Proof.
  intros Htame. unfold executeAction. cbv zeta. rewrite settle_world.
  assert (steady sameWiring x
            (targetElements ← preamble env el (withDefaults options);
             effects env (withDefaults options) targetElements)) as H; [|apply H].
  apply (steady_bind sameWiring x).
  - unfold preamble.
    apply (steady_bind sameWiring x);
      [apply (steady_resolveTargets sameWiring x)|intros ?].
    by apply (steady_conditions sameWiring x).
  - intros targetElements. apply (steady_effects sameWiring x); [done|].
    intros. apply sameWiring_mutate.
Qed.

(** X24.  A step changes nothing on an element that is not among its
    targets, as long as the scripts, dialogs and timers it calls leave
    that element alone. *)
Theorem step_leaves_other_elements_alone env el options w w1 targetElements x :
  tame eq env x →
  resolveTargets env el (withDefaults options) w = (w1, Next targetElements) →
  x ∉ targetElements →
  elementAt (executeAction env el options w).1 x = elementAt w x.
Proof.
  intros Htame Hresolve Hx. unfold executeAction. cbv zeta. rewrite settle_world.
  symmetry. revert w Hresolve.
  assert (steady eq x
            (targetElements' ← (checkCondition env el (withDefaults options) targetElements;;
                checkConditionAction env el (withDefaults options) targetElements;;
                askConfirmation env (withDefaults options);;
                runExecute env el (withDefaults options) targetElements;;
                mret targetElements);
             effects env (withDefaults options) targetElements')) as Hrest.
  { apply (steady_bind_value eq x _ _ targetElements).
    - by apply (steady_conditions eq x).
    - do 4 apply seq_value. by intros w b' [= <-].
    - apply (steady_effects eq x); [done|].
      intros. symmetry. by apply mutate_other. }
  intros w Hresolve.
  pose proof (steady_resolveTargets eq x env el (withDefaults options) w)
    as Hw1.
  rewrite Hresolve in Hw1. cbn in Hw1. rewrite Hw1.
  specialize (Hrest w1). rewrite Hrest. f_equal. f_equal.
  unfold preamble, mbind, action_bind. by rewrite Hresolve.
Qed.

Lemma step_leaves_other_elements_alone_witness :
  tame eq Fixture.env 2%nat
  ∧ resolveTargets Fixture.env 0%nat
      (withDefaults (Fixture.firstOptions Fixture.notConflicting))
      (Fixture.before Fixture.notConflicting)
    = (Fixture.before Fixture.notConflicting, Next [1%nat])
  ∧ (2%nat ∉ [1%nat])
  ∧ elementAt
      (executeAction Fixture.env 0%nat (Fixture.firstOptions Fixture.notConflicting)
         (Fixture.before Fixture.notConflicting)).1 2%nat
    = elementAt (Fixture.before Fixture.notConflicting) 2%nat.
Proof.
  assert (tame eq Fixture.env 2%nat) as H1 by (by split; intros; intros w).
  assert (resolveTargets Fixture.env 0%nat
            (withDefaults (Fixture.firstOptions Fixture.notConflicting))
            (Fixture.before Fixture.notConflicting)
          = (Fixture.before Fixture.notConflicting, Next [1%nat]))
    as H2 by (by vm_compute).
  assert (2%nat ∉ [1%nat]) as H3 by (by apply not_elem_of_cons; split;
                                       [|apply not_elem_of_nil]).
  exact (conj H1 (conj H2 (conj H3
           (step_leaves_other_elements_alone Fixture.env 0%nat
              (Fixture.firstOptions Fixture.notConflicting)
              (Fixture.before Fixture.notConflicting)
              (Fixture.before Fixture.notConflicting) [1%nat] 2%nat H1 H2 H3)))).
Defined.

(* ===================================================================== *)
(** * What a run of the listener leaves alone *)
(* ===================================================================== *)

Lemma getElementOptions_wiring env e e' defaultOptions prefix onlyExisting :
  (∀ name, attributeValue e' name = attributeValue e name) →
  getElementOptions env e' defaultOptions prefix onlyExisting
  = getElementOptions env e defaultOptions prefix onlyExisting.
Proof.
  intros Hsame. unfold getElementOptions. generalize (∅ : gmap string value).
  induction defaultOptions as [|entry defaultOptions IH]; intros options; [done|].
  cbn [foldl]. rewrite IH. f_equal. unfold readOption. by rewrite Hsame.
Qed.

Lemma stepOptions_wiring env el name w w' :
  sameWiring (elementAt w el) (elementAt w' el) →
  stepOptions env el name w' = stepOptions env el name w.
Proof. intros [Hsame _]. unfold stepOptions. by apply getElementOptions_wiring. Qed.

Lemma stepOptions_absent env el name w :
  ¬ hasStepAttribute (elementAt w el) name →
  present (stepOptions env el name w) = false.
Proof.
  intros Hnone. rewrite <- present_empty. f_equal.
  apply map_eq. intros key. rewrite lookup_empty.
  destruct (decide (key ∈ defaultActionOptions.*1)) as [Hin|Hout].
  - pose proof Hin as Hin'.
    apply list_elem_of_fmap in Hin' as [[key' dflt] [-> Hin']]. cbn [fst] in *.
    rewrite (stepOptions_inside _ _ _ _ _ _ Hin').
    destruct (attributes _ !! _) eqn:Hattr; [|done].
    destruct Hnone. exists key'. split; [done|]. by rewrite Hattr.
  - by apply stepOptions_outside.
Qed.

Lemma elementAt_dom w w' x : dom w' = dom w → elementAt w' x = elementAt w x.
Proof. intros H. unfold elementAt. by rewrite H. Qed.

Section Wiring.
Context (env : Env) (x : elem) (Htame : tame sameWiring env x).
Context (el : elem) (eventType prefix : string).

(** The run [p], started from the page [w], has left the wiring of [x]
    as it was. *)
Let kept (w : world) (p : progress) : Prop :=
  sameWiring (elementAt w x) (elementAt (finalWorld p) x).

Lemma andThen_kept w p k :
  kept w p → (∀ st, kept (hworld st) (k st)) → kept w (andThen p k).
Proof.
  unfold kept. intros Hp Hk. destruct p as [st| |]; [|done..].
  unfold andThen. etrans; [exact Hp|apply Hk].
Qed.

Lemma afterExecute_kept (st : hstate) name options (k : world → retval → hstate) :
  (∀ w r, dom (hworld (k w r)) = dom w) →
  kept (hworld st)
    match executeAction env el options (log (EStep name) (hworld st)) with
    | (w, Throws) => Crash w
    | (w, Returns r) => Continue (k w r)
    end.
Proof.
  intros Hk. unfold kept.
  pose proof (executeAction_keeps_wiring env x el options
                (log (EStep name) (hworld st)) Htame) as H.
  destruct (executeAction _ _ _ _) as [w [r|]]; cbn in *; [|done].
  by rewrite (elementAt_dom w _ x (Hk w r)).
Qed.

Lemma firstStep_kept st : kept (hworld st) (firstStep env el prefix st).
Proof.
  unfold firstStep. cbv zeta. destruct (present _); [|by unfold kept].
  apply (afterExecute_kept st First _ (λ w r, showSplashIf env _ (HState w _ r))).
  intros w r. by destruct (showSplashIf_spec env
    (withDefaults (stepOptions env el prefix (hworld st))) (HState w (splashDlg st) r))
    as (_ & -> & _).
Qed.

Lemma closingStep_kept name suffix st :
  kept (hworld st) (closingStep env el prefix name suffix st).
Proof.
  unfold closingStep. cbv zeta. destruct (present _); [|by unfold kept].
  apply (afterExecute_kept st name _
           (λ w r, showSplashIf env _
                     (if splashIsNull _ then hideSplash (HState w _ _)
                      else HState w _ _))).
  intros w r.
  match goal with
  | |- context [showSplashIf env ?o ?s] =>
      destruct (showSplashIf_spec env o s) as (_ & -> & _)
  end.
  destruct (splashIsNull _); [|done].
  by destruct (hideSplash_spec (HState w (splashDlg st) (conditionMet st)))
    as (_ & -> & _).
Qed.

Lemma numberedSteps_kept fuel i st :
  kept (hworld st) (numberedSteps env el prefix fuel i st).
Proof.
  revert i st. induction fuel as [|fuel IH]; intros i st; cbn [numberedSteps]; cbv zeta;
    destruct (truthyRet _); try (by unfold kept);
    destruct (present _); try (by unfold kept).
  pose proof (executeAction_keeps_wiring env x el
                (withDefaults (stepOptions env el (prefix +:+ "-" +:+ pretty i) (hworld st)))
                (log (EStep (Numbered i)) (hworld st)) Htame) as H.
  destruct (executeAction _ _ _ _) as [w [r|]]; cbn in H; [|done].
  unfold kept in *. etrans; [|apply IH]. etrans; [exact H|].
  match goal with
  | |- context [showSplashIf env ?o ?s] =>
      destruct (showSplashIf_spec env o s) as (_ & Hd & _)
  end.
  rewrite (elementAt_dom _ _ x Hd).
  destruct (clearsSplash _); [|done].
  destruct (hideSplash_spec (HState w (splashDlg st) r)) as (_ & Hd' & _).
  by rewrite (elementAt_dom _ _ x Hd').
Qed.

Lemma replayNative_kept st : kept (hworld st) (replayNative env el eventType st).
Proof.
  unfold replayNative, kept.
  destruct (_eventActions _) as [ea|]; [destruct (objRead eventType ea) as [|h|t]|];
    try done.
  pose proof (tame_callNative _ _ _ Htame h el (log (ENative h) (hworld st))) as H.
  cbv beta in H. destruct (callNative env h el _) as [d []]; exact H.
Qed.

Lemma fromReplay_kept st : kept (hworld st) (fromReplay env el eventType prefix st).
Proof.
  unfold fromReplay. apply andThen_kept.
  - destruct (truthyRet _); [apply replayNative_kept|by unfold kept].
  - intros st'. unfold kept, finalWorld.
    destruct (hideSplash_spec st') as (_ & Hd & _). by rewrite (elementAt_dom _ _ x Hd).
Qed.

Lemma fromFinally_kept st : kept (hworld st) (fromFinally env el eventType prefix st).
Proof.
  unfold fromFinally. apply andThen_kept; [apply closingStep_kept|].
  apply fromReplay_kept.
Qed.

Lemma epilogue_kept st : kept (hworld st) (epilogue env el eventType prefix st).
Proof.
  unfold epilogue, fromLast. destruct (truthyRet _); [|apply fromFinally_kept].
  apply andThen_kept; [apply closingStep_kept|apply fromFinally_kept].
Qed.

Lemma fromFirst_kept fuel st :
  kept (hworld st) (fromFirst env el eventType prefix fuel st).
Proof.
  unfold fromFirst. apply andThen_kept; [apply firstStep_kept|]. intros st'.
  unfold fromNumbered. apply andThen_kept; [apply numberedSteps_kept|].
  apply epilogue_kept.
Qed.

End Wiring.

(** X25.  A run of the listener rewires nothing: whatever its steps do,
    every element the scripts, dialogs, timers and inline handlers do not
    rewire has at the end the [data-] attributes, the [on...] properties,
    the listeners and the bookkeeping it had when the event arrived. *)
Theorem listener_keeps_wiring env fuel handler w x :
  tame sameWiring env x →
  sameWiring (elementAt w x) (elementAt (finalWorld (actionHandler env fuel handler w)) x).
Proof.
  intros Htame. unfold actionHandler. cbv zeta.
  apply (fromFirst_kept env x Htame (l_el handler) (l_eventType handler)
           (l_prefix handler) fuel
           (HState (log EStopPropagation (log EPreventDefault w)) false RTrue)).
Qed.

Lemma listener_keeps_wiring_witness :
  tame sameWiring Fixture.env 1%nat
  ∧ sameWiring (elementAt (Fixture.attached Fixture.scrolling (SFun 7)) 1%nat)
      (elementAt
         (finalWorld (Fixture.click 10 (Fixture.attached Fixture.scrolling (SFun 7))))
         1%nat).
Proof.
  assert (tame sameWiring Fixture.env 1%nat) as H1 by (by split; intros; intros w).
  exact (conj H1
           (listener_keeps_wiring Fixture.env 10 (Listener 0%nat 0%nat "click" "ca")
              (Fixture.attached Fixture.scrolling (SFun 7)) 1%nat H1)).
Defined.

(* ===================================================================== *)
(** * Termination of the listener *)
(* ===================================================================== *)

Section Termination.
Context (env : Env) (el : elem) (Htame : tame sameWiring env el).
Context (eventType prefix : string).

Lemma numberedSteps_terminates k fuel i st :
  present (stepOptions env el (prefix +:+ "-" +:+ pretty (i + k)%nat) (hworld st))
    = false →
  (k ≤ fuel)%nat →
  timedOut (numberedSteps env el prefix fuel i st) = false.
Proof.
  revert fuel i st. induction k as [|k IH]; intros fuel i st Habsent Hfuel.
  - rewrite Nat.add_0_r in Habsent.
    by rewrite (numberedSteps_absent env el prefix fuel i st Habsent).
  - destruct fuel as [|fuel]; [lia|]. cbn [numberedSteps]. cbv zeta.
    destruct (truthyRet _); [|done].
    destruct (present (stepOptions env el (prefix +:+ "-" +:+ pretty i) (hworld st)));
      [|done].
    pose proof (executeAction_keeps_wiring env el el
                  (withDefaults
                     (stepOptions env el (prefix +:+ "-" +:+ pretty i) (hworld st)))
                  (log (EStep (Numbered i)) (hworld st)) Htame) as H.
    destruct (executeAction _ _ _ _) as [w [r|]]; cbn in H; [|done].
    apply IH; [|lia].
    rewrite Nat.add_succ_r in Habsent.
    erewrite stepOptions_wiring; [exact Habsent|]. etrans; [exact H|].
    match goal with
    | |- context [showSplashIf env ?o ?s] =>
        destruct (showSplashIf_spec env o s) as (_ & Hd & _)
    end.
    rewrite (elementAt_dom _ _ el Hd).
    destruct (clearsSplash _); [|done].
    destruct (hideSplash_spec (HState w (splashDlg st) r)) as (_ & Hd' & _).
    by rewrite (elementAt_dom _ _ el Hd').
Qed.

Lemma firstStep_returns st : timedOut (firstStep env el prefix st) = false.
Proof.
  unfold firstStep. cbv zeta. destruct (present _); [|done].
  by destruct (executeAction _ _ _ _) as [w [r|]].
Qed.

End Termination.

(** X26.  The loop over the numbered steps terminates.  When the scripts,
    dialogs, timers and inline handlers do not rewire the element, and the
    element has no attribute of the step [n], the run of the listener
    comes to an end with the fuel of [n - 1] numbered steps, however many
    steps are run before. *)
Theorem listener_terminates env fuel handler w n :
  tame sameWiring env (l_el handler) →
  ¬ hasStepAttribute (elementAt w (l_el handler))
      (l_prefix handler +:+ "-" +:+ pretty n) →
  (1 ≤ n ≤ S fuel)%nat →
  timedOut (actionHandler env fuel handler w) = false.
Proof.
  intros Htame Hnone [Hone Hfuel]. unfold actionHandler. cbv zeta.
  set (st := HState (log EStopPropagation (log EPreventDefault w)) false RTrue).
  pose proof (firstStep_kept env (l_el handler) Htame (l_el handler) (l_prefix handler) st)
    as Hkept.
  pose proof (firstStep_returns env (l_el handler) (l_prefix handler) st) as Hfirst.
  unfold fromFirst.
  destruct (firstStep env (l_el handler) (l_prefix handler) st) as [st1| |];
    [|reflexivity|discriminate Hfirst].
  unfold andThen at 1. unfold fromNumbered.
  assert (timedOut (numberedSteps env (l_el handler) (l_prefix handler) fuel 1 st1)
          = false) as Hloop.
  { apply (numberedSteps_terminates env (l_el handler) Htame (l_prefix handler)
             (n - 1)); [|lia].
    replace (1 + (n - 1))%nat with n by lia.
    rewrite (stepOptions_wiring env (l_el handler) _ w (hworld st1)); [|exact Hkept].
    by apply stepOptions_absent. }
  destruct (numberedSteps _ _ _ _ _ _) as [st2| |];
    [|reflexivity|discriminate Hloop].
  unfold andThen. apply epilogue_trace.
Qed.

Lemma listener_terminates_witness :
  tame sameWiring Fixture.env 0%nat
  ∧ ¬ hasStepAttribute (elementAt (Fixture.attached Sample.gap (SFun 7)) 0%nat)
        ("ca" +:+ "-" +:+ pretty 2%nat)
  ∧ (1 ≤ 2 ≤ S 1)%nat
  ∧ timedOut (Fixture.click 1 (Fixture.attached Sample.gap (SFun 7))) = false.
Proof.
  assert (tame sameWiring Fixture.env 0%nat) as H1 by (by split; intros; intros w).
  assert (¬ hasStepAttribute (elementAt (Fixture.attached Sample.gap (SFun 7)) 0%nat)
            ("ca" +:+ "-" +:+ pretty 2%nat)) as H2.
  { intros (key & Hin & Hsome). revert Hsome.
    repeat (apply elem_of_cons in Hin as [->|Hin]; [by vm_compute; intros [? [=]]|]).
    by apply elem_of_nil in Hin. }
  assert (1 ≤ 2 ≤ S 1)%nat as H3 by lia.
  exact (conj H1 (conj H2 (conj H3
           (listener_terminates Fixture.env 1 (Listener 0%nat 0%nat "click" "ca")
              (Fixture.attached Sample.gap (SFun 7)) 2 H1 H2 H3)))).
Defined.

(* ===================================================================== *)
(** * Names in dashed form *)
(* ===================================================================== *)

Lemma digit_not_dash c : Js.isDigit c = true → Js.isDash c = false.
Proof. each_char c. Qed.

Lemma digit_not_upper c : Js.isDigit c = true → Js.isUpper c = false.
Proof. each_char c. Qed.

Lemma upper_not_digit_dash c :
  Js.isUpper c = true
  → Js.isDigit c = false ∧ Js.isDash c = false
    ∧ Js.isDigit (Js.lowerChar c) = false ∧ Js.isDash (Js.lowerChar c) = false.
Proof. each_char c. Qed.

Lemma dashUpper_keeps c l :
  Js.isUpper c = false → Js.dashUpper (c :: l) = c :: Js.dashUpper l.
Proof. intros H. by rewrite dashUpper_cons, H. Qed.

(** What the first three passes do to a name that is dashed from [prev]
    on. *)
Lemma passes_dashed prev l :
  Js.chained Js.tidyPair prev l = true →
  Js.collapseDashes (Js.after Js.isDash prev)
    (Js.dashUpper (Js.dashDigits (Js.after Js.isDigit prev) l))
  = match prev, l with
    | None, c :: _ => if Js.isDigit c then "-"%char :: l else l
    | _, _ => l
    end.
Proof.
  revert prev. induction l as [|c l IH]; intros prev; [by destruct prev|].
  cbn [Js.chained]. intros [Hc Hl]%andb_true_iff.
  specialize (IH (Some c) Hl). cbn [Js.after] in IH.
  unfold Js.tidyPair in Hc.
  apply andb_true_iff in Hc as [[Hupper%negb_true_iff Hdigit]%andb_true_iff Hdash].
  cbn [Js.dashDigits].
  destruct (Js.isDigit c) eqn:Hd.
  - pose proof (digit_not_dash c Hd) as Hnd. rewrite Hnd in IH.
    assert (Js.collapseDashes false (c :: Js.dashUpper (Js.dashDigits true l)) = c :: l)
      as Hrest.
    { cbn [Js.collapseDashes]. by rewrite Hnd, IH. }
    destruct prev as [p|]; cbn [Js.after].
    + destruct (Js.isDigit p) eqn:Hp.
      * rewrite (digit_not_dash p Hp). cbn [app].
        by rewrite (dashUpper_keeps c _ Hupper).
      * cbn in Hdigit. rewrite Hdigit. cbn [app].
        rewrite (dashUpper_keeps "-"%char _ eq_refl), (dashUpper_keeps c _ Hupper).
        cbn [Js.collapseDashes]. rewrite Hnd.
        change (Js.isDash "-") with true. cbn [app]. by rewrite IH.
    + cbn [app].
      rewrite (dashUpper_keeps "-"%char _ eq_refl), (dashUpper_keeps c _ Hupper).
      cbn [Js.collapseDashes]. rewrite Hnd.
      change (Js.isDash "-") with true. cbn [app]. by rewrite IH.
  - rewrite (dashUpper_keeps c _ Hupper). cbn [Js.collapseDashes].
    destruct (Js.isDash c) eqn:Hcd.
    + destruct prev as [p|]; [|done]. cbn [Js.after] in *.
      apply negb_true_iff in Hdash. rewrite Hdash. cbn [app]. by rewrite IH.
    + rewrite IH. by destruct prev.
Qed.

Lemma chained_app R prev a b :
  Js.chained R prev (a ++ b)
  = Js.chained R prev a && Js.chained R (from_option Some prev (last a)) b.
Proof.
  revert prev. induction a as [|c a IH]; intros prev; [done|].
  cbn [app Js.chained]. rewrite IH, andb_assoc. do 2 f_equal.
  destruct a as [|x a]; [done|]. change (last (c :: x :: a)) with (last (x :: a)).
  destruct (last (x :: a)) eqn:Hlast; [done|]. by apply last_None in Hlast.
Qed.

Lemma chained_mono (R R' : option ascii → ascii → bool) p l :
  (∀ q c, R (Some q) c = true → R' (Some q) c = true) →
  Js.chained R (Some p) l = true → Js.chained R' (Some p) l = true.
Proof.
  intros HR. revert p. induction l as [|c l IH]; intros p; [done|].
  cbn [Js.chained]. intros [Hc Hl]%andb_true_iff.
  apply andb_true_iff. split; [by apply HR|by apply IH].
Qed.

Lemma dashDigits_led inRun prev l :
  (inRun = true → Js.after Js.isDigit prev = true) →
  Js.chained Js.ledDigit prev (Js.dashDigits inRun l) = true.
Proof.
  revert inRun prev. induction l as [|c l IH]; intros inRun prev Hrun; [done|].
  cbn [Js.dashDigits]. destruct (Js.isDigit c) eqn:Hd.
  - assert (Js.chained Js.ledDigit (Some c) (Js.dashDigits true l) = true) as Hrest.
    { apply IH. intros _. exact Hd. }
    destruct inRun; cbn [app Js.chained]; rewrite Hrest.
    + unfold Js.ledDigit. rewrite Hd. destruct prev as [p|]; cbn in *.
      * by rewrite (Hrun eq_refl).
      * by discriminate (Hrun eq_refl).
    + unfold Js.ledDigit. rewrite Hd. by destruct prev.
  - cbn [Js.chained]. rewrite IH by discriminate.
    unfold Js.ledDigit. by rewrite Hd.
Qed.

Lemma dashUpper_led prev prev' l :
  (∀ d, Js.ledDigit prev d = true → Js.ledDigit prev' d = true) →
  Js.chained Js.ledDigit prev l = true →
  Js.chained Js.lowerLed prev' (Js.dashUpper l) = true.
Proof.
  revert prev prev'. induction l as [|c l IH]; intros prev prev' Hprev; [done|].
  cbn [Js.chained]. intros [Hc Hl]%andb_true_iff.
  rewrite dashUpper_cons. destruct (Js.isUpper c) eqn:Hu; cbn [app Js.chained].
  - destruct (upper_not_digit_dash c Hu) as (Hd & Hdash & Hld & Hldash).
    rewrite (IH (Some c) (Some (Js.lowerChar c))); [|
      |exact Hl].
    + unfold Js.lowerLed, Js.ledDigit. rewrite isUpper_lowerChar, Hld.
      by destruct prev'.
    + intros d. unfold Js.ledDigit. destruct (Js.isDigit d); [|done].
      cbn. by rewrite Hd, Hdash.
  - rewrite (IH (Some c) (Some c)); [|done|exact Hl].
    unfold Js.lowerLed. rewrite Hu, (Hprev c Hc). done.
Qed.

Lemma collapseDashes_strict prev l :
  Js.chained Js.lowerLed prev l = true →
  Js.chained Js.strictPair prev (Js.collapseDashes (Js.after Js.isDash prev) l)
  = true.
Proof.
  revert prev. induction l as [|c l IH]; intros prev; [done|].
  cbn [Js.chained]. intros [Hc Hl]%andb_true_iff.
  specialize (IH (Some c) Hl). cbn [Js.after] in IH.
  cbn [Js.collapseDashes]. destruct (Js.isDash c) eqn:Hd.
  - destruct (Js.after Js.isDash prev) eqn:Hprev; cbn [app Js.chained].
    + destruct prev as [p|]; [|done]. cbn in Hprev.
      apply isDash_spec in Hprev as ->. apply isDash_spec in Hd as ->. exact IH.
    + rewrite IH. unfold Js.strictPair. by rewrite Hc, Hd, Hprev.
  - cbn [Js.chained]. rewrite IH. unfold Js.strictPair. by rewrite Hc, Hd.
Qed.

Lemma chained_tidy q l :
  Js.chained Js.strictPair q l = true →
  head l ≠ Some "-"%char →
  Js.chained Js.tidyPair None l = true.
Proof.
  destruct l as [|c l]; [done|]. cbn [Js.chained head].
  intros [Hc Hl]%andb_true_iff Hhead.
  assert (Js.isDash c = false) as Hd.
  { apply isDash_false. by intros ->. }
  apply andb_true_iff. split.
  - unfold Js.strictPair, Js.lowerLed in Hc. unfold Js.tidyPair.
    apply andb_true_iff in Hc as [[-> _]%andb_true_iff _].
    rewrite Hd. by destruct (Js.isDigit c).
  - apply (chained_mono Js.strictPair); [|exact Hl].
    intros p d. unfold Js.strictPair, Js.lowerLed, Js.ledDigit, Js.tidyPair.
    cbn [Js.after].
    intros [[-> Hdigit]%andb_true_iff Hdash]%andb_true_iff.
    rewrite Hdigit. cbn. exact Hdash.
Qed.

(** What [camelToSnakeCase] returns is in dashed form. *)
Lemma camelToSnakeCase_dashed s : Js.dashed (Js.camelToSnakeCase s) = true.
Proof.
  unfold Js.dashed, Js.camelToSnakeCase. rewrite chars_str.
  set (m := Js.collapseDashes false _).
  apply andb_true_iff. split.
  - assert (Js.chained Js.strictPair None m = true) as Hm.
    { apply (collapseDashes_strict None), (dashUpper_led None None); [done|].
      by apply dashDigits_led. }
    destruct (stripDashes_infix m) as (k1 & k2 & Hk).
    rewrite Hk, !chained_app in Hm.
    apply andb_true_iff in Hm as [_ [Hm _]%andb_true_iff].
    eapply chained_tidy; [exact Hm|apply stripDashes_head].
  - apply negb_true_iff, bool_decide_eq_false, stripDashes_last.
Qed.

Lemma chained_tidy_head l :
  Js.chained Js.tidyPair None l = true → head l ≠ Some "-"%char.
Proof.
  destruct l as [|c l]; [done|]. cbn [Js.chained head].
  intros [Hc _]%andb_true_iff [= ->]. done.
Qed.

Lemma stripDashes_dash l : Js.stripDashes ("-"%char :: l) = Js.stripDashes l.
Proof. done. Qed.

(** A name in dashed form is left as it is. *)
Lemma camelToSnakeCase_of_dashed s :
  Js.dashed s = true → Js.camelToSnakeCase s = s.
Proof.
  unfold Js.dashed. intros [Hs Hlast]%andb_true_iff.
  apply negb_true_iff, bool_decide_eq_false in Hlast.
  pose proof (chained_tidy_head _ Hs) as Hhead.
  pose proof (passes_dashed None (Js.chars s) Hs) as Hpasses.
  cbn [Js.after] in Hpasses. unfold Js.camelToSnakeCase. rewrite Hpasses.
  assert (Js.stripDashes (Js.chars s) = Js.chars s) as Hstrip.
  { unfold Js.stripDashes. rewrite (dropDashes_id _ Hhead).
    rewrite dropDashes_id; [apply reverse_involutive|]. by rewrite head_reverse. }
  destruct (Js.chars s) as [|c l] eqn:Hl.
  - rewrite <- (str_chars s), Hl. done.
  - rewrite <- (str_chars s), Hl.
    destruct (Js.isDigit c); [|by rewrite Hstrip].
    by rewrite stripDashes_dash, Hstrip.
Qed.

(** X27.  The names [camelToSnakeCase] leaves as they are are exactly the
    names in dashed form: no capital letter, no dash at either end, no two
    dashes in a row, and a dash in front of every run of digits that does
    not start the name. *)
Theorem camelToSnakeCase_fixed_points s :
  Js.camelToSnakeCase s = s ↔ Js.dashed s = true.
Proof.
  split.
  - intros <-. apply camelToSnakeCase_dashed.
  - apply camelToSnakeCase_of_dashed.
Qed.

(** X28.  [camelToSnakeCase] is idempotent: converting a converted name
    changes nothing. *)
Theorem camelToSnakeCase_idempotent s :
  Js.camelToSnakeCase (Js.camelToSnakeCase s) = Js.camelToSnakeCase s.
Proof. apply camelToSnakeCase_of_dashed, camelToSnakeCase_dashed. Qed.

Example camelToSnakeCase_samples :
  Js.camelToSnakeCase "ca-1" = "ca-1"
  ∧ Js.camelToSnakeCase "step10Done" = "step-10-done"
  ∧ Js.camelToSnakeCase "step-10-done" = "step-10-done"
  ∧ Js.dashed "step-10-done" = true
  ∧ Js.dashed "step10" = false.
Proof. repeat split; by vm_compute. Qed.

(* ===================================================================== *)
(** * Targets that occur more than once *)
(* ===================================================================== *)

Lemma foldl_alter_occurrences (f : element → element) targetElements
    (d : gmap elem element) x :
  foldl (λ d t, alter f t d) d targetElements !! x
  = Nat.iter (occurrences x targetElements) f <$> d !! x.
Proof.
  unfold occurrences. revert d.
  induction targetElements as [|t targetElements IH]; intros d.
  { cbn. by destruct (d !! x). }
  cbn [foldl]. rewrite IH, filter_cons. destruct (decide (t = x)) as [->|Hne].
  - rewrite lookup_alter_eq. destruct (d !! x) as [e|]; [|done].
    cbn [length fmap option_fmap option_map]. by rewrite Nat.iter_succ_r.
  - by rewrite lookup_alter_ne.
Qed.

Lemma elementAt_onTargets_occurrences f targetElements w x :
  is_Some (dom w !! x) →
  elementAt (onTargets f targetElements w) x
  = Nat.iter (occurrences x targetElements) f (elementAt w x).
Proof.
  intros [e He]. unfold elementAt, onTargets. cbn.
  by rewrite foldl_alter_occurrences, He.
Qed.

Lemma props_applyContentTo_congr env content e e' :
  props e = props e' →
  props (applyContentTo env content e) = props (applyContentTo env content e').
Proof.
  intros H. unfold applyContentTo, setProp, getProp. cbv zeta.
  destruct (contentClear content), (truthy (contentSet content)),
    (truthy (contentAppend content)), (truthy (contentPrepend content));
    cbn; by rewrite ?H.
Qed.

Lemma classList_iter_applyContentTo env content n e :
  classList (Nat.iter n (applyContentTo env content) e) = classList e.
Proof. induction n as [|n IH]; [done|]. cbn. by rewrite classList_applyContentTo. Qed.

Lemma props_iter_applyClassesTo classes n e :
  props (Nat.iter n (applyClassesTo classes) e) = props e.
Proof.
  induction n as [|n IH]; [done|]. cbn. rewrite <- IH.
  unfold applyClassesTo. by destruct (bool_decide _).
Qed.

Lemma props_iter_applyContentTo_congr env content n e e' :
  props e = props e' →
  props (Nat.iter n (applyContentTo env content) e)
  = props (Nat.iter n (applyContentTo env content) e').
Proof.
  intros H. induction n as [|n IH]; [done|]. cbn. by apply props_applyContentTo_congr.
Qed.

(** X29.  The loops of a step go through the target list as it is: an
    element that occurs several times in it, matched by the [target]
    selector and again by the [targetChildren] selector, gets the class
    changes and the content changes once for every occurrence.  Toggled
    twice, a class is back where it was; appended twice, a text stands
    twice. *)
Theorem target_mutated_once_per_occurrence env classes content scrollTo
    targetElements w x :
  is_Some (dom w !! x) →
  classList (elementAt (mutate env classes content scrollTo targetElements w) x)
  = classList (Nat.iter (occurrences x targetElements) (applyClassesTo classes)
                 (elementAt w x))
  ∧ props (elementAt (mutate env classes content scrollTo targetElements w) x)
    = props (Nat.iter (occurrences x targetElements) (applyContentTo env content)
               (elementAt w x)).
Proof.
  intros Hpage. unfold mutate.
  set (w1 := onTargets (applyClassesTo classes) targetElements w).
  set (w2 := onTargets (applyContentTo env content) targetElements w1).
  assert (classList (elementAt (applyScroll scrollTo targetElements w2) x)
          = classList (elementAt w2 x)
          ∧ props (elementAt (applyScroll scrollTo targetElements w2) x)
            = props (elementAt w2 x)) as [-> ->].
  { unfold applyScroll. destruct scrollTo as [k|], targetElements as [|t ts]; try done.
    split.
    - apply (onTargets_preserves _ classList), classList_scrollElement.
    - apply (onTargets_preserves _ props), props_scrollElement. }
  unfold w2. rewrite elementAt_onTargets_occurrences by (by apply onTargets_on_page).
  unfold w1. rewrite elementAt_onTargets_occurrences by done.
  split.
  - apply classList_iter_applyContentTo.
  - apply props_iter_applyContentTo_congr, props_iter_applyClassesTo.
Qed.

Lemma target_mutated_once_per_occurrence_witness :
  is_Some (dom (Fixture.before Sample.overlapping) !! 1%nat)
  ∧ occurrences 1%nat [1%nat; 1%nat; 2%nat] = 2%nat
  ∧ classList
      (elementAt
         (mutate Fixture.env (ClassRequest [] [] ["b"] [])
            (ContentRequest "innerHTML" false VNull (VStr "!") VNull) None
            [1%nat; 1%nat; 2%nat] (Fixture.before Sample.overlapping)) 1%nat)
    = ["a"; "b"]
  ∧ props
      (elementAt
         (mutate Fixture.env (ClassRequest [] [] ["b"] [])
            (ContentRequest "innerHTML" false VNull (VStr "!") VNull) None
            [1%nat; 1%nat; 2%nat] (Fixture.before Sample.overlapping)) 1%nat)
    = {[ "innerHTML" := "A!!" ]}.
Proof.
  assert (is_Some (dom (Fixture.before Sample.overlapping) !! 1%nat)) as H1
    by (by eexists).
  destruct (target_mutated_once_per_occurrence Fixture.env
              (ClassRequest [] [] ["b"] [])
              (ContentRequest "innerHTML" false VNull (VStr "!") VNull) None
              [1%nat; 1%nat; 2%nat] (Fixture.before Sample.overlapping) 1%nat H1)
    as [Hclasses Hcontent].
  split; [exact H1|]. split; [reflexivity|].
  split; [rewrite Hclasses|rewrite Hcontent]; by vm_compute.
Defined.

(** A click on a button whose two selectors both match the first panel:
    the class [b] of the first panel is toggled twice and stays, the one
    of the second panel is toggled once and goes; the text is appended
    twice to the first panel and once to the second. *)
Example click_with_overlapping_selectors :
  (classList <$> Sample.afterOverlapping !! 1%nat) = Some ["a"; "b"]
  ∧ (classList <$> Sample.afterOverlapping !! 2%nat) = Some []
  ∧ (getProp "innerHTML" <$> Sample.afterOverlapping !! 1%nat) = Some "A!!"
  ∧ (getProp "innerHTML" <$> Sample.afterOverlapping !! 2%nat) = Some "B!".
Proof. repeat split; by vm_compute. Qed.
